(** * X-ray emissivity band integration (yt_Xray/Xray_field.py)

    A shallow embedding of [XrayEmissivityIntegrator] and
    [calculate_xray_emissivity].

    Numbers.  Table entries, bin edges and energies are rationals ([Q]): the
    float arithmetic of the band integration is read as exact arithmetic, so
    sums and products are compared with [==]; what is proved of a surface
    holds of the doubles up to rounding, and nothing is meant about the sign
    or the vanishing of a quantity that is within rounding of zero.
    Per-cell catalog values are
    [fval]: a number, an infinity or NaN, with the arithmetic of doubles: the
    sum or product of two numbers is the rounding [fl] of the exact result,
    which may overflow to an infinity (signed zeros are not told apart).
    The rounding, the transcendental functions ([np.log10],
    [np.power(10, .)]), the keV-to-erg factor of the unit library and the
    evaluation of yt's interpolator objects are not part of the script; they
    are Section variables, with nothing assumed about them unless a theorem
    says so.  Output on stdout ([print]) is not modelled. *)

From Stdlib Require Import Ascii String DecimalString.
From Stdlib Require Import QArith Qminmax Qabs Qround Lqa Lia ZArith Bool List.
Import ListNotations.

Local Open Scope Q_scope.

(** ** Exceptions and results *)

Inductive exn : Type :=
| EnergyBoundsException (lower upper : Q)
| IndexError
| ValueError
| AttributeError
| KeyError
| OSError (msg : string).

Inductive result (A : Type) : Type :=
| Return (a : A)
| Raise (e : exn).

Arguments Return {A} a.
Arguments Raise {A} e.

Definition bind {A B : Type} (m : result A) (k : A -> result B) : result B :=
  match m with
  | Return a => k a
  | Raise e => Raise e
  end.

Notation "x <- m ;; k" := (bind m (fun x => k))
  (at level 61, m at next level, right associativity).

Fixpoint mapM {A B : Type} (f : A -> result B) (l : list A) : result (list B) :=
  match l with
  | [] => Return []
  | a :: t => b <- f a ;; bs <- mapM f t ;; Return (b :: bs)
  end.

(** ** Doubles: numbers, infinities and NaN *)

Inductive fval : Type :=
| Num (q : Q)
| Inf (negative : bool)
| NaN.

Definition isnan (v : fval) : bool :=
  match v with NaN => true | _ => false end.

Definition Qltb (a b : Q) : bool := negb (Qle_bool b a).

(** [a + b] on doubles.  [fl] rounds the exact sum of two numbers to a
    double, or to an infinity when it overflows; infinities of opposite
    signs add up to NaN. *)
Definition fadd (fl : Q -> fval) (a b : fval) : fval :=
  match a, b with
  | Num x, Num y => fl (x + y)
  | Num _, Inf s | Inf s, Num _ => Inf s
  | Inf s, Inf t => if Bool.eqb s t then Inf s else NaN
  | _, _ => NaN
  end.

(** [a * b] on doubles.  An infinity times zero is NaN. *)
Definition fmul (fl : Q -> fval) (a b : fval) : fval :=
  match a, b with
  | Num x, Num y => fl (x * y)
  | Num x, Inf s | Inf s, Num x =>
      if Qeq_bool x 0 then NaN else Inf (xorb s (Qltb x 0))
  | Inf s, Inf t => Inf (xorb s t)
  | _, _ => NaN
  end.

(** ** The numpy operations the script uses *)

(** [a / b < c] and [a / b > c] on floats: a zero divisor gives an infinity
    of the sign of [a], or NaN when [a] is zero too, and no exception. *)
Definition quot_lt (a b c : Q) : bool :=
  if Qeq_bool b 0 then Qltb a 0 else Qltb (a / b) c.

Definition quot_gt (a b c : Q) : bool :=
  if Qeq_bool b 0 then Qltb 0 a else Qltb c (a / b).

(** [l[i]] with Python's negative indices. *)
Definition py_index (n i : Z) : Z := if (i <? 0)%Z then (i + n)%Z else i.

Definition getitem (l : list Q) (i : Z) : result Q :=
  let n := Z.of_nat (length l) in
  let j := py_index n i in
  if ((0 <=? j) && (j <? n))%Z then Return (nth (Z.to_nat j) l 0)
  else Raise IndexError.

Fixpoint set_nth (l : list Q) (j : nat) (x : Q) : list Q :=
  match l, j with
  | [], _ => []
  | _ :: t, O => x :: t
  | a :: t, S j' => a :: set_nth t j' x
  end.

(** [l[i] -= x] *)
Definition isub (l : list Q) (i : Z) (x : Q) : result (list Q) :=
  let n := Z.of_nat (length l) in
  let j := py_index n i in
  if ((0 <=? j) && (j <? n))%Z
  then Return (set_nth l (Z.to_nat j) (nth (Z.to_nat j) l 0 - x))
  else Raise IndexError.

(** [l[a:b]] *)
Definition slice_bound (n i : Z) : Z :=
  if (i <? 0)%Z then Z.max 0 (i + n) else Z.min i n.

Definition slice {A : Type} (l : list A) (a b : Z) : list A :=
  let n := Z.of_nat (length l) in
  let a' := slice_bound n a in
  let b' := slice_bound n b in
  firstn (Z.to_nat (b' - a')) (skipn (Z.to_nat a') l).

(** [np.diff] *)
Fixpoint diff (l : list Q) : list Q :=
  match l with
  | a :: ((b :: _) as t) => (b - a) :: diff t
  | _ => []
  end.

Fixpoint nondecreasing (l : list Q) : bool :=
  match l with
  | a :: ((b :: _) as t) => Qle_bool a b && nondecreasing t
  | _ => true
  end.

Fixpoint nonincreasing (l : list Q) : bool :=
  match l with
  | a :: ((b :: _) as t) => Qle_bool b a && nonincreasing t
  | _ => true
  end.

Definition count_le (x : Q) (bins : list Q) : nat :=
  length (filter (fun b => Qle_bool b x) bins).

Definition count_gt (x : Q) (bins : list Q) : nat :=
  length (filter (fun b => Qltb x b) bins).

(** [np.digitize(x, bins)] with [right=False]: on increasing bins the index
    [i] with [bins[i-1] <= x < bins[i]] (a right-sided binary search, that is
    the number of edges [<= x]); on decreasing bins the mirrored count; bins
    that are not monotonic are refused. *)
Definition digitize (x : Q) (bins : list Q) : result Z :=
  if nondecreasing bins then Return (Z.of_nat (count_le x bins))
  else if nonincreasing bins then Return (Z.of_nat (count_gt x bins))
  else Raise ValueError.

(** [np.clip] *)
Definition clip (x lo hi : Z) : Z := Z.min (Z.max x lo) hi.

Fixpoint zipWith {A B C : Type} (f : A -> B -> C) (l1 : list A) (l2 : list B)
  : list C :=
  match l1, l2 with
  | a :: t1, b :: t2 => f a b :: zipWith f t1 t2
  | _, _ => []
  end.

(** An elementwise operation between two vectors, with numpy's broadcasting
    of a length-one operand. *)
Definition broadcast (op : Q -> Q -> Q) (a b : list Q) : result (list Q) :=
  if (length a =? length b)%nat then Return (zipWith op a b)
  else if (length b =? 1)%nat then Return (map (fun x => op x (hd 0 b)) a)
  else if (length a =? 1)%nat then Return (map (op (hd 0 a)) b)
  else Raise ValueError.

Definition sum (l : list Q) : Q := fold_right Qplus 0 l.

(** The emissivity datasets: [(T, N)] for a table over temperature only,
    [(nH, T, N)] for a table over density and temperature; the last axis is
    the energy bin. *)
Inductive ndarray : Type :=
| Arr2 (rows : list (list Q))
| Arr3 (planes : list (list (list Q))).

Definition ndim (a : ndarray) : nat :=
  match a with Arr2 _ => 2%nat | Arr3 _ => 3%nat end.

(** What is left of a dataset once the energy axis is summed away. *)
Inductive surface : Type :=
| Surf1 (s : list Q)
| Surf2 (s : list (list Q)).

(** [f] applied along the last axis, each energy row giving a row. *)
Definition along_rows (f : list Q -> result (list Q)) (a : ndarray)
  : result ndarray :=
  match a with
  | Arr2 rows => r <- mapM f rows ;; Return (Arr2 r)
  | Arr3 planes => p <- mapM (mapM f) planes ;; Return (Arr3 p)
  end.

(** [a.sum(axis=-1)] *)
Definition sum_last (a : ndarray) : surface :=
  match a with
  | Arr2 rows => Surf1 (map sum rows)
  | Arr3 planes => Surf2 (map (map sum) planes)
  end.

(** ** yt's interpolator objects

    The classes live in [yt.utilities.linear_interpolators]; an object is
    kept as the arguments it was built with. *)
Inductive FieldInterpolator : Type :=
| UnilinearFieldInterpolator (table : list fval) (boundaries : Q * Q)
    (field_names : string) (truncate : bool)
| BilinearFieldInterpolator (table : list (list fval))
    (boundaries : Q * Q * Q * Q) (field_names : string * string)
    (truncate : bool).

(** ** The integrator *)

Record XrayEmissivityIntegrator : Type := {
  log_T : list Q;
  emissivity_primordial : ndarray;
  log_nH : option (list Q);          (* set only when the file has it *)
  emissivity_metals : option ndarray; (* set only when [use_metals] *)
  ebin : list Q;                     (* keV *)
  dE : list Q;                       (* keV *)
  emid : list Q;                     (* erg *)
  redshift : Q
}.

(** [getattr(self, f"emissivity_{data_type}")] *)
Definition getattr_emissivity (self : XrayEmissivityIntegrator)
  (data_type : string) : result ndarray :=
  if String.eqb data_type "primordial" then Return (emissivity_primordial self)
  else if String.eqb data_type "metals" then
    match emissivity_metals self with
    | Some a => Return a
    | None => Raise AttributeError
    end
  else Raise AttributeError.

(** Lines 100-103 of [get_interpolator]: the dataset, divided by the bin
    midpoints (in erg) in photon mode.  (A zero midpoint, which needs bin
    edges that are not positive, would give an infinity or NaN on floats;
    [Qdiv] gives 0 there.) *)
Definition load_data (self : XrayEmissivityIntegrator) (data_type : string)
  (energy : bool) : result ndarray :=
  data <- getattr_emissivity self data_type ;;
  if energy then Return data
  else along_rows (fun row => broadcast Qdiv row (emid self)) data.

(** Lines 104-119 of [get_interpolator]: the band [e_min, e_max] integrated
    over [data], which is the dataset or, in photon mode, the dataset divided
    by the bin midpoints. *)
Definition integrate_band (self : XrayEmissivityIntegrator) (data : ndarray)
  (e_min e_max : Q) : result surface :=
  let e_min := e_min * (1 + redshift self) in
  let e_max := e_max * (1 + redshift self) in
  lower <- getitem (ebin self) 0 ;;
  upper <- getitem (ebin self) (-1) ;;
  if quot_lt (e_min - lower) e_min (-(1 # 1000))       (* < -1e-3 *)
     || quot_gt (e_max - upper) e_max (1 # 1000)       (* > 1e-3 *)
  then Raise (EnergyBoundsException lower upper)
  else
    d_is <- digitize e_min (ebin self) ;;
    d_ie <- digitize e_max (ebin self) ;;
    let size := Z.of_nat (length (ebin self)) in
    let e_is := clip (d_is - 1) 0 (size - 1) in
    let e_ie := clip d_ie 0 (size - 1) in
    let my_dE := slice (dE self) e_is e_ie in
    edge_s <- getitem (ebin self) e_is ;;
    my_dE <- isub my_dE 0 (e_min - edge_s) ;;
    edge_e <- getitem (ebin self) e_ie ;;
    my_dE <- isub my_dE (-1) (edge_e - e_max) ;;
    prod <- along_rows
              (fun row => broadcast Qmult (slice row e_is e_ie) my_dE) data ;;
    Return (sum_last prod).

(** Lines 100-119 of [get_interpolator]: the surface [interp_data]. *)
Definition interp_data (self : XrayEmissivityIntegrator) (data_type : string)
  (e_min e_max : Q) (energy : bool) : result surface :=
  data <- load_data self data_type energy ;;
  integrate_band self data e_min e_max.

(** ** Data files *)

Definition data_version : list (string * nat) :=
  [("cloudy"%string, 2%nat); ("apec"%string, 3%nat)].

Definition data_url : string := "http://yt-project.org/data".

Fixpoint lookup {A : Type} (k : string) (d : list (string * A)) : option A :=
  match d with
  | [] => None
  | (k', v) :: t => if String.eqb k k' then Some v else lookup k t
  end.

(** ["%d" % n] *)
Definition format_d (n : nat) : string :=
  NilZero.string_of_uint (Nat.to_uint n).

(** ["%s_emissivity_v%d.h5" % (table_type, version)] *)
Definition data_file_name (table_type : string) (version : nat) : string :=
  (table_type ++ "_emissivity_v" ++ format_d version ++ ".h5")%string.

Fixpoint ends_with_slash (s : string) : bool :=
  match s with
  | EmptyString => false
  | String c EmptyString => Ascii.eqb c "/"%char
  | String _ t => ends_with_slash t
  end.

(** [os.path.join] of two components. *)
Definition path_join (a b : string) : string :=
  if String.prefix "/" b then b
  else if String.eqb a "" then b
  else if ends_with_slash a then (a ++ b)%string
  else (a ++ "/" ++ b)%string.

(** The datasets of an emissivity file; [log_nH] and [emissivity_metals]
    may be missing. *)
Record H5File : Type := {
  h5_log_T : list Q;
  h5_emissivity_primordial : ndarray;
  h5_log_nH : option (list Q);
  h5_emissivity_metals : option ndarray;
  h5_E : list Q
}.

(** What the script sees of the machine: yt's configured data directory,
    which paths exist, and what [h5py.File] reads at a path. *)
Record Env : Type := {
  supp_data_dir : string;
  path_exists : string -> bool;
  h5_open : string -> option H5File
}.

Definition _get_data_file (env : Env) (table_type : string)
  (data_dir : option string) : result string :=
  match lookup table_type data_version with
  | None => Raise KeyError
  | Some version =>
      let data_file := data_file_name table_type version in
      let data_dir :=
        match data_dir with
        | Some d => d
        | None =>
            if path_exists env (supp_data_dir env) then supp_data_dir env
            else "."%string
        end in
      let data_path := path_join data_dir data_file in
      if negb (path_exists env data_path)
      then Raise (OSError ("Failed to find emissivity data file " ++ data_file
                           ++ "! Please download from " ++ data_url)%string)
      else Return data_path
  end.

(** A per-cell catalog: a structured array, every cell with the same named
    fields. *)
Record Catalog : Type := {
  names : list string;
  cells : list (string -> fval)
}.

(** [data[name]] *)
Definition field (data : Catalog) (name : string) : result (list fval) :=
  if existsb (String.eqb name) (names data)
  then Return (map (fun c => c name) (cells data))
  else Raise ValueError.

Record YTArray : Type := {
  values : list fval;
  units : string
}.

Definition nan_to_zero (v : fval) : fval :=
  if isnan v then Num 0 else v.

Section Script.

(** The double nearest to a real number, or an infinity when the number is
    out of the range of doubles. *)
Variable fl : Q -> fval.
(** The factor of [.to("erg")] on a keV quantity. *)
Variable erg_per_keV : Q.
(** [np.log10] and [np.power(10, .)] on a number. *)
Variable log10q : Q -> fval.
Variable pow10q : Q -> fval.
(** One cell's value of [interp(dd)] for yt's interpolators, from the
    arguments the object was built with. *)
Variable unilinear_at : list fval -> Q * Q -> bool -> fval -> fval.
Variable bilinear_at :
  list (list fval) -> Q * Q * Q * Q -> bool -> fval -> fval -> fval.

(** On infinities the two functions are those of IEEE 754:
    [log10(inf) = inf], [log10(-inf) = NaN], [10^inf = inf], [10^-inf = 0]. *)
Definition log10 (v : fval) : fval :=
  match v with
  | Num q => log10q q
  | Inf false => Inf false
  | Inf true => NaN
  | NaN => NaN
  end.

Definition pow10 (v : fval) : fval :=
  match v with
  | Num q => pow10q q
  | Inf false => Inf false
  | Inf true => Num 0
  | NaN => NaN
  end.

(** [self.emid]: [0.5 * (ebin[1:] + ebin[:-1]).to("erg")] *)
Definition midpoints (E : list Q) : list Q :=
  map (fun s => 0.5 * (s * erg_per_keV)) (zipWith Qplus (tl E) (removelast E)).

Definition __init__ (env : Env) (table_type : string) (redshift : Q)
  (data_dir : option string) (use_metals : bool)
  : result XrayEmissivityIntegrator :=
  filename <- _get_data_file env table_type data_dir ;;
  match h5_open env filename with
  | None => Raise (OSError "Unable to open file")
  | Some in_file =>
      em <- (if use_metals then
               match h5_emissivity_metals in_file with
               | Some a => Return (Some a)
               | None => Raise KeyError
               end
             else Return None) ;;
      Return {| log_T := h5_log_T in_file;
                emissivity_primordial := h5_emissivity_primordial in_file;
                log_nH := h5_log_nH in_file;
                emissivity_metals := em;
                ebin := h5_E in_file;
                dE := diff (h5_E in_file);
                emid := midpoints (h5_E in_file);
                redshift := redshift |}
  end.

Definition get_interpolator (self : XrayEmissivityIntegrator)
  (data_type : string) (e_min e_max : Q) (energy : bool)
  : result FieldInterpolator :=
  surf <- interp_data self data_type e_min e_max energy ;;
  match surf with
  | Surf1 s =>                        (* data.ndim == 2 *)
      t0 <- getitem (log_T self) 0 ;;
      t1 <- getitem (log_T self) (-1) ;;
      Return (UnilinearFieldInterpolator (map log10q s) (t0, t1) "log_T" true)
  | Surf2 s =>
      match log_nH self with
      | None => Raise AttributeError
      | Some nh =>
          n0 <- getitem nh 0 ;;
          n1 <- getitem nh (-1) ;;
          t0 <- getitem (log_T self) 0 ;;
          t1 <- getitem (log_T self) (-1) ;;
          Return (BilinearFieldInterpolator (map (map log10q) s)
                    (n0, n1, t0, t1) ("log_nH"%string, "log_T"%string) true)
      end
  end.

(** [interp(dd)]: one value per cell of the field the interpolator reads. *)
Definition call (f : FieldInterpolator) (dd : list (string * list fval))
  : result (list fval) :=
  match f with
  | UnilinearFieldInterpolator table b x_name tr =>
      match lookup x_name dd with
      | None => Raise KeyError
      | Some x => Return (map (unilinear_at table b tr) x)
      end
  | BilinearFieldInterpolator table b (x_name, y_name) tr =>
      match lookup x_name dd, lookup y_name dd with
      | Some x, Some y => Return (zipWith (bilinear_at table b tr) x y)
      | _, _ => Raise KeyError
      end
  end.

Definition calculate_xray_emissivity (env : Env) (data : Catalog)
  (temperature_model : string) (e_min e_max : Q) (use_metallicity : bool)
  (redshift : Q) (table_type : string) (data_dir : option string)
  : result (option YTArray) :=
  if negb (String.eqb table_type "cloudy") then Return None
  else
    lognH <- field data "lognH" ;;
    let nH := map pow10 lognH in
    let norm_field := map (fun x => fmul fl x x) nH in
    Temperature <- field data temperature_model ;;
    let logT := map log10 Temperature in
    gas_metallicity_Zsun <- field data "gas_metallicity_host" ;;
    my_si <- __init__ env table_type redshift data_dir true ;;
    em_0 <- get_interpolator my_si "primordial" e_min e_max true ;;
    emp_0 <- get_interpolator my_si "primordial" e_min e_max false ;;
    em_Z <- (if use_metallicity then
               em <- get_interpolator my_si "metals" e_min e_max true ;;
               emp <- get_interpolator my_si "metals" e_min e_max false ;;
               Return (Some em)
             else Return None) ;;
    (* _emissivity_field() *)
    let dd := [("log_nH"%string, lognH); ("log_T"%string, logT)] in
    v0 <- call em_0 dd ;;
    let my_emissivity := map pow10 v0 in
    my_emissivity <-
      match em_Z with
      | Some em_Z =>
          let my_Z := gas_metallicity_Zsun in
          vZ <- call em_Z dd ;;
          Return (zipWith (fadd fl) my_emissivity
                    (zipWith (fmul fl) my_Z (map pow10 vZ)))
      | None => Return my_emissivity
      end ;;
    let my_emissivity := map nan_to_zero my_emissivity in
    Return (Some {| values := zipWith (fmul fl) norm_field my_emissivity;
                    units := "erg*cm**3/s" |}).

(** The value of [f(dd)] at a cell with log-density [x] and
    log-temperature [t]. *)
Definition at_cell (f : FieldInterpolator) (x t : fval) : fval :=
  match f with
  | UnilinearFieldInterpolator table b _ tr => unilinear_at table b tr t
  | BilinearFieldInterpolator table b _ tr => bilinear_at table b tr x t
  end.

(** What [_emissivity_field] computes at one cell [c]. *)
Definition cell_emissivity (em_0 em_Z : FieldInterpolator)
  (temperature_model : string) (use_metallicity : bool)
  (c : string -> fval) : fval :=
  let lognH := c "lognH"%string in
  let logT := log10 (c temperature_model) in
  let norm := fmul fl (pow10 lognH) (pow10 lognH) in
  let e0 := pow10 (at_cell em_0 lognH logT) in
  let e := if use_metallicity
           then fadd fl e0 (fmul fl (c "gas_metallicity_host"%string)
                           (pow10 (at_cell em_Z lognH logT)))
           else e0 in
  fmul fl norm (nan_to_zero e).

End Script.

(** * numpy arrays as mutable objects

    The functions above pass arrays by value.  Python passes references:
    a basic slice such as [self.dE[e_is:e_ie]] is a view that shares the
    buffer of [self.dE], [.copy()] and arithmetic allocate a new buffer, and
    [my_dE[0] -= x] writes into the buffer of [my_dE].  This module runs
    [get_interpolator] on a store of buffers with that aliasing; the lemmas
    on it show that it computes the value of the functional
    [get_interpolator] and writes to fresh buffers only. *)
Module Store.

(* The functional versions, under names this module does not redefine. *)
Local Abbreviation value_getitem := getitem (only parsing).
Local Abbreviation value_digitize := digitize (only parsing).
Local Abbreviation Snapshot := Build_XrayEmissivityIntegrator (only parsing).

Inductive buffer : Type :=
| Floats (l : list Q)
| Cube (a : ndarray).

Definition store : Type := list buffer.

(** A one-dimensional array object: a window on a buffer. *)
Record array : Type := {
  buf : nat;
  off : nat;
  size : nat
}.

Definition floats (s : store) (p : nat) : list Q :=
  match nth_error s p with Some (Floats l) => l | _ => [] end.

Definition cube (s : store) (p : nat) : ndarray :=
  match nth_error s p with Some (Cube a) => a | _ => Arr2 [] end.

(** The elements an array object shows. *)
Definition elems (s : store) (a : array) : list Q :=
  firstn (size a) (skipn (off a) (floats s (buf a))).

(** Computations on the store; an exception leaves the store as it is. *)
Definition M (A : Type) : Type := store -> result A * store.

Definition ret {A : Type} (a : A) : M A := fun s => (Return a, s).

Definition raise {A : Type} (e : exn) : M A := fun s => (Raise e, s).

Definition bindM {A B : Type} (m : M A) (k : A -> M B) : M B :=
  fun s =>
    match m s with
    | (Return a, s') => k a s'
    | (Raise e, s') => (Raise e, s')
    end.

Notation "x <~ m ;; k" := (bindM m (fun x => k))
  (at level 61, m at next level, right associativity).

(** A pure operation on what the store shows. *)
Definition lift {A : Type} (f : store -> result A) : M A :=
  fun s => (f s, s).

Definition alloc (b : buffer) : M nat :=
  fun s => (Return (length s), s ++ [b]).

Fixpoint set_buffer (s : store) (p : nat) (b : buffer) : store :=
  match s, p with
  | [], _ => []
  | _ :: t, O => b :: t
  | c :: t, S p' => c :: set_buffer t p' b
  end.

(** [a[i:j]]: a view on the buffer of [a]. *)
Definition slice_view (a : array) (i j : Z) : array :=
  let n := Z.of_nat (size a) in
  let i' := slice_bound n i in
  let j' := slice_bound n j in
  {| buf := buf a; off := off a + Z.to_nat i'; size := Z.to_nat (j' - i') |}.

(** [a.copy()]: a new buffer with the elements [a] shows. *)
Definition copy (a : array) : M array :=
  fun s =>
    let l := elems s a in
    (Return {| buf := length s; off := 0; size := length l |},
     s ++ [Floats l]).

(** [a[i]] *)
Definition getitem (a : array) (i : Z) : M Q :=
  lift (fun s => value_getitem (elems s a) i).

(** [a[i] -= x]: written into the buffer of [a]. *)
Definition isub (a : array) (i : Z) (x : Q) : M unit :=
  fun s =>
    let n := Z.of_nat (size a) in
    let j := py_index n i in
    if ((0 <=? j) && (j <? n))%Z
    then
      let k := (off a + Z.to_nat j)%nat in
      let l := floats s (buf a) in
      (Return tt, set_buffer s (buf a) (Floats (set_nth l k (nth k l 0 - x))))
    else (Raise IndexError, s).

Definition digitize (x : Q) (bins : array) : M Z :=
  lift (fun s => value_digitize x (elems s bins)).

(** [data[..., :] / v]: a new dataset. *)
Definition true_divide (data : nat) (v : array) : M nat :=
  fun s =>
    match along_rows (fun row => broadcast Qdiv row (elems s v)) (cube s data)
    with
    | Return a => alloc (Cube a) s
    | Raise e => (Raise e, s)
    end.

(** [(data[..., i:j] * w).sum(axis=-1)]; the temporaries are not kept. *)
Definition weighted_sum (data : nat) (i j : Z) (w : array) : M surface :=
  lift (fun s =>
          prod <- along_rows
                    (fun row => broadcast Qmult (slice row i j) (elems s w))
                    (cube s data) ;;
          Return (sum_last prod)).

(** The integrator object: its attributes are references. *)
Record Integrator : Type := {
  log_T : array;
  emissivity_primordial : nat;
  log_nH : option array;
  emissivity_metals : option nat;
  ebin : array;
  dE : array;
  emid : array;
  redshift : Q
}.

Definition getattr_emissivity (self : Integrator) (data_type : string)
  : M nat :=
  if String.eqb data_type "primordial" then ret (emissivity_primordial self)
  else if String.eqb data_type "metals" then
    match emissivity_metals self with
    | Some a => ret a
    | None => raise AttributeError
    end
  else raise AttributeError.

(** Lines 100-103. *)
Definition load_data (self : Integrator) (data_type : string)
  (energy : bool) : M nat :=
  data <~ getattr_emissivity self data_type ;;
  if energy then ret data else true_divide data (emid self).

(** Lines 104-119. *)
Definition integrate_band (self : Integrator) (data : nat) (e_min e_max : Q)
  : M surface :=
  let e_min := e_min * (1 + redshift self) in
  let e_max := e_max * (1 + redshift self) in
  lower <~ getitem (ebin self) 0 ;;
  upper <~ getitem (ebin self) (-1) ;;
  if quot_lt (e_min - lower) e_min (-(1 # 1000))
     || quot_gt (e_max - upper) e_max (1 # 1000)
  then raise (EnergyBoundsException lower upper)
  else
    d_is <~ digitize e_min (ebin self) ;;
    d_ie <~ digitize e_max (ebin self) ;;
    let n := Z.of_nat (size (ebin self)) in
    let e_is := clip (d_is - 1) 0 (n - 1) in
    let e_ie := clip d_ie 0 (n - 1) in
    my_dE <~ copy (slice_view (dE self) e_is e_ie) ;;
    edge_s <~ getitem (ebin self) e_is ;;
    _ <~ isub my_dE 0 (e_min - edge_s) ;;
    edge_e <~ getitem (ebin self) e_ie ;;
    _ <~ isub my_dE (-1) (edge_e - e_max) ;;
    weighted_sum data e_is e_ie my_dE.

Section Run.

Variable log10q : Q -> fval.

(** Lines 120-135. *)
Definition make_interpolator (self : Integrator) (interp_data : surface)
  : M FieldInterpolator :=
  match interp_data with
  | Surf1 t =>                               (* data.ndim == 2 *)
      t0 <~ getitem (log_T self) 0 ;;
      t1 <~ getitem (log_T self) (-1) ;;
      ret (UnilinearFieldInterpolator (map log10q t) (t0, t1) "log_T" true)
  | Surf2 t =>
      match log_nH self with
      | None => raise AttributeError
      | Some nh =>
          n0 <~ getitem nh 0 ;;
          n1 <~ getitem nh (-1) ;;
          t0 <~ getitem (log_T self) 0 ;;
          t1 <~ getitem (log_T self) (-1) ;;
          ret (BilinearFieldInterpolator (map (map log10q) t)
                 (n0, n1, t0, t1) ("log_nH"%string, "log_T"%string) true)
      end
  end.

Definition get_interpolator (self : Integrator) (data_type : string)
  (e_min e_max : Q) (energy : bool) : M FieldInterpolator :=
  data <~ load_data self data_type energy ;;
  interp_data <~ integrate_band self data e_min e_max ;;
  make_interpolator self interp_data.

End Run.

(** What the attributes of [self] show in the store [s]. *)
Definition snapshot (s : store) (self : Integrator)
  : XrayEmissivityIntegrator :=
  Snapshot (elems s (log_T self))
    (cube s (emissivity_primordial self))
    (option_map (elems s) (log_nH self))
    (option_map (cube s) (emissivity_metals self))
    (elems s (ebin self))
    (elems s (dE self))
    (elems s (emid self))
    (redshift self).

(** An array object of the store: its buffer exists and holds its window. *)
Definition array_ok (s : store) (a : array) : Prop :=
  exists l, nth_error s (buf a) = Some (Floats l) /\
            (off a + size a <= length l)%nat.

Definition cube_ok (s : store) (p : nat) : Prop :=
  exists a, nth_error s p = Some (Cube a).

(** The attributes of [self] are objects of the store. *)
Record object_ok (s : store) (self : Integrator) : Prop := {
  obj_log_T : array_ok s (log_T self);
  obj_primordial : cube_ok s (emissivity_primordial self);
  obj_log_nH : forall a, log_nH self = Some a -> array_ok s a;
  obj_metals : forall p, emissivity_metals self = Some p -> cube_ok s p;
  obj_ebin : array_ok s (ebin self);
  obj_dE : array_ok s (dE self);
  obj_emid : array_ok s (emid self)
}.

End Store.

(** * Specification vocabulary *)

(** ** The exact band integral, and well-formed tables *)

(** Length of the part of the bin [a, b] that lies in the band [lo, hi]. *)
Definition overlap (a b lo hi : Q) : Q := Qmax 0 (Qmin b hi - Qmax a lo).

(** The integral over [lo, hi] of the piecewise-constant emissivity that
    takes the value [row[i]] on the bin [E[i], E[i+1]]. *)
Fixpoint band_integral (E row : list Q) (lo hi : Q) : Q :=
  match E, row with
  | a :: ((b :: _) as E'), v :: row' =>
      v * overlap a b lo hi + band_integral E' row' lo hi
  | _, _ => 0
  end.

(** Bin edges are strictly increasing. *)
Fixpoint increasing (l : list Q) : Prop :=
  match l with
  | a :: ((b :: _) as t) => a < b /\ increasing t
  | _ => True
  end.

(** Every energy row of a dataset has [N] bins. *)
Definition rect (N : nat) (a : ndarray) : Prop :=
  match a with
  | Arr2 rows => Forall (fun r => length r = N) rows
  | Arr3 planes => Forall (Forall (fun r => length r = N)) planes
  end.

(** [P row s] for every energy row of a dataset and the entry of a surface
    at the same grid node. *)
Definition rowwise (P : list Q -> Q -> Prop) (a : ndarray) (s : surface)
  : Prop :=
  match a, s with
  | Arr2 rows, Surf1 s => Forall2 P rows s
  | Arr3 planes, Surf2 s => Forall2 (Forall2 P) planes s
  | _, _ => False
  end.

(** [sum_{i < n} f i] *)
Fixpoint qsum (f : nat -> Q) (n : nat) : Q :=
  match n with
  | O => 0
  | S n' => f O + qsum (fun i => f (S i)) n'
  end.

(** The widths [my_dE] after lines 114-117, for the bins [i_s .. i_e - 1]. *)
Definition clipped_widths (E : list Q) (i_s i_e : nat) (lo hi : Q) : list Q :=
  let my0 := slice (diff E) (Z.of_nat i_s) (Z.of_nat i_e) in
  let my1 := set_nth my0 0 (nth 0 my0 0 - (lo - nth i_s E 0)) in
  set_nth my1 (length my1 - 1)
    (nth (length my1 - 1) my1 0 - (nth i_e E 0 - hi)).

(** The bracketing bin indices [e_is], [e_ie] of lines 110-112 for a
    rest-frame band inside the range of increasing edges. *)
Definition first_bin (E : list Q) (lo : Q) : nat := (count_le lo E - 1)%nat.
Definition end_bin (E : list Q) (hi : Q) : nat :=
  Nat.min (count_le hi E) (length E - 1).

(** Line 119 on one energy row: the tabulated values of the bracketed bins
    times the clipped widths, summed. *)
Definition clipped_sum (E : list Q) (lo hi : Q) (row : list Q) : Q :=
  let i_s := first_bin E lo in
  let i_e := end_bin E hi in
  sum (zipWith Qmult (slice row (Z.of_nat i_s) (Z.of_nat i_e))
         (clipped_widths E i_s i_e lo hi)).

(** [g] applied to every energy row of a dataset. *)
Definition map_rows (g : list Q -> list Q) (a : ndarray) : ndarray :=
  match a with
  | Arr2 rows => Arr2 (map g rows)
  | Arr3 planes => Arr3 (map (map g) planes)
  end.

(** The test of line 106 on a rest-frame band. *)
Definition out_of_bounds (lower upper lo hi : Q) : bool :=
  quot_lt (lo - lower) lo (-(1 # 1000)) || quot_gt (hi - upper) hi (1 # 1000).

(** The rest-frame band [lo, hi] leaves the range [lower, upper] by more
    than the relative tolerance 1e-3, taken relative to the requested
    energy. *)
Definition outside_tolerance (lower upper lo hi : Q) : Prop :=
  (1 # 1000) * lo < lower - lo \/ (1 # 1000) * hi < hi - upper.

(** The exception is an [EnergyBoundsException]. *)
Definition is_bounds_exn (e : exn) : bool :=
  match e with EnergyBoundsException _ _ => true | _ => false end.

(** The interpolator reads the fields [get_interpolator] names, in truncate
    mode. *)
Definition reads_grid (f : FieldInterpolator) : Prop :=
  match f with
  | UnilinearFieldInterpolator _ _ x tr => x = "log_T"%string /\ tr = true
  | BilinearFieldInterpolator _ _ (x, y) tr =>
      x = "log_nH"%string /\ y = "log_T"%string /\ tr = true
  end.

(** The invariants of a loaded table with [N] energy bins: [N + 1] strictly
    increasing, non-negative bin edges, the widths [__init__] derives from
    them, and datasets with [N] entries along the energy axis. *)
Record table_ok (self : XrayEmissivityIntegrator) (N : nat) : Prop := {
  ok_increasing : increasing (ebin self);
  ok_size : length (ebin self) = S N;
  ok_nonneg : 0 <= nth 0 (ebin self) 0;
  ok_dE : dE self = diff (ebin self);
  ok_primordial : rect N (emissivity_primordial self);
  ok_metals : forall a, emissivity_metals self = Some a -> rect N a
}.

(** The invariants of a table file with [N] energy bins. *)
Record file_ok (f : H5File) (N : nat) : Prop := {
  fok_increasing : increasing (h5_E f);
  fok_size : length (h5_E f) = S N;
  fok_nonneg : 0 <= nth 0 (h5_E f) 0;
  fok_primordial : rect N (h5_emissivity_primordial f);
  fok_metals : forall a, h5_emissivity_metals f = Some a -> rect N a;
  fok_log_T : h5_log_T f <> [];
  fok_log_nH : forall nh, h5_log_nH f = Some nh -> nh <> [];
  fok_grid_primordial :
    ndim (h5_emissivity_primordial f) = 3%nat -> h5_log_nH f <> None;
  fok_grid_metals :
    forall a, h5_emissivity_metals f = Some a -> ndim a = 3%nat ->
              h5_log_nH f <> None
}.

(** ** Datasets and surfaces entry by entry *)

(** Two surfaces of the same shape, with equal numbers at every node. *)
Definition surface_eq (s1 s2 : surface) : Prop :=
  match s1, s2 with
  | Surf1 a, Surf1 b => Forall2 Qeq a b
  | Surf2 a, Surf2 b => Forall2 (Forall2 Qeq) a b
  | _, _ => False
  end.

(** The sum of two surfaces of the same shape, node by node. *)
Definition surface_add (s1 s2 : surface) : surface :=
  match s1, s2 with
  | Surf1 a, Surf1 b => Surf1 (zipWith Qplus a b)
  | Surf2 a, Surf2 b => Surf2 (zipWith (zipWith Qplus) a b)
  | _, _ => Surf1 []
  end.

(** A surface has one entry per energy row of the dataset. *)
Definition same_grid (a : ndarray) (s : surface) : Prop :=
  rowwise (fun _ _ => True) a s.

(** The interpolator [get_interpolator] builds over the surface [s]:
    lines 120-133, with the grid boundaries read from the integrator. *)
Definition built_over (log10q : Q -> fval) (self : XrayEmissivityIntegrator)
  (s : surface) (f : FieldInterpolator) : Prop :=
  let T := log_T self in
  match s with
  | Surf1 s =>
      f = UnilinearFieldInterpolator (map log10q s)
            (nth 0 T 0, nth (length T - 1) T 0) "log_T" true
  | Surf2 s =>
      exists nh, log_nH self = Some nh /\
        f = BilinearFieldInterpolator (map (map log10q) s)
              (nth 0 nh 0, nth (length nh - 1) nh 0,
               nth 0 T 0, nth (length T - 1) T 0)
              ("log_nH"%string, "log_T"%string) true
  end.

(** The rounding of a zero is zero. *)
Definition rounds_zero (fl : Q -> fval) : Prop :=
  forall q, q == 0 -> fl q = Num 0.

(** ** What the round trip takes from the libraries *)

(** An axis the library can interpolate on: two or more nodes between
    distinct boundaries. *)
Definition regular_axis (b : Q * Q) (n : nat) : Prop :=
  fst b < snd b /\ (2 <= n)%nat.

(** [np.log10] then [np.power(10, .)] on a positive number gives the
    number back within the relative tolerance [tol]. *)
Definition log_round_trip (log10q pow10q : Q -> fval) (tol : Q) : Prop :=
  forall q, 0 < q ->
    exists l r, log10q q = Num l /\ pow10q l = Num r /\
                Qabs (r - q) <= tol * q.

(** A double that is a number. *)
Definition finite (v : fval) : Prop := exists q, v = Num q.

(** A one-dimensional interpolator in truncate mode over a table of
    numbers returns the table entry at each node of its axis; [grid b n i]
    is the coordinate of node [i] of an axis of [n] nodes between the
    boundaries [b].  (An interpolator weighs two neighbouring entries, so an
    infinity or a NaN in the table spoils the nodes next to it.) *)
Definition unilinear_nodes
  (unilinear_at : list fval -> Q * Q -> bool -> fval -> fval)
  (grid : Q * Q -> nat -> nat -> Q) : Prop :=
  forall table b i,
    Forall finite table ->
    regular_axis b (length table) -> (i < length table)%nat ->
    unilinear_at table b true (Num (grid b (length table) i))
    = nth i table NaN.

(** The same for a two-dimensional interpolator over a rectangular table
    of [m] columns. *)
Definition bilinear_nodes
  (bilinear_at :
     list (list fval) -> Q * Q * Q * Q -> bool -> fval -> fval -> fval)
  (grid : Q * Q -> nat -> nat -> Q) : Prop :=
  forall table x0 x1 y0 y1 m i j,
    Forall (fun r => length r = m) table ->
    Forall (Forall finite) table ->
    regular_axis (x0, x1) (length table) -> regular_axis (y0, y1) m ->
    (i < length table)%nat -> (j < m)%nat ->
    bilinear_at table (x0, x1, y0, y1) true
      (Num (grid (x0, x1) (length table) i)) (Num (grid (y0, y1) m j))
    = nth j (nth i table []) NaN.

(** For an interpolator [f] built over a surface [surf] of positive
    entries: at every node of the grid, [f] has the value [log10] of the
    surface entry, and 10 to the power of the value is the entry within
    [tol]. *)
Definition node_round_trip (log10q pow10q : Q -> fval)
  (unilinear_at : list fval -> Q * Q -> bool -> fval -> fval)
  (bilinear_at :
     list (list fval) -> Q * Q * Q * Q -> bool -> fval -> fval -> fval)
  (tol : Q) (grid : Q * Q -> nat -> nat -> Q)
  (self : XrayEmissivityIntegrator) (f : FieldInterpolator)
  (surf : surface) : Prop :=
  let T := log_T self in
  let bT := (nth 0 T 0, nth (length T - 1) T 0) in
  let ok := fun (v : fval) (x : Q) =>
    v = log10q x /\
    exists r, pow10 pow10q v = Num r /\ Qabs (r - x) <= tol * x in
  match surf with
  | Surf1 s =>
      regular_axis bT (length s) ->
      Forall (fun x => 0 < x) s ->
      forall i x, (i < length s)%nat ->
        ok (at_cell unilinear_at bilinear_at f x
              (Num (grid bT (length s) i)))
           (nth i s 0)
  | Surf2 s =>
      forall nh m,
        log_nH self = Some nh ->
        let bN := (nth 0 nh 0, nth (length nh - 1) nh 0) in
        Forall (fun r => length r = m) s ->
        Forall (Forall (fun x => 0 < x)) s ->
        regular_axis bN (length s) -> regular_axis bT m ->
        forall i j, (i < length s)%nat -> (j < m)%nat ->
          ok (at_cell unilinear_at bilinear_at f
                (Num (grid bN (length s) i)) (Num (grid bT m j)))
             (nth j (nth i s []) 0)
  end.

(** Two catalogs with the same fields whose cells agree on every field
    but [name]. *)
Definition agree_except (name : string) (d1 d2 : Catalog) : Prop :=
  names d1 = names d2 /\
  Forall2 (fun c1 c2 => forall n, n <> name -> c1 n = c2 n)
    (cells d1) (cells d2).

(** * Example tables *)

(** [logT = [6,7,8]], [E = [0.1,1,10]] keV, emissivity [1e-23] in every
    bin, redshift 0; the midpoints are taken with 1.602176634e-9 erg per
    keV (the unit library's own factor is a parameter of the model). *)
Definition example_table : XrayEmissivityIntegrator :=
  {| log_T := [6; 7; 8];
     emissivity_primordial :=
       Arr2 [[1e-23; 1e-23]; [1e-23; 1e-23]; [1e-23; 1e-23]];
     log_nH := None;
     emissivity_metals := None;
     ebin := [0.1; 1; 10];
     dE := diff [0.1; 1; 10];
     emid := midpoints 1.602176634e-9 [0.1; 1; 10];
     redshift := 0 |}.

(** A table with the single bin [1, 3] keV and two temperature nodes. *)
Definition single_bin_table : XrayEmissivityIntegrator :=
  {| log_T := [6; 7];
     emissivity_primordial := Arr2 [[2]; [4]];
     log_nH := None;
     emissivity_metals := None;
     ebin := [1; 3];
     dE := diff [1; 3];
     emid := midpoints 1.602176634e-9 [1; 3];
     redshift := 0 |}.

(** A table over density and temperature: [log_nH = [-2, 0]],
    [log_T = [6, 7, 8]], [E = [0.1, 1, 10]] keV. *)
Definition example_file : H5File :=
  {| h5_log_T := [6; 7; 8];
     h5_emissivity_primordial :=
       Arr3 [[[1e-23; 2e-23]; [1e-23; 2e-23]; [1e-23; 2e-23]];
             [[3e-23; 4e-23]; [3e-23; 4e-23]; [3e-23; 4e-23]]];
     h5_log_nH := Some [-2; 0];
     h5_emissivity_metals :=
       Some (Arr3 [[[1e-24; 2e-24]; [1e-24; 2e-24]; [1e-24; 2e-24]];
                   [[3e-24; 4e-24]; [3e-24; 4e-24]; [3e-24; 4e-24]]]);
     h5_E := [0.1; 1; 10] |}.

Definition example_paths : list string :=
  ["./cloudy_emissivity_v2.h5"%string; "./apec_emissivity_v3.h5"%string].

Definition example_env : Env :=
  {| supp_data_dir := "/nonexistent";
     path_exists := fun p => existsb (String.eqb p) example_paths;
     h5_open := fun p => if existsb (String.eqb p) example_paths
                         then Some example_file else None |}.

(** Two cells with finite values. *)
Definition example_catalog : Catalog :=
  {| names := ["lognH"%string; "Tvir"%string; "T_DF"%string;
               "gas_metallicity_host"%string];
     cells :=
       [(fun name => if String.eqb name "lognH" then Num (-1)
                     else if String.eqb name "gas_metallicity_host"
                          then Num 0.3 else Num 1e7);
        (fun name => if String.eqb name "lognH" then Num (-2)
                     else if String.eqb name "gas_metallicity_host"
                          then Num 0.1 else Num 1e6)] |}.

(** One cell whose density is NaN. *)
Definition nan_catalog : Catalog :=
  {| names := ["lognH"%string; "Tvir"%string;
               "gas_metallicity_host"%string];
     cells :=
       [(fun name => if String.eqb name "lognH" then NaN
                     else if String.eqb name "gas_metallicity_host"
                          then Num 0.3 else Num 1e7)] |}.

(** A table whose edge array has the single entry 1 keV, so no bin. *)
Definition edge_only_table : XrayEmissivityIntegrator :=
  {| log_T := [6; 7];
     emissivity_primordial := Arr2 [[]; []];
     log_nH := None;
     emissivity_metals := None;
     ebin := [1];
     dE := diff [1];
     emid := midpoints 1.602176634e-9 [1];
     redshift := 0 |}.

(** A table file without the dataset [emissivity_metals], and a machine
    that has it at the path of the Cloudy table. *)
Definition no_metals_file : H5File :=
  {| h5_log_T := [6; 7; 8];
     h5_emissivity_primordial :=
       Arr2 [[1e-23; 1e-23]; [1e-23; 1e-23]; [1e-23; 1e-23]];
     h5_log_nH := None;
     h5_emissivity_metals := None;
     h5_E := [0.1; 1; 10] |}.

Definition no_metals_env : Env :=
  {| supp_data_dir := "/nonexistent";
     path_exists := fun p => String.eqb p "./cloudy_emissivity_v2.h5";
     h5_open := fun p => if String.eqb p "./cloudy_emissivity_v2.h5"
                         then Some no_metals_file else None |}.

(** The cells of [example_catalog] with other metallicities. *)
Definition metal_rich_catalog : Catalog :=
  {| names := ["lognH"%string; "Tvir"%string; "T_DF"%string;
               "gas_metallicity_host"%string];
     cells :=
       [(fun name => if String.eqb name "lognH" then Num (-1)
                     else if String.eqb name "gas_metallicity_host"
                          then Num 2 else Num 1e7);
        (fun name => if String.eqb name "lognH" then Num (-2)
                     else if String.eqb name "gas_metallicity_host"
                          then NaN else Num 1e6)] |}.

(** A catalog without the field [gas_metallicity_host]. *)
Definition no_metallicity_catalog : Catalog :=
  {| names := ["lognH"%string; "Tvir"%string];
     cells :=
       [(fun name => if String.eqb name "lognH" then Num (-1)
                     else Num 1e7)] |}.

(** A table over density and temperature whose file had no [log_nH], so
    that the attribute was never set. *)
Definition no_grid_table : XrayEmissivityIntegrator :=
  {| log_T := [6; 7];
     emissivity_primordial := Arr3 [[[1e-23; 2e-23]; [1e-23; 2e-23]]];
     log_nH := None;
     emissivity_metals := None;
     ebin := [0.1; 1; 10];
     dE := diff [0.1; 1; 10];
     emid := midpoints 1.602176634e-9 [0.1; 1; 10];
     redshift := 0 |}.

(** Stand-ins for the libraries on which the round trip can be run: node
    [i] of an axis sits at the coordinate [i], a point takes the table entry
    at its floor, and the logarithm and the power are the identity. *)
Definition index_grid (b : Q * Q) (n i : nat) : Q :=
  inject_Z (Z.of_nat i).

Definition floor_lookup1 (table : list fval) (b : Q * Q) (truncate : bool)
  (x : fval) : fval :=
  match x with
  | Num q => nth (Z.to_nat (Qfloor q)) table NaN
  | _ => NaN
  end.

Definition floor_lookup2 (table : list (list fval)) (b : Q * Q * Q * Q)
  (truncate : bool) (x y : fval) : fval :=
  match x, y with
  | Num p, Num q =>
      nth (Z.to_nat (Qfloor q)) (nth (Z.to_nat (Qfloor p)) table []) NaN
  | _, _ => NaN
  end.

(** A rounding that is exact inside the range of doubles and overflows to
    an infinity outside it, and a power of ten on whole exponents. *)
Definition double_max : Q := 1.7976931348623157e308.

Definition fl_range (q : Q) : fval :=
  if Qle_bool (Qabs q) double_max then Num q else Inf (Qltb q 0).

Definition pow10_floor (q : Q) : fval := Num (10 ^ Qfloor q).

(** Two cells without a temperature: one whose squared density
    [(10^200)^2] overflows, one whose squared density [(10^100)^2] does
    not. *)
Definition overflow_catalog : Catalog :=
  {| names := ["lognH"%string; "Tvir"%string;
               "gas_metallicity_host"%string];
     cells :=
       [(fun name => if String.eqb name "lognH" then Num 200
                     else if String.eqb name "gas_metallicity_host"
                          then Num 0.3 else NaN);
        (fun name => if String.eqb name "lognH" then Num 100
                     else if String.eqb name "gas_metallicity_host"
                          then Num 0.3 else NaN)] |}.

(** The synthetic table as objects of a store. *)
Definition example_store : Store.store :=
  [Store.Floats [6; 7; 8];
   Store.Cube (Arr2 [[1e-23; 1e-23]; [1e-23; 1e-23]; [1e-23; 1e-23]]);
   Store.Floats [0.1; 1; 10];
   Store.Floats (diff [0.1; 1; 10]);
   Store.Floats (midpoints 1.602176634e-9 [0.1; 1; 10])].

Definition example_object : Store.Integrator :=
  {| Store.log_T := {| Store.buf := 0; Store.off := 0; Store.size := 3 |};
     Store.emissivity_primordial := 1;
     Store.log_nH := None;
     Store.emissivity_metals := None;
     Store.ebin := {| Store.buf := 2; Store.off := 0; Store.size := 3 |};
     Store.dE := {| Store.buf := 3; Store.off := 0; Store.size := 2 |};
     Store.emid := {| Store.buf := 4; Store.off := 0; Store.size := 2 |};
     Store.redshift := 0 |}.

(** * Lemmas and theorems *)

(** ** Sums *)

Lemma qsum_ext (f g : nat -> Q) (n : nat) :
  (forall i, (i < n)%nat -> f i == g i) -> qsum f n == qsum g n.
Proof.
  revert f g; induction n as [|n IH]; intros f g H; simpl.
  - reflexivity.
  - rewrite (H O) by lia.
    rewrite (IH (fun i => f (S i)) (fun i => g (S i))).
    + reflexivity.
    + intros i Hi; apply H; lia.
Qed.

Lemma qsum_zero (f : nat -> Q) (n : nat) :
  (forall i, (i < n)%nat -> f i == 0) -> qsum f n == 0.
Proof.
  revert f; induction n as [|n IH]; intros f H; simpl.
  - reflexivity.
  - rewrite (H O) by lia.
    rewrite IH by (intros i Hi; apply H; lia).
    lra.
Qed.

Lemma qsum_split (f : nat -> Q) (a b : nat) :
  qsum f (a + b) == qsum f a + qsum (fun j => f (a + j)%nat) b.
Proof.
  revert f; induction a as [|a IH]; intros f; simpl.
  - rewrite Qplus_0_l. apply qsum_ext. intros; reflexivity.
  - rewrite IH. rewrite Qplus_assoc. reflexivity.
Qed.

Lemma sum_nth (l : list Q) :
  sum l == qsum (fun i => nth i l 0) (length l).
Proof.
  induction l as [|a l IH]; simpl.
  - reflexivity.
  - fold (sum l). rewrite IH. reflexivity.
Qed.

Lemma zipWith_length {A B C : Type} (f : A -> B -> C) (l1 : list A)
  (l2 : list B) :
  length l1 = length l2 -> length (zipWith f l1 l2) = length l1.
Proof.
  revert l2; induction l1 as [|a l1 IH]; intros [|b l2] H; simpl in *;
    try discriminate; auto.
Qed.

Lemma zipWith_nth (f : Q -> Q -> Q) (l1 l2 : list Q) (i : nat) :
  length l1 = length l2 -> (i < length l1)%nat ->
  nth i (zipWith f l1 l2) 0 = f (nth i l1 0) (nth i l2 0).
Proof.
  revert l2 i; induction l1 as [|a l1 IH]; intros [|b l2] i H Hi;
    simpl in *; try discriminate; try lia.
  destruct i; [reflexivity|]. apply IH; lia.
Qed.

Lemma band_integral_nth (E row : list Q) (lo hi : Q) (N : nat) :
  length E = S N -> length row = N ->
  band_integral E row lo hi ==
  qsum (fun i => nth i row 0 * overlap (nth i E 0) (nth (S i) E 0) lo hi) N.
Proof.
  revert row N; induction E as [|a E IH]; intros row N HE Hrow.
  - discriminate.
  - destruct E as [|b E].
    + destruct N as [|N]; [|discriminate]. reflexivity.
    + destruct N as [|N]; [discriminate|].
      destruct row as [|v row]; [discriminate|].
      change (band_integral (a :: b :: E) (v :: row) lo hi)
          with (v * overlap a b lo hi + band_integral (b :: E) row lo hi).
        rewrite (IH row N) by (simpl in *; lia).
        simpl. reflexivity.
Qed.

(** ** Lists, indices and slices *)

Lemma diff_length (E : list Q) : length (diff E) = (length E - 1)%nat.
Proof.
  induction E as [|a E IH]; [reflexivity|].
  destruct E as [|b E]; [reflexivity|].
  change (diff (a :: b :: E)) with ((b - a) :: diff (b :: E)).
  simpl length in *. lia.
Qed.

Lemma diff_nth (E : list Q) (i : nat) :
  (S i < length E)%nat -> nth i (diff E) 0 = nth (S i) E 0 - nth i E 0.
Proof.
  revert i; induction E as [|a E IH]; intros i Hi; [simpl in Hi; lia|].
  destruct E as [|b E]; [simpl in Hi; lia|].
  change (diff (a :: b :: E)) with ((b - a) :: diff (b :: E)).
  destruct i as [|i]; [reflexivity|].
  change (nth i (diff (b :: E)) 0 = nth (S i) (b :: E) 0 - nth i (b :: E) 0).
  apply IH. simpl in *. lia.
Qed.

Lemma slice_nat {A : Type} (l : list A) (a b : nat) :
  (a <= b <= length l)%nat ->
  slice l (Z.of_nat a) (Z.of_nat b) = firstn (b - a) (skipn a l).
Proof.
  intros H. unfold slice, slice_bound.
  destruct (Z.ltb_spec (Z.of_nat a) 0); [lia|].
  destruct (Z.ltb_spec (Z.of_nat b) 0); [lia|].
  rewrite !Z.min_l by lia.
  rewrite Nat2Z.id. f_equal. lia.
Qed.

Lemma slice_length {A : Type} (l : list A) (a b : nat) :
  (a <= b <= length l)%nat ->
  length (slice l (Z.of_nat a) (Z.of_nat b)) = (b - a)%nat.
Proof.
  intros H. rewrite slice_nat by exact H.
  rewrite length_firstn, length_skipn. lia.
Qed.

Lemma nth_firstn_skipn (l : list Q) (a m j : nat) :
  (j < m)%nat -> nth j (firstn m (skipn a l)) 0 = nth (a + j) l 0.
Proof.
  intros Hj.
  rewrite nth_firstn.
  destruct (Nat.ltb_spec j m); [|lia].
  apply nth_skipn.
Qed.

Lemma slice_nth (l : list Q) (a b j : nat) :
  (a <= b <= length l)%nat -> (j < b - a)%nat ->
  nth j (slice l (Z.of_nat a) (Z.of_nat b)) 0 = nth (a + j) l 0.
Proof.
  intros H Hj. rewrite slice_nat by exact H.
  apply nth_firstn_skipn; exact Hj.
Qed.

Lemma set_nth_length (l : list Q) (k : nat) (x : Q) :
  length (set_nth l k x) = length l.
Proof.
  revert k; induction l as [|a l IH]; intros [|k]; simpl; auto.
Qed.

Lemma set_nth_nth (l : list Q) (k j : nat) (x : Q) :
  (k < length l)%nat ->
  nth j (set_nth l k x) 0 = if (j =? k)%nat then x else nth j l 0.
Proof.
  revert k j; induction l as [|a l IH]; intros k j Hk; [simpl in Hk; lia|].
  destruct k as [|k], j as [|j]; simpl; try reflexivity.
  apply IH. simpl in Hk. lia.
Qed.

Lemma getitem_nat (l : list Q) (i : nat) :
  (i < length l)%nat -> getitem l (Z.of_nat i) = Return (nth i l 0).
Proof.
  intros H. unfold getitem, py_index.
  destruct (Z.ltb_spec (Z.of_nat i) 0); [lia|].
  destruct (Z.leb_spec 0 (Z.of_nat i)); [|lia].
  destruct (Z.ltb_spec (Z.of_nat i) (Z.of_nat (length l))); [|lia].
  simpl. rewrite Nat2Z.id. reflexivity.
Qed.

Lemma getitem_first (l : list Q) :
  (0 < length l)%nat -> getitem l 0 = Return (nth 0 l 0).
Proof. intros H. exact (getitem_nat l 0 H). Qed.

Lemma getitem_last (l : list Q) :
  (0 < length l)%nat -> getitem l (-1) = Return (nth (length l - 1) l 0).
Proof.
  intros H. unfold getitem, py_index.
  change (-1 <? 0)%Z with true. cbv iota.
  destruct (Z.leb_spec 0 (-1 + Z.of_nat (length l))); [|lia].
  destruct (Z.ltb_spec (-1 + Z.of_nat (length l)) (Z.of_nat (length l)));
    [|lia].
  cbn [andb]. do 2 f_equal. lia.
Qed.

Lemma isub_first (l : list Q) (x : Q) :
  (0 < length l)%nat -> isub l 0 x = Return (set_nth l 0 (nth 0 l 0 - x)).
Proof.
  intros H. unfold isub, py_index.
  change (0 <? 0)%Z with false. cbv iota.
  change (0 <=? 0)%Z with true.
  destruct (Z.ltb_spec 0 (Z.of_nat (length l))); [|lia].
  reflexivity.
Qed.

Lemma isub_last (l : list Q) (x : Q) :
  (0 < length l)%nat ->
  isub l (-1) x
  = Return (set_nth l (length l - 1) (nth (length l - 1) l 0 - x)).
Proof.
  intros H. unfold isub, py_index.
  change (-1 <? 0)%Z with true. cbv iota.
  destruct (Z.leb_spec 0 (-1 + Z.of_nat (length l))); [|lia].
  destruct (Z.ltb_spec (-1 + Z.of_nat (length l)) (Z.of_nat (length l)));
    [|lia].
  cbn [andb]. replace (Z.to_nat (-1 + Z.of_nat (length l))) with (length l - 1)%nat
    by lia.
  reflexivity.
Qed.

Lemma isub_empty (i : Z) (x : Q) : isub [] i x = Raise IndexError.
Proof.
  unfold isub, py_index. simpl.
  destruct (Z.ltb_spec i 0).
  - destruct (Z.leb_spec 0 (i + 0)); [lia|reflexivity].
  - destruct (Z.ltb_spec i 0); [lia|]. rewrite andb_false_r. reflexivity.
Qed.

Lemma broadcast_same (op : Q -> Q -> Q) (a b : list Q) :
  length a = length b -> broadcast op a b = Return (zipWith op a b).
Proof.
  intros H. unfold broadcast. rewrite H, Nat.eqb_refl. reflexivity.
Qed.

(** ** Increasing bin edges and [digitize] *)

Lemma Qltb_lt (a b : Q) : Qltb a b = true <-> a < b.
Proof.
  unfold Qltb. rewrite negb_true_iff. split; intros H.
  - destruct (Qlt_le_dec a b) as [Hlt|Hle]; [exact Hlt|].
    apply Qle_bool_iff in Hle. congruence.
  - destruct (Qle_bool b a) eqn:Hb; [|reflexivity].
    apply Qle_bool_iff in Hb. lra.
Qed.

Lemma Qltb_ge (a b : Q) : Qltb a b = false <-> b <= a.
Proof.
  unfold Qltb. rewrite negb_false_iff. apply Qle_bool_iff.
Qed.

Lemma Qle_bool_gt (a b : Q) : Qle_bool a b = false <-> b < a.
Proof.
  split; intros H.
  - destruct (Qlt_le_dec b a) as [Hlt|Hle]; [exact Hlt|].
    apply Qle_bool_iff in Hle. congruence.
  - destruct (Qle_bool a b) eqn:Hb; [|reflexivity].
    apply Qle_bool_iff in Hb. lra.
Qed.

Lemma increasing_tail (a : Q) (E : list Q) :
  increasing (a :: E) -> increasing E.
Proof.
  destruct E as [|b E]; [intros; exact I|]. intros [_ H]. exact H.
Qed.

Lemma increasing_nth (E : list Q) (i j : nat) :
  increasing E -> (i < j < length E)%nat -> nth i E 0 < nth j E 0.
Proof.
  revert i j; induction E as [|a E IH]; intros i j Hinc Hij;
    [simpl in Hij; lia|].
  assert (Hstep : forall k, (k < length E)%nat -> a < nth k E 0).
  { clear i j Hij. intros k. revert a Hinc IH.
    induction k as [|k IHk]; intros a Hinc IH Hk.
    - destruct E as [|b E]; [simpl in Hk; lia|]. destruct Hinc as [H _].
      exact H.
    - destruct E as [|b E]; [simpl in Hk; lia|].
      destruct Hinc as [Hab Hinc].
      apply Qlt_trans with b; [exact Hab|].
      apply (IH O (S k) Hinc). simpl in *. lia. }
  destruct j as [|j]; [lia|]. destruct i as [|i].
  - simpl. apply Hstep. simpl in Hij. lia.
  - simpl. apply IH; [apply (increasing_tail a E Hinc)|simpl in Hij; lia].
Qed.

Lemma increasing_nth_le (E : list Q) (i j : nat) :
  increasing E -> (i <= j < length E)%nat -> nth i E 0 <= nth j E 0.
Proof.
  intros Hinc Hij. destruct (Nat.eq_dec i j) as [->|Hne].
  - apply Qle_refl.
  - apply Qlt_le_weak. apply increasing_nth; [exact Hinc|lia].
Qed.

Lemma increasing_nondecreasing (E : list Q) :
  increasing E -> nondecreasing E = true.
Proof.
  induction E as [|a E IH]; [reflexivity|].
  destruct E as [|b E]; [reflexivity|]. intros [Hab Hinc].
  change (Qle_bool a b && nondecreasing (b :: E) = true).
  rewrite (IH Hinc), andb_true_r. apply Qle_bool_iff. lra.
Qed.

Lemma digitize_increasing (x : Q) (E : list Q) :
  increasing E -> digitize x E = Return (Z.of_nat (count_le x E)).
Proof.
  intros H. unfold digitize. rewrite (increasing_nondecreasing E H).
  reflexivity.
Qed.

Lemma count_le_bound (x : Q) (E : list Q) : (count_le x E <= length E)%nat.
Proof. apply filter_length_le. Qed.

(** On increasing edges, [count_le x E] is the first index whose edge is
    above [x]. *)
Lemma count_le_spec (x : Q) (E : list Q) :
  increasing E ->
  (forall i, (i < count_le x E)%nat -> nth i E 0 <= x) /\
  (forall i, (count_le x E <= i < length E)%nat -> x < nth i E 0).
Proof.
  induction E as [|a E IH]; intros Hinc.
  - split; intros i Hi; cbv in Hi; lia.
  - destruct (IH (increasing_tail a E Hinc)) as [IH1 IH2].
    unfold count_le in *. simpl filter.
    destruct (Qle_bool a x) eqn:Hax.
    + apply Qle_bool_iff in Hax. simpl length. split; intros [|i] Hi.
      * exact Hax.
      * simpl. apply IH1. lia.
      * lia.
      * simpl. apply IH2. lia.
    + apply Qle_bool_gt in Hax.
      assert (Hz : length (filter (fun b => Qle_bool b x) E) = O).
      { destruct (length (filter (fun b => Qle_bool b x) E)) eqn:Hc;
          [reflexivity|exfalso].
        assert (H0 : nth 0 E 0 <= x) by (apply IH1; lia).
        destruct E as [|b E]; [discriminate Hc|].
        destruct Hinc as [Hab _]. simpl in H0. lra. }
      rewrite Hz in *. split; intros [|i] Hi; try lia.
      * simpl. exact Hax.
      * simpl. apply IH2. simpl in Hi. lia.
Qed.

(** ** The clipped widths are the overlaps *)

Lemma overlap_val (a b lo hi u v : Q) :
  Qmax a lo == u -> Qmin b hi == v -> u <= v -> overlap a b lo hi == v - u.
Proof.
  intros Hu Hv Huv. unfold overlap.
  rewrite Q.max_r; rewrite Hu, Hv; lra.
Qed.

Lemma overlap_below (a b lo hi : Q) : b <= lo -> overlap a b lo hi == 0.
Proof.
  intros H. unfold overlap. apply Q.max_l.
  pose proof (Q.le_min_l b hi). pose proof (Q.le_max_r a lo). lra.
Qed.

Lemma overlap_above (a b lo hi : Q) : hi <= a -> overlap a b lo hi == 0.
Proof.
  intros H. unfold overlap. apply Q.max_l.
  pose proof (Q.le_min_r b hi). pose proof (Q.le_max_l a lo). lra.
Qed.

Lemma clipped_widths_length (E : list Q) (N i_s i_e : nat) (lo hi : Q) :
  length E = S N -> (i_s <= i_e <= N)%nat ->
  length (clipped_widths E i_s i_e lo hi) = (i_e - i_s)%nat.
Proof.
  intros HE H. unfold clipped_widths.
  rewrite !set_nth_length. apply slice_length.
  rewrite diff_length. lia.
Qed.

Lemma clipped_widths_nth (E : list Q) (N i_s i_e j : nat) (lo hi : Q) :
  length E = S N -> (i_s < i_e <= N)%nat -> (j < i_e - i_s)%nat ->
  nth j (clipped_widths E i_s i_e lo hi) 0 ==
  (nth (S (i_s + j)) E 0 - nth (i_s + j) E 0)
  - (if (j =? 0)%nat then lo - nth i_s E 0 else 0)
  - (if (j =? i_e - i_s - 1)%nat then nth i_e E 0 - hi else 0).
Proof.
  intros HE H Hj. unfold clipped_widths.
  set (my0 := slice (diff E) (Z.of_nat i_s) (Z.of_nat i_e)).
  assert (Hlen0 : length my0 = (i_e - i_s)%nat).
  { apply slice_length. rewrite diff_length. lia. }
  assert (Hnth0 : forall k, (k < i_e - i_s)%nat ->
            nth k my0 0 = nth (S (i_s + k)) E 0 - nth (i_s + k) E 0).
  { intros k Hk. unfold my0. rewrite slice_nth by (rewrite ?diff_length; lia).
    apply diff_nth. lia. }
  set (my1 := set_nth my0 0 (nth 0 my0 0 - (lo - nth i_s E 0))).
  assert (Hlen1 : length my1 = (i_e - i_s)%nat).
  { unfold my1. rewrite set_nth_length. exact Hlen0. }
  assert (Hnth1 : forall k, (k < i_e - i_s)%nat ->
            nth k my1 0 ==
            (nth (S (i_s + k)) E 0 - nth (i_s + k) E 0)
            - (if (k =? 0)%nat then lo - nth i_s E 0 else 0)).
  { intros k Hk. unfold my1. rewrite set_nth_nth by lia.
    destruct (Nat.eqb_spec k 0) as [->|Hk0].
    - rewrite Hnth0 by lia. rewrite Nat.add_0_r. reflexivity.
    - rewrite Hnth0 by lia. lra. }
  rewrite set_nth_nth by lia. rewrite Hlen1.
  destruct (Nat.eqb_spec j (i_e - i_s - 1)) as [->|Hjl].
  - rewrite Hnth1 by lia. reflexivity.
  - rewrite Hnth1 by lia. lra.
Qed.

(** The source's sum over the bracketed bins is the exact band integral. *)
Lemma clipped_row_exact (E row : list Q) (N i_s i_e : nat) (lo hi : Q) :
  increasing E -> length E = S N -> length row = N ->
  (i_s < i_e <= N)%nat ->
  nth i_s E 0 <= lo -> lo < nth (S i_s) E 0 ->
  nth (i_e - 1) E 0 <= hi -> hi <= nth i_e E 0 ->
  lo <= hi ->
  sum (zipWith Qmult (slice row (Z.of_nat i_s) (Z.of_nat i_e))
         (clipped_widths E i_s i_e lo hi))
  == band_integral E row lo hi.
Proof.
  intros Hinc HE Hrow Hi Hs1 Hs2 He1 He2 Hlh.
  assert (Hlw := clipped_widths_length E N i_s i_e lo hi HE ltac:(lia)).
  assert (Hls : length (slice row (Z.of_nat i_s) (Z.of_nat i_e))
                = (i_e - i_s)%nat) by (apply slice_length; lia).
  rewrite sum_nth, zipWith_length, Hls by congruence.
  rewrite (band_integral_nth E row lo hi N HE Hrow).
  replace N with (i_s + ((i_e - i_s) + (N - i_e)))%nat at 1 by lia.
  rewrite !qsum_split.
  rewrite (qsum_zero _ i_s), (qsum_zero _ (N - i_e)).
  - rewrite Qplus_0_l, Qplus_0_r. apply qsum_ext. intros j Hj.
    rewrite zipWith_nth by lia.
    rewrite slice_nth by lia.
    rewrite (clipped_widths_nth E N) by lia.
    apply Qmult_comp; [reflexivity|]. symmetry.
    assert (Ha : nth i_s E 0 <= nth (i_s + j) E 0)
      by (apply increasing_nth_le; [exact Hinc|lia]).
    assert (Hb : nth (S (i_s + j)) E 0 <= nth i_e E 0)
      by (apply increasing_nth_le; [exact Hinc|lia]).
    assert (Hab : nth (i_s + j) E 0 < nth (S (i_s + j)) E 0)
      by (apply increasing_nth; [exact Hinc|lia]).
    destruct (Nat.eqb_spec j 0) as [Hj0|Hj0];
      destruct (Nat.eqb_spec j (i_e - i_s - 1)) as [Hjl|Hjl].
    + subst j. rewrite Nat.add_0_r in *.
      replace (S i_s) with i_e in * by lia.
      rewrite (overlap_val _ _ _ _ lo hi);
        [lra|apply Q.max_r; lra|apply Q.min_r; lra|lra].
    + subst j. rewrite Nat.add_0_r in *.
      assert (nth (S i_s) E 0 <= nth (i_e - 1) E 0)
        by (apply increasing_nth_le; [exact Hinc|lia]).
      rewrite (overlap_val _ _ _ _ lo (nth (S i_s) E 0));
        [lra|apply Q.max_r; lra|apply Q.min_l; lra|lra].
    + assert (nth (S i_s) E 0 <= nth (i_s + j) E 0)
        by (apply increasing_nth_le; [exact Hinc|lia]).
      replace (S (i_s + j)) with i_e in * by lia.
      rewrite (overlap_val _ _ _ _ (nth (i_s + j) E 0) hi);
        [lra|apply Q.max_l; lra|apply Q.min_r; lra|].
      replace (i_s + j)%nat with (i_e - 1)%nat by lia. exact He1.
    + assert (nth (S i_s) E 0 <= nth (i_s + j) E 0)
        by (apply increasing_nth_le; [exact Hinc|lia]).
      assert (nth (S (i_s + j)) E 0 <= nth (i_e - 1) E 0)
        by (apply increasing_nth_le; [exact Hinc|lia]).
      rewrite (overlap_val _ _ _ _ (nth (i_s + j) E 0)
                 (nth (S (i_s + j)) E 0));
        [lra|apply Q.max_l; lra|apply Q.min_l; lra|lra].
  - intros k Hk.
    assert (hi <= nth (i_s + (i_e - i_s + k)) E 0).
    { apply Qle_trans with (nth i_e E 0); [exact He2|].
      apply increasing_nth_le; [exact Hinc|lia]. }
    rewrite overlap_above by assumption. lra.
  - intros k Hk.
    assert (nth (S k) E 0 <= lo).
    { apply Qle_trans with (nth i_s E 0); [|exact Hs1].
      apply increasing_nth_le; [exact Hinc|lia]. }
    rewrite overlap_below by assumption. lra.
Qed.

(** ** The bracketing indices *)

Lemma bracket (E : list Q) (N : nat) (lo hi : Q) :
  increasing E -> length E = S N ->
  nth 0 E 0 <= lo -> lo < nth N E 0 -> lo <= hi -> hi <= nth N E 0 ->
  let i_s := (count_le lo E - 1)%nat in
  let i_e := Nat.min (count_le hi E) N in
  clip (Z.of_nat (count_le lo E) - 1) 0 (Z.of_nat (length E) - 1)
    = Z.of_nat i_s /\
  clip (Z.of_nat (count_le hi E)) 0 (Z.of_nat (length E) - 1)
    = Z.of_nat i_e /\
  (i_s < i_e <= N)%nat /\
  nth i_s E 0 <= lo /\ lo < nth (S i_s) E 0 /\
  nth (i_e - 1) E 0 <= hi /\ hi <= nth i_e E 0.
Proof.
  intros Hinc HE H0 HN Hlh HhN i_s i_e.
  destruct (count_le_spec lo E Hinc) as [Llo Ulo].
  destruct (count_le_spec hi E Hinc) as [Lhi Uhi].
  pose proof (count_le_bound lo E) as Blo.
  pose proof (count_le_bound hi E) as Bhi.
  assert (D1 : (1 <= count_le lo E)%nat).
  { destruct (count_le lo E) eqn:Hc; [exfalso|lia].
    specialize (Ulo O ltac:(lia)). lra. }
  assert (D2 : (count_le lo E <= N)%nat).
  { destruct (le_lt_dec (count_le lo E) N) as [H|H]; [exact H|exfalso].
    specialize (Llo N H). lra. }
  assert (D3 : (count_le lo E <= count_le hi E)%nat).
  { destruct (le_lt_dec (count_le lo E) (count_le hi E)) as [H|H];
      [exact H|exfalso].
    specialize (Uhi (count_le hi E) ltac:(lia)).
    specialize (Llo (count_le hi E) H). lra. }
  unfold clip. subst i_s i_e. rewrite HE.
  repeat split; try lia.
  - apply Llo. lia.
  - replace (S (count_le lo E - 1)) with (count_le lo E) by lia.
    apply Ulo. lia.
  - apply Lhi. lia.
  - destruct (le_lt_dec (count_le hi E) N) as [H|H].
    + rewrite Nat.min_l by exact H. apply Qlt_le_weak, Uhi. lia.
    + rewrite Nat.min_r by lia. exact HhN.
Qed.

(** ** Whole datasets *)

Lemma mapM_Forall {A B : Type} (f : A -> result B) (g : A -> B)
  (P : A -> Prop) (l : list A) :
  (forall a, P a -> f a = Return (g a)) -> Forall P l ->
  mapM f l = Return (map g l).
Proof.
  intros Hf Hl. induction Hl as [|a l Ha Hl IH]; simpl.
  - reflexivity.
  - rewrite (Hf a Ha). simpl. rewrite IH. reflexivity.
Qed.

Lemma along_rows_rect (f : list Q -> result (list Q)) (g : list Q -> list Q)
  (N : nat) (a : ndarray) :
  (forall row, length row = N -> f row = Return (g row)) -> rect N a ->
  along_rows f a = Return (map_rows g a).
Proof.
  intros Hf Ha. destruct a as [rows|planes]; simpl in *.
  - rewrite (mapM_Forall f g (fun r => length r = N)) by assumption.
    reflexivity.
  - rewrite (mapM_Forall (mapM f) (map g)
               (Forall (fun r => length r = N))); [reflexivity| |exact Ha].
    intros rows Hrows. apply (mapM_Forall f g (fun r => length r = N));
      assumption.
Qed.

Lemma Forall2_map_r {A B : Type} (P : A -> B -> Prop) (Q0 : A -> Prop)
  (h : A -> B) (l : list A) :
  (forall a, Q0 a -> P a (h a)) -> Forall Q0 l -> Forall2 P l (map h l).
Proof.
  intros H Hl. induction Hl; simpl; constructor; auto.
Qed.

Lemma rowwise_sum_last (P : list Q -> Q -> Prop) (g : list Q -> list Q)
  (N : nat) (a : ndarray) :
  (forall row, length row = N -> P row (sum (g row))) -> rect N a ->
  rowwise P a (sum_last (map_rows g a)).
Proof.
  intros H Ha. destruct a as [rows|planes]; simpl in *.
  - rewrite map_map.
    apply (Forall2_map_r P (fun r => length r = N)); assumption.
  - rewrite map_map.
    apply (Forall2_map_r (Forall2 P) (Forall (fun r => length r = N)));
      [|exact Ha].
    intros rows Hrows. rewrite map_map.
    apply (Forall2_map_r P (fun r => length r = N)); assumption.
Qed.

Lemma map_rows_rect (g : list Q -> list Q) (N M : nat) (a : ndarray) :
  (forall row, length row = N -> length (g row) = M) -> rect N a ->
  rect M (map_rows g a).
Proof.
  intros H Ha. destruct a as [rows|planes]; simpl in *.
  - rewrite Forall_map. revert Ha. apply Forall_impl. exact H.
  - rewrite Forall_map. revert Ha. apply Forall_impl. intros rows Hrows.
    rewrite Forall_map. revert Hrows. apply Forall_impl. exact H.
Qed.

(** ** The band integration is exact *)

Lemma integrate_band_exact (self : XrayEmissivityIntegrator) (data : ndarray)
  (e_min e_max : Q) (N : nat) :
  let E := ebin self in
  let lo := e_min * (1 + redshift self) in
  let hi := e_max * (1 + redshift self) in
  increasing E -> length E = S N -> dE self = diff E -> rect N data ->
  out_of_bounds (nth 0 E 0) (nth N E 0) lo hi = false ->
  nth 0 E 0 <= lo -> lo < nth N E 0 -> lo <= hi -> hi <= nth N E 0 ->
  exists surf,
    integrate_band self data e_min e_max = Return surf /\
    rowwise (fun row s => s = clipped_sum E lo hi row /\
                          s == band_integral E row lo hi) data surf.
Proof.
  intros E lo hi Hinc HE HdE Hrect Hchk H0 HN Hlh HhN.
  destruct (bracket E N lo hi Hinc HE H0 HN Hlh HhN)
    as (Cs & Ce & Hi & Hs1 & Hs2 & He1 & He2).
  assert (HiN : end_bin E hi = Nat.min (count_le hi E) N).
  { unfold end_bin. rewrite HE. f_equal. lia. }
  fold (first_bin E lo) in *. rewrite <- HiN in *.
  set (i_s := first_bin E lo) in *.
  set (i_e := end_bin E hi) in *.
  set (g := fun row : list Q =>
              zipWith Qmult (slice row (Z.of_nat i_s) (Z.of_nat i_e))
                (clipped_widths E i_s i_e lo hi)).
  exists (sum_last (map_rows g data)). split.
  - unfold integrate_band. fold E lo hi.
    rewrite (getitem_first E) by lia. cbn [bind].
    rewrite (getitem_last E) by lia. cbn [bind].
    replace (length E - 1)%nat with N by lia.
    unfold out_of_bounds in Hchk. rewrite Hchk.
    rewrite !(digitize_increasing _ E Hinc). cbn [bind].
    rewrite Cs, Ce.
    rewrite (getitem_nat E i_s) by lia. cbn [bind].
    rewrite HdE. fold E.
    assert (Hl0 : length (slice (diff E) (Z.of_nat i_s) (Z.of_nat i_e))
                  = (i_e - i_s)%nat).
    { apply slice_length. rewrite diff_length. lia. }
    rewrite isub_first by lia. cbn [bind].
    rewrite (getitem_nat E i_e) by lia. cbn [bind].
    rewrite isub_last by (rewrite set_nth_length; lia). cbn [bind].
    fold (clipped_widths E i_s i_e lo hi).
    rewrite (along_rows_rect _ g N); [reflexivity| |exact Hrect].
    intros row Hrow. apply broadcast_same.
    rewrite (clipped_widths_length E N) by (try exact HE; lia).
    apply slice_length. lia.
  - apply (rowwise_sum_last _ g N); [|exact Hrect].
    intros row Hrow. split; [reflexivity|]. unfold g.
    apply (clipped_row_exact E row N); assumption.
Qed.

(** ** The bounds test *)

Lemma Qdiv_lt_iff (a b c : Q) : 0 < b -> (a / b < c <-> a < c * b).
Proof.
  intros Hb. split; intros H.
  - destruct (Qlt_le_dec a (c * b)) as [Hlt|Hle]; [exact Hlt|exfalso].
    apply Qle_shift_div_l in Hle; [lra|exact Hb].
  - apply Qlt_shift_div_r; assumption.
Qed.

Lemma Qdiv_gt_iff (a b c : Q) : 0 < b -> (c < a / b <-> c * b < a).
Proof.
  intros Hb. split; intros H.
  - destruct (Qlt_le_dec (c * b) a) as [Hlt|Hle]; [exact Hlt|exfalso].
    apply Qle_shift_div_r in Hle; [lra|exact Hb].
  - apply Qlt_shift_div_l; assumption.
Qed.

Lemma quot_lt_spec (a b c : Q) :
  0 <= b -> (quot_lt a b c = true <-> a < c * b).
Proof.
  intros Hb. unfold quot_lt. destruct (Qeq_bool b 0) eqn:Hz.
  - apply Qeq_bool_iff in Hz. rewrite Qltb_lt. rewrite Hz. lra.
  - apply Qeq_bool_neq in Hz. rewrite Qltb_lt. apply Qdiv_lt_iff. lra.
Qed.

Lemma quot_gt_spec (a b c : Q) :
  0 <= b -> (quot_gt a b c = true <-> c * b < a).
Proof.
  intros Hb. unfold quot_gt. destruct (Qeq_bool b 0) eqn:Hz.
  - apply Qeq_bool_iff in Hz. rewrite Qltb_lt. rewrite Hz. lra.
  - apply Qeq_bool_neq in Hz. rewrite Qltb_lt. apply Qdiv_gt_iff. lra.
Qed.

Lemma out_of_bounds_spec (lower upper lo hi : Q) :
  0 <= lo -> 0 <= hi ->
  (out_of_bounds lower upper lo hi = true
   <-> outside_tolerance lower upper lo hi).
Proof.
  intros Hlo Hhi. unfold out_of_bounds, outside_tolerance.
  rewrite orb_true_iff, (quot_lt_spec _ _ _ Hlo), (quot_gt_spec _ _ _ Hhi).
  split; intros [H|H]; [left|right|left|right]; lra.
Qed.

(** A quotient with a zero numerator is zero or NaN: it passes both tests,
    whatever the sign of the divisor. *)
Lemma quot_zero_num (a b : Q) :
  a == 0 ->
  quot_lt a b (-(1 # 1000)) = false /\ quot_gt a b (1 # 1000) = false.
Proof.
  intros Ha. unfold quot_lt, quot_gt. destruct (Qeq_bool b 0) eqn:Hz.
  - rewrite !Qltb_ge. lra.
  - assert (H0 : a / b == 0) by (unfold Qdiv; rewrite Ha; apply Qmult_0_l).
    rewrite !Qltb_ge, H0. lra.
Qed.

Lemma in_bounds (lower upper lo hi : Q) :
  lo == lower \/ (0 <= lo /\ lower <= lo) ->
  hi == upper \/ (0 <= hi /\ hi <= upper) ->
  out_of_bounds lower upper lo hi = false.
Proof.
  intros Hl Hu. unfold out_of_bounds. apply orb_false_iff. split.
  - destruct Hl as [Hl|[Hl0 Hl]].
    + apply quot_zero_num. lra.
    + destruct (quot_lt (lo - lower) lo (-(1 # 1000))) eqn:Hq; [|reflexivity].
      apply quot_lt_spec in Hq; [lra|exact Hl0].
  - destruct Hu as [Hu|[Hu0 Hu]].
    + apply quot_zero_num. lra.
    + destruct (quot_gt (hi - upper) hi (1 # 1000)) eqn:Hq; [|reflexivity].
      apply quot_gt_spec in Hq; [lra|exact Hu0].
Qed.

(** ** Well-formed integrators *)

Lemma getattr_rect (self : XrayEmissivityIntegrator) (N : nat)
  (data_type : string) (data : ndarray) :
  table_ok self N -> getattr_emissivity self data_type = Return data ->
  rect N data.
Proof.
  intros Hok H. unfold getattr_emissivity in H.
  destruct (String.eqb data_type "primordial").
  - inversion H; subst. apply (ok_primordial _ _ Hok).
  - destruct (String.eqb data_type "metals"); [|discriminate].
    destruct (emissivity_metals self) as [a|] eqn:Hm; [|discriminate].
    inversion H; subst. apply (ok_metals _ _ Hok). exact Hm.
Qed.

Lemma interp_data_energy (self : XrayEmissivityIntegrator)
  (data_type : string) (e_min e_max : Q) :
  interp_data self data_type e_min e_max true
  = (data <- getattr_emissivity self data_type ;;
     integrate_band self data e_min e_max).
Proof.
  unfold interp_data, load_data.
  destruct (getattr_emissivity self data_type); reflexivity.
Qed.

(** The band integral of an energy-mode call, for a rest-frame band inside
    the table's range. *)
Lemma interp_data_exact (self : XrayEmissivityIntegrator) (N : nat)
  (data_type : string) (data : ndarray) (e_min e_max : Q) :
  let E := ebin self in
  let lo := e_min * (1 + redshift self) in
  let hi := e_max * (1 + redshift self) in
  table_ok self N -> getattr_emissivity self data_type = Return data ->
  nth 0 E 0 <= lo -> lo < nth N E 0 -> lo <= hi -> hi <= nth N E 0 ->
  exists surf,
    interp_data self data_type e_min e_max true = Return surf /\
    rowwise (fun row s => s = clipped_sum E lo hi row /\
                          s == band_integral E row lo hi) data surf.
Proof.
  intros E lo hi Hok Hdata H0 HN Hlh HhN.
  rewrite interp_data_energy, Hdata. cbn [bind].
  pose proof (ok_nonneg _ _ Hok) as Hpos. fold E in Hpos.
  apply integrate_band_exact with (N := N); try assumption.
  - exact (ok_increasing _ _ Hok).
  - exact (ok_size _ _ Hok).
  - exact (ok_dE _ _ Hok).
  - exact (getattr_rect self N data_type data Hok Hdata).
  - apply in_bounds; right; fold E lo hi; split; lra.
Qed.

Lemma rowwise_impl (P P' : list Q -> Q -> Prop) (N : nat) (a : ndarray)
  (s : surface) :
  (forall row x, length row = N -> P row x -> P' row x) ->
  rect N a -> rowwise P a s -> rowwise P' a s.
Proof.
  intros H Ha Hs. destruct a as [rows|planes], s as [s|s]; simpl in *;
    try contradiction.
  - induction Hs; constructor; inversion Ha; subst; auto.
  - revert Ha. induction Hs as [|rows s0 planes s1 Hrow Hs IH]; intros Ha;
      constructor; inversion Ha; subst; auto.
    clear IH Hs. match goal with H0 : Forall _ rows |- _ => revert H0 end.
    induction Hrow; intros Hr; constructor; inversion Hr; subst; auto.
Qed.

Lemma example_table_ok : table_ok example_table 2.
Proof.
  constructor; simpl.
  - repeat split; reflexivity.
  - reflexivity.
  - discriminate.
  - reflexivity.
  - repeat constructor.
  - discriminate.
Qed.

(** ** Band integration (C1) *)

(** C1: for a well-formed table and a band whose rest-frame image lies
    strictly inside the table's energy range, the surface computed by
    [get_interpolator] (lines 100-119, energy mode) is, at every grid node,
    the sum over the bracketed bins of the tabulated value times the clipped
    width, and this equals the exact integral over the band of the
    piecewise-constant tabulated emissivity; on the synthetic table the band
    [0.5, 5] at redshift 0 gives 1e-23*((1-0.5)+(5-1)) at each of the three
    nodes. *)
Theorem C1_band_integral_exact :
  (forall (self : XrayEmissivityIntegrator) (N : nat) (data_type : string)
          (data : ndarray) (e_min e_max : Q),
      let E := ebin self in
      let lo := e_min * (1 + redshift self) in
      let hi := e_max * (1 + redshift self) in
      table_ok self N ->
      getattr_emissivity self data_type = Return data ->
      nth 0 E 0 < lo -> lo <= hi -> hi < nth N E 0 ->
      exists surf,
        interp_data self data_type e_min e_max true = Return surf /\
        rowwise (fun row s => s = clipped_sum E lo hi row /\
                              s == band_integral E row lo hi) data surf)
  /\
  (exists s,
      interp_data example_table "primordial" 0.5 5 true = Return (Surf1 s) /\
      length s = 3%nat /\
      Forall (fun x => x == 1e-23 * ((1 - 0.5) + (5 - 1))) s).
Proof.
  split.
  - intros self N data_type data e_min e_max E lo hi Hok Hdata H0 Hlh HN.
    apply (interp_data_exact self N data_type data e_min e_max Hok Hdata);
      fold E lo hi; lra.
  - eexists. split; [vm_compute; reflexivity|]. split; [reflexivity|].
    repeat constructor; vm_compute; reflexivity.
Qed.

Lemma C1_witness :
  table_ok example_table 2 /\
  getattr_emissivity example_table "primordial"
    = Return (emissivity_primordial example_table) /\
  nth 0 (ebin example_table) 0 < 0.5 * (1 + redshift example_table) /\
  0.5 * (1 + redshift example_table) <= 5 * (1 + redshift example_table) /\
  5 * (1 + redshift example_table) < nth 2 (ebin example_table) 0 /\
  exists surf,
    interp_data example_table "primordial" 0.5 5 true = Return surf /\
    rowwise (fun row s =>
               s = clipped_sum (ebin example_table)
                     (0.5 * (1 + redshift example_table))
                     (5 * (1 + redshift example_table)) row /\
               s == band_integral (ebin example_table) row
                      (0.5 * (1 + redshift example_table))
                      (5 * (1 + redshift example_table)))
      (emissivity_primordial example_table) surf.
Proof.
  assert (H1 : nth 0 (ebin example_table) 0
               < 0.5 * (1 + redshift example_table)) by reflexivity.
  assert (H2 : 0.5 * (1 + redshift example_table)
               <= 5 * (1 + redshift example_table)) by discriminate.
  assert (H3 : 5 * (1 + redshift example_table)
               < nth 2 (ebin example_table) 0) by reflexivity.
  repeat split; try assumption; try apply example_table_ok.
  exact (proj1 C1_band_integral_exact example_table 2%nat "primordial"%string
           (emissivity_primordial example_table) 0.5 5
           example_table_ok eq_refl H1 H2 H3).
Defined.

(** ** Exact-bin identities (C3) *)

(** A band inside the bins [k .. k+m-1] only meets those bins. *)
Lemma band_integral_window (E row : list Q) (N k m : nat) (lo hi : Q) :
  increasing E -> length E = S N -> length row = N -> (k + m <= N)%nat ->
  nth k E 0 <= lo -> hi <= nth (k + m) E 0 ->
  band_integral E row lo hi ==
  qsum (fun j => nth (k + j) row 0
                 * overlap (nth (k + j) E 0) (nth (S (k + j)) E 0) lo hi) m.
Proof.
  intros Hinc HE Hrow Hkm Hlo Hhi.
  rewrite (band_integral_nth E row lo hi N HE Hrow).
  replace N with (k + (m + (N - (k + m))))%nat at 1 by lia.
  rewrite !qsum_split.
  rewrite (qsum_zero _ k), (qsum_zero _ (N - (k + m))).
  - lra.
  - intros i Hi.
    assert (hi <= nth (k + (m + i)) E 0).
    { apply Qle_trans with (nth (k + m) E 0); [exact Hhi|].
      apply increasing_nth_le; [exact Hinc|lia]. }
    rewrite overlap_above by assumption. lra.
  - intros i Hi.
    assert (nth (S i) E 0 <= lo).
    { apply Qle_trans with (nth k E 0); [|exact Hlo].
      apply increasing_nth_le; [exact Hinc|lia]. }
    rewrite overlap_below by assumption. lra.
Qed.

(** C3: at redshift 0, (1) on a table with the single bin [a, b] the band
    [a, b] gives the tabulated value times the full width [b - a]; (2) a
    band that spans exactly the two adjacent bins [k] and [k+1] gives
    [v1*w1 + v2*w2]; (3) a band strictly inside the bin [k] gives the value
    times the requested width [e_max - e_min], which is less than the value
    times the bin width when the value is positive. *)
Theorem C3_exact_bin_identities :
  (forall (self : XrayEmissivityIntegrator) (a b : Q) (data_type : string)
          (data : ndarray),
      ebin self = [a; b] -> a < b -> dE self = diff (ebin self) ->
      redshift self = 0 -> rect 1 data ->
      getattr_emissivity self data_type = Return data ->
      exists surf,
        interp_data self data_type a b true = Return surf /\
        rowwise (fun row s => s == nth 0 row 0 * (b - a)) data surf)
  /\
  (forall (self : XrayEmissivityIntegrator) (N k : nat)
          (data_type : string) (data : ndarray),
      let E := ebin self in
      table_ok self N -> redshift self = 0 -> (k + 2 <= N)%nat ->
      getattr_emissivity self data_type = Return data ->
      exists surf,
        interp_data self data_type (nth k E 0) (nth (k + 2) E 0) true
          = Return surf /\
        rowwise (fun row s =>
                   s == nth k row 0 * (nth (k + 1) E 0 - nth k E 0)
                        + nth (k + 1) row 0
                          * (nth (k + 2) E 0 - nth (k + 1) E 0)) data surf)
  /\
  (forall (self : XrayEmissivityIntegrator) (N k : nat)
          (data_type : string) (data : ndarray) (e_min e_max : Q),
      let E := ebin self in
      table_ok self N -> redshift self = 0 -> (k < N)%nat ->
      getattr_emissivity self data_type = Return data ->
      nth k E 0 < e_min -> e_min <= e_max -> e_max < nth (k + 1) E 0 ->
      exists surf,
        interp_data self data_type e_min e_max true = Return surf /\
        rowwise (fun row s =>
                   s == nth k row 0 * (e_max - e_min) /\
                   (0 < nth k row 0 ->
                    s < nth k row 0 * (nth (k + 1) E 0 - nth k E 0)))
          data surf).
Proof.
  split; [|split].
  - intros self a b data_type data HE Hab HdE Hz Hrect Hdata.
    rewrite interp_data_energy, Hdata. cbn [bind].
    assert (Hinc : increasing (ebin self)) by (rewrite HE; simpl; auto).
    assert (Hlen : length (ebin self) = 2%nat) by (rewrite HE; reflexivity).
    destruct (integrate_band_exact self data a b 1 Hinc Hlen HdE Hrect)
      as (surf & Hrun & Hrows); rewrite ?Hz, ?HE; simpl nth; try lra.
    { apply in_bounds; left; lra. }
    exists surf. split; [exact Hrun|].
    revert Hrows. apply (rowwise_impl _ _ 1); [|exact Hrect].
    intros row s Hrow [_ Hs]. rewrite Hs, Hz, HE.
    destruct row as [|v [|? ?]]; try discriminate. simpl.
    rewrite (overlap_val a b _ _ a b);
      [lra|apply Q.max_l; lra|apply Q.min_l; lra|lra].
  - intros self N k data_type data E Hok Hz Hk Hdata.
    pose proof (ok_increasing _ _ Hok) as Hinc. fold E in Hinc.
    pose proof (ok_size _ _ Hok) as HE. fold E in HE.
    pose proof (ok_nonneg _ _ Hok) as Hpos. fold E in Hpos.
    assert (H0k : nth 0 E 0 <= nth k E 0)
      by (apply increasing_nth_le; [exact Hinc|lia]).
    assert (Hk1 : nth k E 0 < nth (k + 1) E 0)
      by (apply increasing_nth; [exact Hinc|lia]).
    assert (Hk2 : nth (k + 1) E 0 < nth (k + 2) E 0)
      by (apply increasing_nth; [exact Hinc|lia]).
    assert (HkN : nth (k + 2) E 0 <= nth N E 0)
      by (apply increasing_nth_le; [exact Hinc|lia]).
    destruct (interp_data_exact self N data_type data
                (nth k E 0) (nth (k + 2) E 0) Hok Hdata)
      as (surf & Hrun & Hrows); fold E; rewrite ?Hz; try lra.
    exists surf. split; [exact Hrun|].
    revert Hrows.
    apply (rowwise_impl _ _ N); [|exact (getattr_rect _ _ _ _ Hok Hdata)].
    intros row s Hrow [_ Hs]. rewrite Hs, Hz. fold E.
    rewrite (band_integral_window E row N k 2) by (try assumption; lra).
    simpl qsum. rewrite !Nat.add_0_r.
    replace (S k) with (k + 1)%nat by lia.
    replace (S (k + 1)) with (k + 2)%nat by lia.
    rewrite (overlap_val (nth k E 0) (nth (k + 1) E 0) _ _
               (nth k E 0) (nth (k + 1) E 0));
      [|apply Q.max_l; lra|apply Q.min_l; lra|lra].
    rewrite (overlap_val (nth (k + 1) E 0) (nth (k + 2) E 0) _ _
               (nth (k + 1) E 0) (nth (k + 2) E 0));
      [|apply Q.max_l; lra|apply Q.min_l; lra|lra].
    lra.
  - intros self N k data_type data e_min e_max E Hok Hz Hk Hdata
      Hlo Hlh Hhi.
    pose proof (ok_increasing _ _ Hok) as Hinc. fold E in Hinc.
    pose proof (ok_size _ _ Hok) as HE. fold E in HE.
    pose proof (ok_nonneg _ _ Hok) as Hpos. fold E in Hpos.
    assert (H0k : nth 0 E 0 <= nth k E 0)
      by (apply increasing_nth_le; [exact Hinc|lia]).
    assert (HkN : nth (k + 1) E 0 <= nth N E 0)
      by (apply increasing_nth_le; [exact Hinc|lia]).
    destruct (interp_data_exact self N data_type data e_min e_max Hok Hdata)
      as (surf & Hrun & Hrows); fold E; rewrite ?Hz; try lra.
    exists surf. split; [exact Hrun|].
    revert Hrows.
    apply (rowwise_impl _ _ N); [|exact (getattr_rect _ _ _ _ Hok Hdata)].
    intros row s Hrow [_ Hs].
    assert (Hval : s == nth k row 0 * (e_max - e_min)).
    { rewrite Hs, Hz. fold E.
      rewrite (band_integral_window E row N k 1)
        by (try assumption; try lia; lra).
      simpl qsum. rewrite !Nat.add_0_r.
      replace (S k) with (k + 1)%nat by lia.
      rewrite (overlap_val (nth k E 0) (nth (k + 1) E 0) _ _
                 (e_min * (1 + 0)) (e_max * (1 + 0)));
        [|apply Q.max_r; lra|apply Q.min_r; lra|lra].
      ring. }
    split; [exact Hval|]. intros Hv. rewrite Hval.
    apply Qmult_lt_l; [exact Hv|lra].
Qed.

(** ** Which exceptions the steps raise *)

Lemma getitem_raise (l : list Q) (i : Z) (e : exn) :
  getitem l i = Raise e -> e = IndexError.
Proof.
  unfold getitem. destruct (_ && _)%bool; intros H; inversion H; reflexivity.
Qed.

Lemma isub_raise (l : list Q) (i : Z) (x : Q) (e : exn) :
  isub l i x = Raise e -> e = IndexError.
Proof.
  unfold isub. destruct (_ && _)%bool; intros H; inversion H; reflexivity.
Qed.

Lemma digitize_raise (x : Q) (bins : list Q) (e : exn) :
  digitize x bins = Raise e -> e = ValueError.
Proof.
  unfold digitize. destruct (nondecreasing bins); [discriminate|].
  destruct (nonincreasing bins); intros H; inversion H; reflexivity.
Qed.

Lemma broadcast_raise (op : Q -> Q -> Q) (a b : list Q) (e : exn) :
  broadcast op a b = Raise e -> e = ValueError.
Proof.
  unfold broadcast. repeat destruct (_ =? _)%nat; intros H; inversion H;
    reflexivity.
Qed.

Lemma mapM_raise {A B : Type} (f : A -> result B) (P : exn -> Prop)
  (l : list A) (e : exn) :
  (forall a e', f a = Raise e' -> P e') -> mapM f l = Raise e -> P e.
Proof.
  intros Hf. induction l as [|a l IH]; simpl; [discriminate|].
  destruct (f a) as [b|e'] eqn:Hfa; simpl.
  - destruct (mapM f l) as [bs|e'']; simpl; [discriminate|].
    intros H; inversion H; subst. apply IH. reflexivity.
  - intros H; inversion H; subst. apply (Hf a). exact Hfa.
Qed.

Lemma along_rows_raise (f : list Q -> result (list Q)) (P : exn -> Prop)
  (a : ndarray) (e : exn) :
  (forall row e', f row = Raise e' -> P e') -> along_rows f a = Raise e ->
  P e.
Proof.
  intros Hf. destruct a as [rows|planes]; simpl.
  - destruct (mapM f rows) as [r|e'] eqn:Hm; simpl; [discriminate|].
    intros H; inversion H; subst. exact (mapM_raise f P rows e Hf Hm).
  - destruct (mapM (mapM f) planes) as [r|e'] eqn:Hm; simpl; [discriminate|].
    intros H; inversion H; subst.
    apply (mapM_raise (mapM f) P planes e); [|exact Hm].
    intros rows e'. apply mapM_raise. exact Hf.
Qed.

(** The next step [m] of [x <- m ;; k] either returns, or raises only what
    [lem] says. *)
Ltac bind_step lem :=
  match goal with
  | |- bind ?m _ = Raise _ -> _ =>
      let Hm := fresh "Hm" in
      let X := fresh "X" in
      destruct m eqn:Hm; cbn [bind];
      [|intros X; inversion X; subst; apply lem in Hm; subst; reflexivity]
  end.

(** Past the test of line 106 nothing raises [EnergyBoundsException]. *)
Lemma integrate_band_in_bounds (self : XrayEmissivityIntegrator)
  (data : ndarray) (e_min e_max lower upper : Q) (e : exn) :
  getitem (ebin self) 0 = Return lower ->
  getitem (ebin self) (-1) = Return upper ->
  out_of_bounds lower upper (e_min * (1 + redshift self))
    (e_max * (1 + redshift self)) = false ->
  integrate_band self data e_min e_max = Raise e ->
  is_bounds_exn e = false.
Proof.
  intros Hl Hu Hchk. unfold integrate_band. rewrite Hl, Hu. cbn [bind].
  unfold out_of_bounds in Hchk. rewrite Hchk.
  bind_step digitize_raise. bind_step digitize_raise.
  bind_step getitem_raise. bind_step isub_raise.
  bind_step getitem_raise. bind_step isub_raise.
  match goal with
  | |- bind ?m _ = Raise _ -> _ => destruct m as [p|e7] eqn:H7; cbn [bind]
  end; [discriminate|].
  intros H; inversion H; subst.
  apply (along_rows_raise _ (fun e => is_bounds_exn e = false) _ _) in H7;
    [exact H7|].
  intros row e' Hb. rewrite (broadcast_raise _ _ _ _ Hb). reflexivity.
Qed.

Lemma integrate_band_out_of_bounds (self : XrayEmissivityIntegrator)
  (data : ndarray) (e_min e_max lower upper : Q) :
  getitem (ebin self) 0 = Return lower ->
  getitem (ebin self) (-1) = Return upper ->
  out_of_bounds lower upper (e_min * (1 + redshift self))
    (e_max * (1 + redshift self)) = true ->
  integrate_band self data e_min e_max
  = Raise (EnergyBoundsException lower upper).
Proof.
  intros Hl Hu Hchk. unfold integrate_band. rewrite Hl, Hu. cbn [bind].
  unfold out_of_bounds in Hchk. rewrite Hchk. reflexivity.
Qed.

Section Interpolator.

Variable log10q : Q -> fval.

Lemma get_interpolator_raise (self : XrayEmissivityIntegrator)
  (data_type : string) (e_min e_max : Q) (energy : bool) (e : exn) :
  interp_data self data_type e_min e_max energy = Raise e ->
  get_interpolator log10q self data_type e_min e_max energy = Raise e.
Proof.
  intros H. unfold get_interpolator. rewrite H. reflexivity.
Qed.

(** Building the interpolator (lines 120-135) raises no
    [EnergyBoundsException]. *)
Lemma get_interpolator_tail_raise (self : XrayEmissivityIntegrator)
  (data_type : string) (e_min e_max : Q) (energy : bool) (surf : surface)
  (e : exn) :
  interp_data self data_type e_min e_max energy = Return surf ->
  get_interpolator log10q self data_type e_min e_max energy = Raise e ->
  is_bounds_exn e = false.
Proof.
  intros H. unfold get_interpolator. rewrite H. cbn [bind].
  destruct surf as [s|s].
  - bind_step getitem_raise. bind_step getitem_raise. discriminate.
  - destruct (log_nH self) as [nh|];
      [|intros X; inversion X; reflexivity].
    bind_step getitem_raise. bind_step getitem_raise.
    bind_step getitem_raise. bind_step getitem_raise. discriminate.
Qed.

(** ** The energy bounds check (C2) *)


End Interpolator.



Lemma C3_witness :
  (exists surf,
      interp_data single_bin_table "primordial" 1 3 true = Return surf /\
      rowwise (fun row s => s == nth 0 row 0 * (3 - 1))
        (emissivity_primordial single_bin_table) surf)
  /\
  (exists surf,
      interp_data example_table "primordial"
        (nth 0 (ebin example_table) 0) (nth (0 + 2) (ebin example_table) 0)
        true = Return surf /\
      rowwise (fun row s =>
                 s == nth 0 row 0 * (nth (0 + 1) (ebin example_table) 0
                                     - nth 0 (ebin example_table) 0)
                      + nth (0 + 1) row 0
                        * (nth (0 + 2) (ebin example_table) 0
                           - nth (0 + 1) (ebin example_table) 0))
        (emissivity_primordial example_table) surf)
  /\
  (exists surf,
      interp_data example_table "primordial" 2 5 true = Return surf /\
      rowwise (fun row s =>
                 s == nth 1 row 0 * (5 - 2) /\
                 (0 < nth 1 row 0 ->
                  s < nth 1 row 0 * (nth (1 + 1) (ebin example_table) 0
                                     - nth 1 (ebin example_table) 0)))
        (emissivity_primordial example_table) surf).
Proof.
  destruct C3_exact_bin_identities as (One & Two & Three).
  split; [|split].
  - apply (One single_bin_table 1 3 "primordial"%string
             (emissivity_primordial single_bin_table)); try reflexivity.
    repeat constructor.
  - apply (Two example_table 2%nat 0%nat "primordial"%string
             (emissivity_primordial example_table));
      try reflexivity; try apply example_table_ok.
  - apply (Three example_table 2%nat 1%nat "primordial"%string
             (emissivity_primordial example_table) 2 5);
      try reflexivity; try apply example_table_ok; try discriminate.
    apply Nat.lt_succ_diag_r.
Defined.

(** ** A band at the last bin edge (C10) *)

Lemma count_le_all (E : list Q) (N : nat) (x : Q) :
  increasing E -> length E = S N -> nth N E 0 <= x -> count_le x E = S N.
Proof.
  intros Hinc HE Hx.
  destruct (count_le_spec x E Hinc) as [_ U].
  pose proof (count_le_bound x E) as B.
  destruct (le_lt_dec (count_le x E) N) as [H|H]; [exfalso|lia].
  specialize (U N ltac:(lia)). lra.
Qed.

Lemma slice_past_end {A : Type} (l : list A) (a b : Z) :
  (Z.of_nat (length l) <= a)%Z -> slice l a b = [].
Proof.
  intros H. unfold slice.
  assert (Ha : slice_bound (Z.of_nat (length l)) a = Z.of_nat (length l)).
  { unfold slice_bound. destruct (Z.ltb_spec a 0); lia. }
  rewrite Ha, Nat2Z.id, skipn_all. apply firstn_nil.
Qed.

Section LastEdge.

Variable log10q : Q -> fval.

(** C10: on a table with increasing edges, a call that passes the bounds
    test of line 106 with a rest-frame [e_min] at or beyond the last bin
    edge brackets no bin: the sliced width vector is empty and
    [get_interpolator] ends in an [IndexError], neither an interpolator nor
    an [EnergyBoundsException]. *)
Theorem C10_index_error_at_last_edge (self : XrayEmissivityIntegrator)
  (data_type : string) (e_min e_max : Q) (energy : bool) (data : ndarray)
  (N : nat) :
  let E := ebin self in
  let lo := e_min * (1 + redshift self) in
  let hi := e_max * (1 + redshift self) in
  load_data self data_type energy = Return data ->
  increasing E -> length E = S N -> dE self = diff E ->
  out_of_bounds (nth 0 E 0) (nth N E 0) lo hi = false ->
  nth N E 0 <= lo ->
  get_interpolator log10q self data_type e_min e_max energy
  = Raise IndexError.
Proof.
  intros E lo hi Hdata Hinc HE HdE Hchk Hlo.
  apply get_interpolator_raise. unfold interp_data. rewrite Hdata.
  cbn [bind]. unfold integrate_band. fold E lo hi.
  rewrite (getitem_first E) by lia. cbn [bind].
  rewrite (getitem_last E) by lia. cbn [bind].
  replace (length E - 1)%nat with N by lia.
  unfold out_of_bounds in Hchk. rewrite Hchk.
  rewrite !(digitize_increasing _ E Hinc). cbn [bind].
  rewrite (count_le_all E N lo Hinc HE Hlo).
  assert (Hc : clip (Z.of_nat (S N) - 1) 0 (Z.of_nat (length E) - 1)
               = Z.of_nat N) by (unfold clip; lia).
  rewrite Hc. rewrite (getitem_nat E N) by lia. cbn [bind].
  rewrite slice_past_end by (rewrite HdE, diff_length; lia).
  rewrite isub_empty. reflexivity.
Qed.

End LastEdge.

Lemma C10_witness :
  get_interpolator (fun _ => NaN) example_table "primordial" 10 10 true
  = Raise IndexError.
Proof.
  apply (C10_index_error_at_last_edge (fun _ => NaN) example_table
           "primordial" 10 10 true (emissivity_primordial example_table)
           2%nat); try reflexivity.
  - repeat split; reflexivity.
  - discriminate.
Defined.

(** ** Bin widths, midpoints and photon mode (C8) *)

Lemma Forall2_map_l {A B C : Type} (P : B -> C -> Prop) (h : A -> B)
  (l : list A) (s : list C) :
  Forall2 P (map h l) s <-> Forall2 (fun a c => P (h a) c) l s.
Proof.
  revert s; induction l as [|a l IH]; intros s; simpl; split; intros H;
    inversion H; subst; constructor; auto; apply IH; assumption.
Qed.

Lemma Forall2_weaken {A B : Type} (P P' : A -> B -> Prop) (l : list A)
  (s : list B) :
  (forall a b, P a b -> P' a b) -> Forall2 P l s -> Forall2 P' l s.
Proof.
  intros H Hl. induction Hl; constructor; auto.
Qed.

Lemma rowwise_map_rows (P : list Q -> Q -> Prop) (g : list Q -> list Q)
  (a : ndarray) (s : surface) :
  rowwise P (map_rows g a) s -> rowwise (fun row x => P (g row) x) a s.
Proof.
  destruct a as [rows|planes], s as [s|s]; simpl; try contradiction.
  - apply (proj1 (Forall2_map_l P g rows s)).
  - intros H. apply (proj1 (Forall2_map_l (Forall2 P) (map g) planes s)) in H.
    revert H. apply Forall2_weaken. intros rows s0.
    apply (proj1 (Forall2_map_l P g rows s0)).
Qed.

Section Photon.

Variable erg_per_keV : Q.

Lemma midpoints_cons (a b : Q) (E : list Q) :
  midpoints erg_per_keV (a :: b :: E)
  = (0.5 * ((b + a) * erg_per_keV)) :: midpoints erg_per_keV (b :: E).
Proof. reflexivity. Qed.

Lemma midpoints_length (E : list Q) :
  length (midpoints erg_per_keV E) = (length E - 1)%nat.
Proof.
  induction E as [|a E IH]; [reflexivity|].
  destruct E as [|b E]; [reflexivity|].
  rewrite midpoints_cons. simpl length in *. lia.
Qed.

Lemma midpoints_nth (E : list Q) (i : nat) :
  (S i < length E)%nat ->
  nth i (midpoints erg_per_keV E) 0
  = 0.5 * ((nth (S i) E 0 + nth i E 0) * erg_per_keV).
Proof.
  revert i; induction E as [|a E IH]; intros i Hi; [simpl in Hi; lia|].
  destruct E as [|b E]; [simpl in Hi; lia|].
  rewrite midpoints_cons.
  destruct i as [|i]; [reflexivity|].
  change (nth i (midpoints erg_per_keV (b :: E)) 0
          = 0.5 * ((nth (S i) (b :: E) 0 + nth i (b :: E) 0) * erg_per_keV)).
  apply IH. simpl in *. lia.
Qed.

(** C8: (1) when the table file is found and read (with the metal table in
    it if [use_metals] is on), [__init__] returns an integrator that holds
    the edges [E] of the file and, for its [N + 1] edges, the [N] widths
    [dE[i] = E[i+1] - E[i]] and the [N] midpoints
    [emid[i] = 0.5*(E[i] + E[i+1])] in erg; (2) a photon-mode call
    ([energy] false) on a well-formed table divides each bin's tabulated
    value by that bin's midpoint energy, which is positive, and its surface
    is the band integral of the divided values; (3) an energy-mode call
    integrates the dataset as it is. *)
Theorem C8_photon_mode :
  (forall (env : Env) (table_type : string) (z : Q)
          (data_dir : option string) (use_metals : bool) (path : string)
          (f : H5File),
      _get_data_file env table_type data_dir = Return path ->
      h5_open env path = Some f ->
      (use_metals = true -> h5_emissivity_metals f <> None) ->
      let E := h5_E f in
      exists self,
        __init__ erg_per_keV env table_type z data_dir use_metals
          = Return self /\
        ebin self = E /\
        length (dE self) = (length E - 1)%nat /\
        length (emid self) = (length E - 1)%nat /\
        forall i, (S i < length E)%nat ->
          nth i (dE self) 0 == nth (S i) E 0 - nth i E 0 /\
          nth i (emid self) 0
            == 0.5 * (nth i E 0 + nth (S i) E 0) * erg_per_keV)
  /\
  (forall (self : XrayEmissivityIntegrator) (N : nat) (data_type : string)
          (data : ndarray) (e_min e_max : Q),
      let E := ebin self in
      let lo := e_min * (1 + redshift self) in
      let hi := e_max * (1 + redshift self) in
      let per_photon := fun row => zipWith Qdiv row (emid self) in
      table_ok self N -> emid self = midpoints erg_per_keV E ->
      0 < erg_per_keV ->
      getattr_emissivity self data_type = Return data ->
      nth 0 E 0 <= lo -> lo <= hi -> hi < nth N E 0 ->
      load_data self data_type false = Return (map_rows per_photon data) /\
      (forall row i, length row = N -> (i < N)%nat ->
         0 < nth i (emid self) 0 /\
         nth i (per_photon row) 0 = nth i row 0 / nth i (emid self) 0) /\
      exists surf,
        interp_data self data_type e_min e_max false = Return surf /\
        rowwise (fun row s => s == band_integral E (per_photon row) lo hi)
          data surf)
  /\
  (forall (self : XrayEmissivityIntegrator) (data_type : string)
          (e_min e_max : Q),
      load_data self data_type true = getattr_emissivity self data_type /\
      interp_data self data_type e_min e_max true
      = (data <- getattr_emissivity self data_type ;;
         integrate_band self data e_min e_max)).
Proof.
  split; [|split].
  - intros env table_type z data_dir use_metals path f Hfile Hopen Hmet E.
    exists {| log_T := h5_log_T f;
              emissivity_primordial := h5_emissivity_primordial f;
              log_nH := h5_log_nH f;
              emissivity_metals :=
                if use_metals then h5_emissivity_metals f else None;
              ebin := h5_E f;
              dE := diff (h5_E f);
              emid := midpoints erg_per_keV (h5_E f);
              redshift := z |}.
    split.
    { unfold __init__. rewrite Hfile. cbn [bind]. rewrite Hopen.
      destruct use_metals; [|reflexivity].
      destruct (h5_emissivity_metals f) as [am|]; [reflexivity|].
      exfalso. exact (Hmet eq_refl eq_refl). }
    cbn [ebin dE emid]. fold E.
    rewrite diff_length, midpoints_length.
    repeat split; try reflexivity.
    + rewrite diff_nth by assumption. reflexivity.
    + rewrite midpoints_nth by assumption. ring.
  - intros self N data_type data e_min e_max E lo hi per_photon Hok Hmid
      Hk Hdata H0 Hlh HN.
    pose proof (ok_size _ _ Hok) as HE. fold E in HE.
    pose proof (getattr_rect _ _ _ _ Hok Hdata) as Hrect.
    assert (Hlm : length (emid self) = N).
    { rewrite Hmid, midpoints_length. lia. }
    assert (Hload : load_data self data_type false
                    = Return (map_rows per_photon data)).
    { unfold load_data. rewrite Hdata. cbn [bind].
      apply (along_rows_rect _ per_photon N); [|exact Hrect].
      intros row Hrow. apply broadcast_same. congruence. }
    split; [exact Hload|]. split.
    + intros row i Hrow Hi. split.
      * rewrite Hmid, midpoints_nth by (fold E; lia).
        pose proof (ok_nonneg _ _ Hok) as Hpos. fold E in Hpos.
        pose proof (ok_increasing _ _ Hok) as Hinc. fold E in Hinc.
        assert (nth 0 E 0 <= nth i E 0)
          by (apply increasing_nth_le; [exact Hinc|lia]).
        assert (nth i E 0 < nth (S i) E 0)
          by (apply increasing_nth; [exact Hinc|lia]).
        apply Qmult_lt_0_compat; [reflexivity|].
        apply Qmult_lt_0_compat; [lra|exact Hk].
      * unfold per_photon. apply zipWith_nth; [congruence|lia].
    + assert (Hrect' : rect N (map_rows per_photon data)).
      { apply (map_rows_rect per_photon N N); [|exact Hrect].
        intros row Hrow. unfold per_photon.
        rewrite zipWith_length; congruence. }
      pose proof (ok_nonneg _ _ Hok) as Hpos. fold E in Hpos.
      destruct (integrate_band_exact self (map_rows per_photon data)
                  e_min e_max N) as (surf & Hrun & Hrows);
        try assumption; fold E lo hi; try lra.
      * exact (ok_increasing _ _ Hok).
      * exact (ok_dE _ _ Hok).
      * apply in_bounds; right; split; lra.
      * exists surf. split.
        { unfold interp_data. rewrite Hload. exact Hrun. }
        apply rowwise_map_rows in Hrows. revert Hrows.
        apply (rowwise_impl _ _ N); [|exact Hrect].
        intros row s _ [_ Hs]. exact Hs.
  - intros self data_type e_min e_max. split.
    + unfold load_data.
      destruct (getattr_emissivity self data_type); reflexivity.
    + apply interp_data_energy.
Qed.

End Photon.

Lemma C8_witness :
  (exists self,
      __init__ 1.602176634e-9 example_env "cloudy" 0 (Some "."%string) true
      = Return self /\
      ebin self = [0.1; 1; 10] /\
      length (dE self) = 2%nat /\ length (emid self) = 2%nat /\
      nth 1 (dE self) 0 == 10 - 1 /\
      nth 1 (emid self) 0 == 0.5 * (1 + 10) * 1.602176634e-9) /\
  (load_data example_table "primordial" false
   = Return (map_rows (fun row => zipWith Qdiv row (emid example_table))
               (emissivity_primordial example_table)) /\
   exists surf,
     interp_data example_table "primordial" 0.5 5 false = Return surf /\
     rowwise (fun row s =>
                s == band_integral (ebin example_table)
                       (zipWith Qdiv row (emid example_table))
                       (0.5 * (1 + redshift example_table))
                       (5 * (1 + redshift example_table)))
       (emissivity_primordial example_table) surf).
Proof.
  destruct (C8_photon_mode 1.602176634e-9) as (One & Two & _).
  split.
  - destruct (One example_env "cloudy"%string 0 (Some "."%string) true
                "./cloudy_emissivity_v2.h5"%string example_file
                eq_refl eq_refl)
      as (self & Hinit & HE & HdE & Hmid & Hbin).
    { intros _. discriminate. }
    exists self. split; [exact Hinit|]. split; [exact HE|].
    split; [exact HdE|]. split; [exact Hmid|].
    apply (Hbin 1%nat). apply le_n.
  - assert (H1 : nth 0 (ebin example_table) 0
                 <= 0.5 * (1 + redshift example_table)) by discriminate.
    assert (H2 : 0.5 * (1 + redshift example_table)
                 <= 5 * (1 + redshift example_table)) by discriminate.
    assert (H3 : 5 * (1 + redshift example_table)
                 < nth 2 (ebin example_table) 0) by reflexivity.
    destruct (Two example_table 2%nat "primordial"%string
                (emissivity_primordial example_table) 0.5 5
                example_table_ok eq_refl eq_refl eq_refl H1 H2 H3)
      as (Hload & _ & Hsurf).
    split; [exact Hload|exact Hsurf].
Defined.

(** ** The emissivity field *)

Lemma zipWith_map {A B C D : Type} (f : B -> C -> D) (g : A -> B)
  (h : A -> C) (l : list A) :
  zipWith f (map g l) (map h l) = map (fun a => f (g a) (h a)) l.
Proof.
  induction l as [|a l IH]; simpl; [reflexivity|]. rewrite IH. reflexivity.
Qed.

Lemma field_In (data : Catalog) (name : string) :
  In name (names data) ->
  field data name = Return (map (fun c => c name) (cells data)).
Proof.
  intros H. unfold field.
  assert (Hex : existsb (String.eqb name) (names data) = true).
  { apply existsb_exists. exists name. split; [exact H|].
    apply String.eqb_refl. }
  rewrite Hex. reflexivity.
Qed.

Lemma getitem_ends (l : list Q) :
  l <> [] ->
  getitem l 0 = Return (nth 0 l 0) /\
  getitem l (-1) = Return (nth (length l - 1) l 0).
Proof.
  intros H. assert (0 < length l)%nat by (destruct l; simpl; [congruence|lia]).
  split; [apply getitem_first|apply getitem_last]; assumption.
Qed.

Section Emissivity.

Variable fl : Q -> fval.
Variable erg_per_keV : Q.
Variable log10q : Q -> fval.
Variable pow10q : Q -> fval.
Variable unilinear_at : list fval -> Q * Q -> bool -> fval -> fval.
Variable bilinear_at :
  list (list fval) -> Q * Q * Q * Q -> bool -> fval -> fval -> fval.

Lemma call_cells (f : FieldInterpolator) (gx gt : (string -> fval) -> fval)
  (cs : list (string -> fval)) :
  reads_grid f ->
  call unilinear_at bilinear_at f
    [("log_nH"%string, map gx cs); ("log_T"%string, map gt cs)]
  = Return (map (fun c => at_cell unilinear_at bilinear_at f (gx c) (gt c))
              cs).
Proof.
  destruct f as [table b x tr|table b [x y] tr]; simpl.
  - intros [-> ->]. simpl. rewrite map_map. reflexivity.
  - intros (-> & -> & ->). simpl. rewrite zipWith_map. reflexivity.
Qed.

Lemma get_interpolator_ok (self : XrayEmissivityIntegrator) (N : nat)
  (data_type : string) (data : ndarray) (e_min e_max : Q) (energy : bool) :
  let E := ebin self in
  let lo := e_min * (1 + redshift self) in
  let hi := e_max * (1 + redshift self) in
  table_ok self N -> length (emid self) = N ->
  getattr_emissivity self data_type = Return data ->
  log_T self <> [] ->
  (ndim data = 3%nat -> exists nh, log_nH self = Some nh /\ nh <> []) ->
  nth 0 E 0 <= lo -> lo <= hi -> hi < nth N E 0 ->
  exists f,
    get_interpolator log10q self data_type e_min e_max energy = Return f /\
    reads_grid f.
Proof.
  intros E lo hi Hok Hmid Hdata HT HnH H0 Hlh HN.
  pose proof (getattr_rect _ _ _ _ Hok Hdata) as Hrect.
  pose proof (ok_nonneg _ _ Hok) as Hpos. fold E in Hpos.
  set (per_photon := fun row : list Q => zipWith Qdiv row (emid self)).
  set (data' := if energy then data else map_rows per_photon data).
  assert (Hload : load_data self data_type energy = Return data').
  { unfold load_data. rewrite Hdata. cbn [bind]. unfold data'.
    destruct energy; [reflexivity|].
    apply (along_rows_rect _ per_photon N); [|exact Hrect].
    intros row Hrow. apply broadcast_same. congruence. }
  assert (Hrect' : rect N data').
  { unfold data'. destruct energy; [exact Hrect|].
    apply (map_rows_rect per_photon N N); [|exact Hrect].
    intros row Hrow. unfold per_photon. rewrite zipWith_length; congruence. }
  assert (Hdim : ndim data' = ndim data).
  { unfold data'. destruct energy, data; reflexivity. }
  destruct (integrate_band_exact self data' e_min e_max N)
    as (surf & Hrun & Hrows); try assumption; fold E lo hi; try lra.
  - exact (ok_increasing _ _ Hok).
  - exact (ok_size _ _ Hok).
  - exact (ok_dE _ _ Hok).
  - apply in_bounds; right; split; lra.
  - unfold get_interpolator, interp_data. rewrite Hload. cbn [bind].
    rewrite Hrun. cbn [bind].
    destruct (getitem_ends _ HT) as [HT0 HT1].
    destruct data' as [rows|planes], surf as [s|s]; simpl in Hrows;
      try contradiction.
    + rewrite HT0, HT1. cbn [bind]. eexists. split; [reflexivity|].
      simpl. auto.
    + destruct HnH as (nh & Hnh & Hne); [rewrite <- Hdim; reflexivity|].
      rewrite Hnh. destruct (getitem_ends _ Hne) as [Hn0 Hn1].
      rewrite Hn0, Hn1, HT0, HT1. cbn [bind].
      eexists. split; [reflexivity|]. simpl. auto.
Qed.

Lemma calculate_cloudy (env : Env) (data : Catalog)
  (temperature_model : string) (e_min e_max : Q) (use_metallicity : bool)
  (z : Q) (data_dir : option string) (path : string) (f : H5File)
  (am : ndarray) (N : nat) :
  let lo := e_min * (1 + z) in
  let hi := e_max * (1 + z) in
  In "lognH"%string (names data) ->
  In temperature_model (names data) ->
  In "gas_metallicity_host"%string (names data) ->
  _get_data_file env "cloudy" data_dir = Return path ->
  h5_open env path = Some f ->
  h5_emissivity_metals f = Some am ->
  file_ok f N ->
  nth 0 (h5_E f) 0 <= lo -> lo <= hi -> hi < nth N (h5_E f) 0 ->
  exists self em_0 em_Z,
    __init__ erg_per_keV env "cloudy" z data_dir true = Return self /\
    get_interpolator log10q self "primordial" e_min e_max true
      = Return em_0 /\
    get_interpolator log10q self "metals" e_min e_max true = Return em_Z /\
    calculate_xray_emissivity fl erg_per_keV log10q pow10q unilinear_at
      bilinear_at env data temperature_model e_min e_max use_metallicity z
      "cloudy" data_dir
    = Return (Some {| values :=
                        map (cell_emissivity fl log10q pow10q unilinear_at
                               bilinear_at em_0 em_Z temperature_model
                               use_metallicity) (cells data);
                      units := "erg*cm**3/s" |}).
Proof.
  intros lo hi Hn HT HZ Hfile Hopen Hmet Hok H0 Hlh HN.
  set (self := {| log_T := h5_log_T f;
                  emissivity_primordial := h5_emissivity_primordial f;
                  log_nH := h5_log_nH f;
                  emissivity_metals := Some am;
                  ebin := h5_E f;
                  dE := diff (h5_E f);
                  emid := midpoints erg_per_keV (h5_E f);
                  redshift := z |}).
  assert (Hinit : __init__ erg_per_keV env "cloudy" z data_dir true
                  = Return self).
  { unfold __init__. rewrite Hfile. cbn [bind]. rewrite Hopen, Hmet.
    reflexivity. }
  assert (Htab : table_ok self N).
  { constructor; simpl; try apply Hok.
    - reflexivity.
    - intros a Ha. inversion Ha; subst. apply (fok_metals _ _ Hok).
      exact Hmet. }
  assert (Hmid : length (emid self) = N).
  { simpl. rewrite midpoints_length, (fok_size _ _ Hok). lia. }
  assert (Hgrid : forall a, ndim a = 3%nat ->
            (a = h5_emissivity_primordial f \/ a = am) ->
            exists nh, log_nH self = Some nh /\ nh <> []).
  { intros a Ha Hwhich. simpl.
    assert (Hsome : h5_log_nH f <> None).
    { destruct Hwhich as [->| ->].
      - apply (fok_grid_primordial _ _ Hok). exact Ha.
      - apply (fok_grid_metals _ _ Hok am); assumption. }
    destruct (h5_log_nH f) as [nh|] eqn:Hnh; [|congruence].
    exists nh. split; [reflexivity|].
    apply (fok_log_nH _ _ Hok). exact Hnh. }
  assert (Hget : forall data_type a energy,
            getattr_emissivity self data_type = Return a ->
            (a = h5_emissivity_primordial f \/ a = am) ->
            exists g,
              get_interpolator log10q self data_type e_min e_max energy
                = Return g /\ reads_grid g).
  { intros data_type a energy Ha Hwhich.
    apply (get_interpolator_ok self N data_type a); try assumption.
    - apply (fok_log_T _ _ Hok).
    - intros Hdim. apply (Hgrid a); assumption. }
  destruct (Hget "primordial"%string (h5_emissivity_primordial f) true
              eq_refl (or_introl eq_refl)) as (em_0 & H1 & R0).
  destruct (Hget "primordial"%string (h5_emissivity_primordial f) false
              eq_refl (or_introl eq_refl)) as (emp_0 & H2 & _).
  destruct (Hget "metals"%string am true eq_refl (or_intror eq_refl))
    as (em_Z & H3 & RZ).
  destruct (Hget "metals"%string am false eq_refl (or_intror eq_refl))
    as (emp_Z & H4 & _).
  exists self, em_0, em_Z. repeat split; try assumption.
  unfold calculate_xray_emissivity.
  change (String.eqb "cloudy" "cloudy") with true. cbn [negb].
  rewrite (field_In data "lognH" Hn). cbn [bind].
  rewrite (field_In data temperature_model HT). cbn [bind].
  rewrite (field_In data "gas_metallicity_host" HZ). cbn [bind].
  rewrite Hinit. cbn [bind]. rewrite H1, H2. cbn [bind].
  rewrite !map_map.
  destruct use_metallicity.
  - rewrite H3, H4. cbn [bind].
    rewrite (call_cells em_0 _ _ (cells data) R0). cbn [bind].
    rewrite (call_cells em_Z _ _ (cells data) RZ). cbn [bind].
    rewrite !map_map, !zipWith_map, !map_map, !zipWith_map. reflexivity.
  - cbn [bind].
    rewrite (call_cells em_0 _ _ (cells data) R0). cbn [bind].
    rewrite !map_map, !zipWith_map. reflexivity.
Qed.

End Emissivity.

Lemma example_file_ok : file_ok example_file 2.
Proof.
  constructor; simpl.
  - repeat split; reflexivity.
  - reflexivity.
  - discriminate.
  - repeat constructor.
  - intros a Ha. inversion Ha; subst. repeat constructor.
  - discriminate.
  - intros nh Hnh. inversion Hnh; subst. discriminate.
  - discriminate.
  - discriminate.
Qed.

Section FieldClaims.

Variable fl : Q -> fval.
Variable erg_per_keV : Q.
Variable log10q : Q -> fval.
Variable pow10q : Q -> fval.
Variable unilinear_at : list fval -> Q * Q -> bool -> fval -> fval.
Variable bilinear_at :
  list (list fval) -> Q * Q * Q * Q -> bool -> fval -> fval -> fval.

(** ** The per-cell emissivity (C4) *)

(** C4, as the code has it: for a catalog with the fields [lognH], the
    chosen temperature and [gas_metallicity_host], the cloudy table file
    present and well formed and the rest-frame band inside its range,
    [calculate_xray_emissivity] returns an [erg*cm**3/s] array with one
    entry per cell, the entry being [(10^lognH)^2] times the NaN-zeroed sum
    of [10^(primordial interpolator)] and, when metals are requested,
    metallicity times [10^(metals interpolator)]; every NaN of that sum is
    replaced by 0 before the multiplication, so that a cell whose sum is
    NaN gets the product of its normalization with 0: the rounded [n * 0]
    for a finite normalization [n], which is 0 when the rounding of a zero
    is zero, and NaN for an infinite one (an overflow of [(10^lognH)^2]);
    and an entry whose normalization is NaN is NaN. *)
Theorem C4_cell_emissivity (env : Env) (data : Catalog)
  (temperature_model : string) (e_min e_max : Q) (use_metallicity : bool)
  (z : Q) (data_dir : option string) (path : string) (f : H5File)
  (am : ndarray) (N : nat) :
  let lo := e_min * (1 + z) in
  let hi := e_max * (1 + z) in
  In "lognH"%string (names data) ->
  In temperature_model (names data) ->
  In "gas_metallicity_host"%string (names data) ->
  _get_data_file env "cloudy" data_dir = Return path ->
  h5_open env path = Some f ->
  h5_emissivity_metals f = Some am ->
  file_ok f N ->
  nth 0 (h5_E f) 0 <= lo -> lo <= hi -> hi < nth N (h5_E f) 0 ->
  exists self em_0 em_Z,
    __init__ erg_per_keV env "cloudy" z data_dir true = Return self /\
    get_interpolator log10q self "primordial" e_min e_max true
      = Return em_0 /\
    get_interpolator log10q self "metals" e_min e_max true = Return em_Z /\
    let norm := fun c : string -> fval =>
      fmul fl (pow10 pow10q (c "lognH"%string))
        (pow10 pow10q (c "lognH"%string)) in
    let at_c := fun (g : FieldInterpolator) (c : string -> fval) =>
      at_cell unilinear_at bilinear_at g (c "lognH"%string)
        (log10 log10q (c temperature_model)) in
    let total := fun c : string -> fval =>
      if use_metallicity
      then fadd fl (pow10 pow10q (at_c em_0 c))
             (fmul fl (c "gas_metallicity_host"%string)
                (pow10 pow10q (at_c em_Z c)))
      else pow10 pow10q (at_c em_0 c) in
    calculate_xray_emissivity fl erg_per_keV log10q pow10q unilinear_at
      bilinear_at env data temperature_model e_min e_max use_metallicity z
      "cloudy" data_dir
    = Return (Some {| values :=
                        map (fun c =>
                               fmul fl (norm c) (nan_to_zero (total c)))
                          (cells data);
                      units := "erg*cm**3/s" |}) /\
    (forall c, isnan (total c) = true -> nan_to_zero (total c) = Num 0) /\
    (forall c, isnan (norm c) = true ->
               fmul fl (norm c) (nan_to_zero (total c)) = NaN) /\
    (forall c s, norm c = Inf s -> isnan (total c) = true ->
                 fmul fl (norm c) (nan_to_zero (total c)) = NaN) /\
    (forall c n, norm c = Num n -> isnan (total c) = true ->
                 fmul fl (norm c) (nan_to_zero (total c)) = fl (n * 0) /\
                 (rounds_zero fl ->
                  fmul fl (norm c) (nan_to_zero (total c)) = Num 0)).
Proof.
  intros lo hi Hn HT HZ Hfile Hopen Hmet Hok H0 Hlh HN.
  destruct (calculate_cloudy fl erg_per_keV log10q pow10q unilinear_at
              bilinear_at env data temperature_model e_min e_max
              use_metallicity z data_dir path f am N)
    as (self & em_0 & em_Z & Hinit & H1 & H3 & Hcalc); try assumption.
  exists self, em_0, em_Z.
  split; [exact Hinit|]. split; [exact H1|]. split; [exact H3|].
  split; [exact Hcalc|]. split; [|split; [|split]].
  - intros c Hc. unfold nan_to_zero. rewrite Hc. reflexivity.
  - intros c Hc.
    destruct (fmul fl (pow10 pow10q (c "lognH"%string))
                (pow10 pow10q (c "lognH"%string)));
      [discriminate|discriminate|reflexivity].
  - intros c s Hs Hc. rewrite Hs. unfold nan_to_zero. rewrite Hc.
    reflexivity.
  - intros c n Hnum Hc. rewrite Hnum. unfold nan_to_zero. rewrite Hc.
    split; [reflexivity|]. intros Hzero. apply Hzero. ring.
Qed.

(** ** The function-level API (C5) *)

(** C5, as the code has it: for the table identifier "cloudy", with its
    data file present and well formed, the catalog fields present and the
    rest-frame band inside the table's range, [calculate_xray_emissivity]
    returns an [erg*cm**3/s] array with one entry per cell; for every other
    identifier, "apec" included, it returns [None]. *)
Theorem C5_returns_array_for_cloudy :
  (forall (env : Env) (data : Catalog) (temperature_model : string)
          (e_min e_max : Q) (use_metallicity : bool) (z : Q)
          (data_dir : option string) (path : string) (f : H5File)
          (am : ndarray) (N : nat),
      let lo := e_min * (1 + z) in
      let hi := e_max * (1 + z) in
      In "lognH"%string (names data) ->
      In temperature_model (names data) ->
      In "gas_metallicity_host"%string (names data) ->
      _get_data_file env "cloudy" data_dir = Return path ->
      h5_open env path = Some f ->
      h5_emissivity_metals f = Some am ->
      file_ok f N ->
      nth 0 (h5_E f) 0 <= lo -> lo <= hi -> hi < nth N (h5_E f) 0 ->
      exists arr,
        calculate_xray_emissivity fl erg_per_keV log10q pow10q unilinear_at
          bilinear_at env data temperature_model e_min e_max use_metallicity
          z "cloudy" data_dir = Return (Some arr) /\
        length (values arr) = length (cells data) /\
        units arr = "erg*cm**3/s"%string)
  /\
  (forall (env : Env) (data : Catalog) (temperature_model : string)
          (e_min e_max : Q) (use_metallicity : bool) (z : Q)
          (table_type : string) (data_dir : option string),
      table_type <> "cloudy"%string ->
      calculate_xray_emissivity fl erg_per_keV log10q pow10q unilinear_at
        bilinear_at env data temperature_model e_min e_max use_metallicity z
        table_type data_dir = Return None).
Proof.
  split.
  - intros env data temperature_model e_min e_max use_metallicity z
      data_dir path f am N lo hi Hn HT HZ Hfile Hopen Hmet Hok H0 Hlh HN.
    destruct (calculate_cloudy fl erg_per_keV log10q pow10q unilinear_at
                bilinear_at env data temperature_model e_min e_max
                use_metallicity z data_dir path f am N)
      as (self & em_0 & em_Z & Hinit & H1 & H3 & Hcalc); try assumption.
    eexists. split; [exact Hcalc|]. split; [|reflexivity].
    simpl. apply length_map.
  - intros env data temperature_model e_min e_max use_metallicity z
      table_type data_dir Hne.
    unfold calculate_xray_emissivity.
    destruct (String.eqb_spec table_type "cloudy") as [Heq|_];
      [contradiction|reflexivity].
Qed.

End FieldClaims.

Lemma example_cloudy_file :
  _get_data_file example_env "cloudy" (Some "."%string)
  = Return "./cloudy_emissivity_v2.h5"%string.
Proof. reflexivity. Qed.

Lemma example_apec_file :
  _get_data_file example_env "apec" (Some "."%string)
  = Return "./apec_emissivity_v3.h5"%string.
Proof. reflexivity. Qed.

Lemma example_band :
  nth 0 (h5_E example_file) 0 <= 0.5 * (1 + 0) /\
  0.5 * (1 + 0) <= 2 * (1 + 0) /\
  2 * (1 + 0) < nth 2 (h5_E example_file) 0.
Proof. split; [discriminate|]. split; [discriminate|reflexivity]. Qed.

(** The claim of C4 that no NaN reaches the caller fails: the density of
    the only cell of [nan_catalog] is NaN, the call succeeds with every
    field and the table present, and the returned entry is NaN, whatever
    the numerics. *)
Lemma C4_nan_density_reaches_caller :
  field nan_catalog "lognH" = Return [NaN] /\
  forall (fl : Q -> fval) (erg_per_keV : Q) (log10q pow10q : Q -> fval)
         (unilinear_at : list fval -> Q * Q -> bool -> fval -> fval)
         (bilinear_at :
            list (list fval) -> Q * Q * Q * Q -> bool -> fval -> fval
            -> fval),
    calculate_xray_emissivity fl erg_per_keV log10q pow10q unilinear_at
      bilinear_at example_env nan_catalog "Tvir" 0.5 2 true 0 "cloudy"
      (Some "."%string)
    = Return (Some {| values := [NaN]; units := "erg*cm**3/s" |}).
Proof.
  split; [reflexivity|].
  intros fl erg_per_keV log10q pow10q unilinear_at bilinear_at.
  destruct example_band as (B1 & B2 & B3).
  destruct (calculate_cloudy fl erg_per_keV log10q pow10q unilinear_at
              bilinear_at example_env nan_catalog "Tvir" 0.5 2 true 0
              (Some "."%string) "./cloudy_emissivity_v2.h5" example_file
              (Arr3 [[[1e-24; 2e-24]; [1e-24; 2e-24]; [1e-24; 2e-24]];
                     [[3e-24; 4e-24]; [3e-24; 4e-24]; [3e-24; 4e-24]]])
              2%nat
              (or_introl eq_refl) (or_intror (or_introl eq_refl))
              (or_intror (or_intror (or_introl eq_refl)))
              eq_refl eq_refl eq_refl example_file_ok B1 B2 B3)
    as (self & em_0 & em_Z & _ & _ & _ & Hcalc).
  rewrite Hcalc. reflexivity.
Qed.

Lemma C4_witness :
  exists arr,
    calculate_xray_emissivity Num 1.602176634e-9 (fun _ => NaN) (fun _ => NaN)
      (fun _ _ _ v => v) (fun _ _ _ _ v => v) example_env example_catalog
      "Tvir" 0.5 2 true 0 "cloudy" (Some "."%string)
    = Return (Some arr) /\
    length (values arr) = 2%nat.
Proof.
  destruct example_band as (B1 & B2 & B3).
  destruct (C4_cell_emissivity Num 1.602176634e-9 (fun _ => NaN)
              (fun _ => NaN)
              (fun _ _ _ v => v) (fun _ _ _ _ v => v) example_env
              example_catalog "Tvir" 0.5 2 true 0 (Some "."%string)
              "./cloudy_emissivity_v2.h5" example_file
              (Arr3 [[[1e-24; 2e-24]; [1e-24; 2e-24]; [1e-24; 2e-24]];
                     [[3e-24; 4e-24]; [3e-24; 4e-24]; [3e-24; 4e-24]]])
              2%nat
              (or_introl eq_refl) (or_intror (or_introl eq_refl))
              (or_intror (or_intror (or_intror (or_introl eq_refl))))
              eq_refl eq_refl eq_refl example_file_ok B1 B2 B3)
    as (self & em_0 & em_Z & _ & _ & _ & Hcalc & _).
  eexists. split; [exact Hcalc|reflexivity].
Defined.

(** The zeroing of a NaN and an overflowing normalization: both cells of
    [overflow_catalog] have a NaN temperature, so their sums are NaN and are
    replaced by 0; the first cell's normalization overflows to an infinity
    and its entry is [inf * 0], NaN, while the second cell's entry is 0. *)
Example overflowing_norm_gives_nan :
  exists v,
    calculate_xray_emissivity fl_range 1.602176634e-9 (fun _ => NaN)
      pow10_floor (fun _ _ _ v => v) (fun _ _ _ _ v => v) example_env
      overflow_catalog "Tvir" 0.5 2 false 0 "cloudy" (Some "."%string)
    = Return (Some {| values := [NaN; Num v]; units := "erg*cm**3/s" |}) /\
    v == 0.
Proof. eexists. split; [vm_compute; reflexivity|reflexivity]. Qed.

(** The claim of C5 fails for "apec": with the apec file present and
    readable the call returns [None], whatever the numerics. *)
Lemma C5_apec_returns_None :
  _get_data_file example_env "apec" (Some "."%string)
    = Return "./apec_emissivity_v3.h5"%string /\
  h5_open example_env "./apec_emissivity_v3.h5" = Some example_file /\
  file_ok example_file 2 /\
  forall (fl : Q -> fval) (erg_per_keV : Q) (log10q pow10q : Q -> fval)
         (unilinear_at : list fval -> Q * Q -> bool -> fval -> fval)
         (bilinear_at :
            list (list fval) -> Q * Q * Q * Q -> bool -> fval -> fval
            -> fval),
    calculate_xray_emissivity fl erg_per_keV log10q pow10q unilinear_at
      bilinear_at example_env example_catalog "Tvir" 0.5 2 true 0 "apec"
      (Some "."%string)
    = Return None.
Proof.
  split; [reflexivity|]. split; [reflexivity|].
  split; [exact example_file_ok|]. intros. reflexivity.
Qed.

Lemma C5_witness :
  (exists arr,
      calculate_xray_emissivity Num 1.602176634e-9 (fun _ => NaN) (fun _ => NaN)
        (fun _ _ _ v => v) (fun _ _ _ _ v => v) example_env example_catalog
        "T_DF" 0.5 2 false 0 "cloudy" (Some "."%string)
      = Return (Some arr) /\
      length (values arr) = length (cells example_catalog) /\
      units arr = "erg*cm**3/s"%string)
  /\
  calculate_xray_emissivity Num 1.602176634e-9 (fun _ => NaN) (fun _ => NaN)
    (fun _ _ _ v => v) (fun _ _ _ _ v => v) example_env example_catalog
    "T_DF" 0.5 2 false 0 "apec" (Some "."%string)
  = Return None.
Proof.
  destruct example_band as (B1 & B2 & B3).
  destruct (C5_returns_array_for_cloudy Num 1.602176634e-9 (fun _ => NaN)
              (fun _ => NaN) (fun _ _ _ v => v) (fun _ _ _ _ v => v))
    as (Cloudy & Other).
  split.
  - exact (Cloudy example_env example_catalog "T_DF"%string 0.5 2 false 0
             (Some "."%string) "./cloudy_emissivity_v2.h5"%string
             example_file
             (Arr3 [[[1e-24; 2e-24]; [1e-24; 2e-24]; [1e-24; 2e-24]];
                    [[3e-24; 4e-24]; [3e-24; 4e-24]; [3e-24; 4e-24]]])
             2%nat
             (or_introl eq_refl)
             (or_intror (or_intror (or_introl eq_refl)))
             (or_intror (or_intror (or_intror (or_introl eq_refl))))
             eq_refl eq_refl eq_refl example_file_ok B1 B2 B3).
  - apply Other. discriminate.
Defined.

(** ** Objects of a store that grows *)

Lemma nth_error_old {A : Type} (s ext : list A) (p : nat) (b : A) :
  nth_error s p = Some b -> nth_error (s ++ ext) p = Some b.
Proof.
  intros H. rewrite nth_error_app1; [exact H|].
  apply nth_error_Some. congruence.
Qed.

Lemma array_ok_app (s ext : Store.store) (a : Store.array) :
  Store.array_ok s a -> Store.array_ok (s ++ ext) a.
Proof.
  intros (l & Hl & Hw). exists l. split; [|exact Hw].
  apply nth_error_old. exact Hl.
Qed.

Lemma cube_ok_app (s ext : Store.store) (p : nat) :
  Store.cube_ok s p -> Store.cube_ok (s ++ ext) p.
Proof.
  intros (a & Ha). exists a. apply nth_error_old. exact Ha.
Qed.

Lemma elems_app (s ext : Store.store) (a : Store.array) :
  Store.array_ok s a -> Store.elems (s ++ ext) a = Store.elems s a.
Proof.
  intros (l & Hl & _). unfold Store.elems, Store.floats.
  rewrite (nth_error_old s ext _ _ Hl), Hl. reflexivity.
Qed.

Lemma cube_app (s ext : Store.store) (p : nat) :
  Store.cube_ok s p -> Store.cube (s ++ ext) p = Store.cube s p.
Proof.
  intros (a & Ha). unfold Store.cube.
  rewrite (nth_error_old s ext _ _ Ha), Ha. reflexivity.
Qed.

Lemma object_ok_app (s ext : Store.store) (self : Store.Integrator) :
  Store.object_ok s self -> Store.object_ok (s ++ ext) self.
Proof.
  intros [H1 H2 H3 H4 H5 H6 H7]. constructor;
    try (apply array_ok_app; assumption).
  - apply cube_ok_app; assumption.
  - intros a Ha. apply array_ok_app. apply H3. exact Ha.
  - intros p Hp. apply cube_ok_app. apply H4. exact Hp.
Qed.

Lemma snapshot_app (s ext : Store.store) (self : Store.Integrator) :
  Store.object_ok s self ->
  Store.snapshot (s ++ ext) self = Store.snapshot s self.
Proof.
  intros [H1 H2 H3 H4 H5 H6 H7]. unfold Store.snapshot.
  rewrite !elems_app by assumption. rewrite cube_app by assumption.
  f_equal.
  - destruct (Store.log_nH self) as [a|]; [|reflexivity]. simpl.
    rewrite elems_app; [reflexivity|]. apply H3. reflexivity.
  - destruct (Store.emissivity_metals self) as [p|]; [|reflexivity]. simpl.
    rewrite cube_app; [reflexivity|]. apply H4. reflexivity.
Qed.

Lemma elems_length (s : Store.store) (a : Store.array) :
  Store.array_ok s a -> length (Store.elems s a) = Store.size a.
Proof.
  intros (l & Hl & Hw). unfold Store.elems, Store.floats. rewrite Hl.
  rewrite length_firstn, length_skipn. lia.
Qed.

Lemma firstn_skipn_window {A : Type} (l : list A) (o n i m : nat) :
  (i + m <= n)%nat ->
  firstn m (skipn i (firstn n (skipn o l))) = firstn m (skipn (o + i) l).
Proof.
  intros H. rewrite skipn_firstn_comm, firstn_firstn, skipn_skipn.
  rewrite Nat.min_l by lia. f_equal. f_equal. lia.
Qed.

(** A basic slice shows the slice of what the array shows. *)
Lemma elems_slice_view (s : Store.store) (a : Store.array) (i j : Z) :
  Store.elems s (Store.slice_view a i j) = slice (Store.elems s a) i j
  \/ ~ Store.array_ok s a.
Proof.
  destruct (nth_error s (Store.buf a)) as [[l|c]|] eqn:Hb;
    try (right; intros (l' & Hl' & _); congruence).
  destruct (le_lt_dec (Store.off a + Store.size a) (length l)) as [Hw|Hw];
    [left|right; intros (l' & Hl' & Hw'); rewrite Hb in Hl';
      inversion Hl'; subst; lia].
  assert (Hlen : length (Store.elems s a) = Store.size a).
  { apply elems_length. exists l. auto. }
  unfold slice. rewrite Hlen.
  unfold Store.elems, Store.slice_view, Store.floats. simpl. rewrite Hb.
  set (n := Z.of_nat (Store.size a)).
  assert (Hi : (0 <= slice_bound n i <= n)%Z)
    by (unfold slice_bound; destruct (Z.ltb_spec i 0); lia).
  assert (Hj : (0 <= slice_bound n j <= n)%Z)
    by (unfold slice_bound; destruct (Z.ltb_spec j 0); lia).
  destruct (Z_le_gt_dec (slice_bound n i) (slice_bound n j)) as [Hij|Hij].
  - symmetry. apply firstn_skipn_window. lia.
  - replace (Z.to_nat (slice_bound n j - slice_bound n i)) with O by lia.
    reflexivity.
Qed.

(** ** Running on the store computes the functional value *)

Lemma bindM_lift {A B : Type} (f : Store.store -> result A)
  (k : A -> Store.M B) (s : Store.store) :
  Store.bindM (Store.lift f) k s
  = match f s with
    | Return a => k a s
    | Raise e => (Raise e, s)
    end.
Proof.
  unfold Store.bindM, Store.lift. destruct (f s); reflexivity.
Qed.

Lemma floats_fresh (s : Store.store) (l : list Q) :
  Store.floats (s ++ [Store.Floats l]) (length s) = l.
Proof.
  unfold Store.floats. rewrite nth_error_app2 by lia.
  rewrite Nat.sub_diag. reflexivity.
Qed.

Lemma elems_fresh (s : Store.store) (l : list Q) :
  Store.elems (s ++ [Store.Floats l])
    {| Store.buf := length s; Store.off := 0; Store.size := length l |} = l.
Proof.
  unfold Store.elems. simpl. rewrite floats_fresh. apply firstn_all.
Qed.

Lemma set_buffer_fresh (s : Store.store) (b b' : Store.buffer) :
  Store.set_buffer (s ++ [b]) (length s) b' = s ++ [b'].
Proof.
  induction s as [|c s IH]; simpl; [reflexivity|]. rewrite IH. reflexivity.
Qed.

(** An in-place subtraction on a freshly allocated array rewrites that
    buffer, and nothing else. *)
Lemma isub_fresh (s : Store.store) (l : list Q) (n : nat) (i : Z) (x : Q) :
  length l = n ->
  Store.isub {| Store.buf := length s; Store.off := 0; Store.size := n |}
    i x (s ++ [Store.Floats l])
  = match isub l i x with
    | Return l' => (Return tt, s ++ [Store.Floats l'])
    | Raise e => (Raise e, s ++ [Store.Floats l])
    end.
Proof.
  intros Hn. unfold Store.isub, isub. simpl. rewrite Hn.
  destruct ((0 <=? py_index (Z.of_nat n) i)
            && (py_index (Z.of_nat n) i <? Z.of_nat n))%Z;
    [|reflexivity].
  rewrite floats_fresh, set_buffer_fresh. reflexivity.
Qed.

Lemma isub_length (l l' : list Q) (i : Z) (x : Q) :
  isub l i x = Return l' -> length l' = length l.
Proof.
  unfold isub. destruct (_ && _)%bool; [|discriminate].
  intros H. inversion H. apply set_nth_length.
Qed.

Lemma getattr_run (s : Store.store) (self : Store.Integrator)
  (data_type : string) :
  Store.object_ok s self ->
  match getattr_emissivity (Store.snapshot s self) data_type with
  | Return data =>
      exists p, Store.getattr_emissivity self data_type s = (Return p, s) /\
                Store.cube s p = data /\ Store.cube_ok s p
  | Raise e => Store.getattr_emissivity self data_type s = (Raise e, s)
  end.
Proof.
  intros Hobj. unfold getattr_emissivity, Store.getattr_emissivity.
  destruct (String.eqb data_type "primordial").
  - exists (Store.emissivity_primordial self). repeat split.
    apply (Store.obj_primordial _ _ Hobj).
  - destruct (String.eqb data_type "metals"); [|reflexivity].
    simpl. destruct (Store.emissivity_metals self) as [p|] eqn:Hp; simpl.
    + exists p. repeat split. apply (Store.obj_metals _ _ Hobj). exact Hp.
    + reflexivity.
Qed.

Lemma load_data_run (s : Store.store) (self : Store.Integrator)
  (data_type : string) (energy : bool) :
  Store.object_ok s self ->
  match load_data (Store.snapshot s self) data_type energy with
  | Return data =>
      exists p ext,
        Store.load_data self data_type energy s = (Return p, s ++ ext) /\
        Store.cube (s ++ ext) p = data /\ Store.cube_ok (s ++ ext) p
  | Raise e => Store.load_data self data_type energy s = (Raise e, s)
  end.
Proof.
  intros Hobj. pose proof (getattr_run s self data_type Hobj) as Hget.
  unfold load_data, Store.load_data, Store.bindM.
  destruct (getattr_emissivity (Store.snapshot s self) data_type)
    as [data|e]; cbn [bind].
  - destruct Hget as (p & Hrun & Hp & Hok). rewrite Hrun.
    destruct energy.
    + exists p, []. rewrite app_nil_r. auto.
    + unfold Store.true_divide. rewrite Hp. simpl emid.
      destruct (along_rows _ data) as [a|e]; [|reflexivity].
      exists (length s), [Store.Cube a]. unfold Store.alloc.
      split; [reflexivity|]. unfold Store.cube, Store.cube_ok.
      rewrite nth_error_app2 by lia. rewrite Nat.sub_diag. simpl.
      split; [reflexivity|]. exists a. reflexivity.
  - rewrite Hget. reflexivity.
Qed.

Lemma elems_fresh_sized (s : Store.store) (l : list Q) (n : nat) :
  length l = n ->
  Store.elems (s ++ [Store.Floats l])
    {| Store.buf := length s; Store.off := 0; Store.size := n |} = l.
Proof. intros <-. apply elems_fresh. Qed.

Lemma integrate_band_run (s : Store.store) (self : Store.Integrator)
  (p : nat) (e_min e_max : Q) :
  Store.object_ok s self -> Store.cube_ok s p ->
  exists ext,
    Store.integrate_band self p e_min e_max s
    = (integrate_band (Store.snapshot s self) (Store.cube s p) e_min e_max,
       s ++ ext).
Proof.
  intros Hobj Hp.
  pose proof (Store.obj_ebin _ _ Hobj) as Hebin.
  pose proof (Store.obj_dE _ _ Hobj) as HdE.
  unfold Store.integrate_band, integrate_band.
  simpl ebin. simpl redshift. simpl dE.
  rewrite (elems_length s _ Hebin).
  set (E := Store.elems s (Store.ebin self)).
  set (lo := e_min * (1 + Store.redshift self)).
  set (hi := e_max * (1 + Store.redshift self)).
  unfold Store.getitem, Store.digitize.
  rewrite bindM_lift. fold E.
  destruct (getitem E 0) as [lower|e]; cbn [bind];
    [|exists []; rewrite app_nil_r; reflexivity].
  rewrite bindM_lift. fold E.
  destruct (getitem E (-1)) as [upper|e]; cbn [bind];
    [|exists []; rewrite app_nil_r; reflexivity].
  destruct (quot_lt (lo - lower) lo (- (1 # 1000))
            || quot_gt (hi - upper) hi (1 # 1000));
    [exists []; rewrite app_nil_r; reflexivity|].
  rewrite bindM_lift. fold E.
  destruct (digitize lo E) as [d_is|e]; cbn [bind];
    [|exists []; rewrite app_nil_r; reflexivity].
  rewrite bindM_lift. fold E.
  destruct (digitize hi E) as [d_ie|e]; cbn [bind];
    [|exists []; rewrite app_nil_r; reflexivity].
  set (e_is := clip (d_is - 1) 0 (Z.of_nat (Store.size (Store.ebin self)) - 1)).
  set (e_ie := clip d_ie 0 (Z.of_nat (Store.size (Store.ebin self)) - 1)).
  unfold Store.bindM at 1. unfold Store.copy.
  destruct (elems_slice_view s (Store.dE self) e_is e_ie) as [Hsl|Hbad];
    [|contradiction].
  rewrite Hsl.
  set (my0 := slice (Store.elems s (Store.dE self)) e_is e_ie).
  rewrite bindM_lift. rewrite (elems_app s _ _ Hebin). fold E.
  destruct (getitem E e_is) as [edge_s|e]; cbn [bind];
    [|exists [Store.Floats my0]; reflexivity].
  unfold Store.bindM at 1. rewrite (isub_fresh s my0) by reflexivity.
  destruct (isub my0 0 (lo - edge_s)) as [my1|e] eqn:H1; cbn [bind];
    [|exists [Store.Floats my0]; reflexivity].
  rewrite bindM_lift. rewrite (elems_app s _ _ Hebin). fold E.
  destruct (getitem E e_ie) as [edge_e|e]; cbn [bind];
    [|exists [Store.Floats my1]; reflexivity].
  unfold Store.bindM at 1.
  rewrite (isub_fresh s my1) by (apply (isub_length _ _ _ _ H1)).
  destruct (isub my1 (-1) (edge_e - hi)) as [my2|e] eqn:H2; cbn [bind];
    [|exists [Store.Floats my1]; reflexivity].
  unfold Store.weighted_sum, Store.lift.
  rewrite (cube_app s _ _ Hp).
  rewrite (elems_fresh_sized s my2)
    by (rewrite (isub_length _ _ _ _ H2); apply (isub_length _ _ _ _ H1)).
  exists [Store.Floats my2]. reflexivity.
Qed.

Section StoreRun.

Variable log10q : Q -> fval.

Lemma make_interpolator_run (s : Store.store) (self : Store.Integrator)
  (surf : surface) :
  Store.make_interpolator log10q self surf s
  = (match surf with
     | Surf1 t =>
         t0 <- getitem (log_T (Store.snapshot s self)) 0 ;;
         t1 <- getitem (log_T (Store.snapshot s self)) (-1) ;;
         Return (UnilinearFieldInterpolator (map log10q t) (t0, t1)
                   "log_T" true)
     | Surf2 t =>
         match log_nH (Store.snapshot s self) with
         | None => Raise AttributeError
         | Some nh =>
             n0 <- getitem nh 0 ;;
             n1 <- getitem nh (-1) ;;
             t0 <- getitem (log_T (Store.snapshot s self)) 0 ;;
             t1 <- getitem (log_T (Store.snapshot s self)) (-1) ;;
             Return (BilinearFieldInterpolator (map (map log10q) t)
                       (n0, n1, t0, t1) ("log_nH"%string, "log_T"%string)
                       true)
         end
     end, s).
Proof.
  unfold Store.make_interpolator, Store.getitem. simpl log_T. simpl log_nH.
  destruct surf as [t|t].
  - rewrite bindM_lift.
    destruct (getitem _ 0) as [t0|e]; cbn [bind]; [|reflexivity].
    rewrite bindM_lift.
    destruct (getitem _ (-1)) as [t1|e]; cbn [bind]; reflexivity.
  - destruct (Store.log_nH self) as [nh|]; [|reflexivity]. simpl.
    rewrite bindM_lift.
    destruct (getitem _ 0) as [n0|e]; cbn [bind]; [|reflexivity].
    rewrite bindM_lift.
    destruct (getitem _ (-1)) as [n1|e]; cbn [bind]; [|reflexivity].
    rewrite bindM_lift.
    destruct (getitem _ 0) as [t0|e]; cbn [bind]; [|reflexivity].
    rewrite bindM_lift.
    destruct (getitem _ (-1)) as [t1|e]; cbn [bind]; reflexivity.
Qed.

(** A call on the store returns the functional value for what the
    attributes show, and only appends buffers to the store. *)
Lemma get_interpolator_run (s : Store.store) (self : Store.Integrator)
  (data_type : string) (e_min e_max : Q) (energy : bool) :
  Store.object_ok s self ->
  exists ext,
    Store.get_interpolator log10q self data_type e_min e_max energy s
    = (get_interpolator log10q (Store.snapshot s self) data_type e_min e_max
         energy, s ++ ext).
Proof.
  intros Hobj. pose proof (load_data_run s self data_type energy Hobj) as Hl.
  unfold Store.get_interpolator, get_interpolator, interp_data.
  unfold Store.bindM at 1.
  destruct (load_data (Store.snapshot s self) data_type energy)
    as [data|e]; cbn [bind].
  - destruct Hl as (p & ext1 & Hrun & Hp & Hok). rewrite Hrun.
    pose proof (object_ok_app s ext1 self Hobj) as Hobj1.
    destruct (integrate_band_run (s ++ ext1) self p e_min e_max Hobj1 Hok)
      as (ext2 & Hband).
    unfold Store.bindM. rewrite Hband.
    rewrite (snapshot_app s ext1 self Hobj), Hp.
    destruct (integrate_band (Store.snapshot s self) data e_min e_max)
      as [surf|e]; cbn [bind].
    + rewrite make_interpolator_run.
      rewrite <- app_assoc.
      rewrite (snapshot_app s (ext1 ++ ext2) self Hobj).
      exists (ext1 ++ ext2). reflexivity.
    + exists (ext1 ++ ext2). rewrite app_assoc. reflexivity.
  - rewrite Hl. exists []. rewrite app_nil_r. reflexivity.
Qed.

End StoreRun.

(** ** The integrator is not modified (C9) *)

Section Frame.

Variable log10q : Q -> fval.

(** C9: a call of [get_interpolator] on an integrator object leaves every
    buffer that existed before the call as it was (the width vector is
    clipped on a fresh copy and the photon-mode division allocates a new
    dataset), so [log_T], [log_nH], [emissivity_primordial],
    [emissivity_metals], [ebin], [dE], [emid] and the redshift show the same
    values after the call as before it; the call returns the value of the
    functional [get_interpolator] on those values, and a second call with
    the same arguments returns the same result. *)
Theorem C9_integrator_unchanged (s : Store.store) (self : Store.Integrator)
  (data_type : string) (e_min e_max : Q) (energy : bool) :
  Store.object_ok s self ->
  let run := Store.get_interpolator log10q self data_type e_min e_max energy in
  (forall p b, nth_error s p = Some b -> nth_error (snd (run s)) p = Some b)
  /\ Store.snapshot (snd (run s)) self = Store.snapshot s self
  /\ fst (run s)
     = get_interpolator log10q (Store.snapshot s self) data_type e_min e_max
         energy
  /\ fst (run (snd (run s))) = fst (run s).
Proof.
  intros Hobj run.
  destruct (get_interpolator_run log10q s self data_type e_min e_max energy
              Hobj) as (ext & Hrun).
  fold run in Hrun. rewrite Hrun. cbn [fst snd].
  pose proof (object_ok_app s ext self Hobj) as Hobj'.
  destruct (get_interpolator_run log10q (s ++ ext) self data_type e_min
              e_max energy Hobj') as (ext' & Hrun').
  fold run in Hrun'. rewrite Hrun'. cbn [fst].
  repeat split.
  - intros p b Hb. apply nth_error_old. exact Hb.
  - apply snapshot_app. exact Hobj.
  - rewrite (snapshot_app s ext self Hobj). reflexivity.
Qed.

End Frame.

Lemma example_object_ok : Store.object_ok example_store example_object.
Proof.
  constructor; simpl; try discriminate;
    try (eexists; split; [reflexivity|simpl; lia]).
  eexists. reflexivity.
Qed.

Lemma C9_witness :
  Store.snapshot
    (snd (Store.get_interpolator (fun _ => NaN) example_object "primordial"
            0.5 5 false example_store)) example_object
  = Store.snapshot example_store example_object.
Proof.
  exact (proj1 (proj2 (C9_integrator_unchanged (fun _ => NaN) example_store
                         example_object "primordial" 0.5 5 false
                         example_object_ok))).
Defined.

(** The store tells a view from a copy: the same subtraction made through
    the view [self.dE[0:2]], without [.copy()], changes what [self.dE]
    shows. *)
Example write_through_view_changes_dE :
  dE (Store.snapshot
        (snd (Store.isub (Store.slice_view (Store.dE example_object) 0 2) 0
                (1 # 2) example_store)) example_object)
  <> dE (Store.snapshot example_store example_object).
Proof. vm_compute. discriminate. Qed.

(** * Further properties of the script *)

(** ** Locating the data file *)

Lemma lookup_data_version (t : string) :
  lookup t data_version
  = if String.eqb t "cloudy" then Some 2%nat
    else if String.eqb t "apec" then Some 3%nat else None.
Proof. reflexivity. Qed.

(** X1: a path returned by [_get_data_file] exists, and it is the versioned
    file name of the table type, [cloudy_emissivity_v2.h5] or
    [apec_emissivity_v3.h5], joined to a directory. *)
Theorem X1_data_file_found (env : Env) (t : string) (d : option string)
  (p : string) :
  _get_data_file env t d = Return p ->
  path_exists env p = true /\
  ((t = "cloudy"%string /\
    exists dir, p = path_join dir "cloudy_emissivity_v2.h5") \/
   (t = "apec"%string /\
    exists dir, p = path_join dir "apec_emissivity_v3.h5")).
Proof.
  unfold _get_data_file. rewrite lookup_data_version.
  destruct (String.eqb_spec t "cloudy") as [->|_];
    [|destruct (String.eqb_spec t "apec") as [->|_]; [|discriminate]].
  - match goal with |- context [path_exists env ?q] =>
      destruct (path_exists env q) eqn:Hq end; [|discriminate].
    intros H. inversion H; subst. split; [exact Hq|]. left.
    split; [reflexivity|]. eexists. reflexivity.
  - match goal with |- context [path_exists env ?q] =>
      destruct (path_exists env q) eqn:Hq end; [|discriminate].
    intros H. inversion H; subst. split; [exact Hq|]. right.
    split; [reflexivity|]. eexists. reflexivity.
Qed.

Lemma X1_witness :
  path_exists example_env "./cloudy_emissivity_v2.h5" = true /\
  ((("cloudy" = "cloudy")%string /\
    exists dir, "./cloudy_emissivity_v2.h5"%string
                = path_join dir "cloudy_emissivity_v2.h5") \/
   (("cloudy" = "apec")%string /\
    exists dir, "./cloudy_emissivity_v2.h5"%string
                = path_join dir "apec_emissivity_v3.h5")).
Proof.
  exact (X1_data_file_found example_env "cloudy" (Some "."%string)
           "./cloudy_emissivity_v2.h5" eq_refl).
Defined.

(** X2: a table type other than "cloudy" and "apec" has no entry in
    [data_version]: [_get_data_file] raises [KeyError], whatever the machine
    and the directory, and so does the constructor of the integrator. *)
Theorem X2_unknown_table_type (erg_per_keV : Q) (env : Env) (t : string)
  (d : option string) (z : Q) (use_metals : bool) :
  t <> "cloudy"%string -> t <> "apec"%string ->
  _get_data_file env t d = Raise KeyError /\
  __init__ erg_per_keV env t z d use_metals = Raise KeyError.
Proof.
  intros Hc Ha.
  assert (H : _get_data_file env t d = Raise KeyError).
  { unfold _get_data_file. rewrite lookup_data_version.
    destruct (String.eqb_spec t "cloudy"); [contradiction|].
    destruct (String.eqb_spec t "apec"); [contradiction|]. reflexivity. }
  split; [exact H|]. unfold __init__. rewrite H. reflexivity.
Qed.

Lemma X2_witness :
  _get_data_file example_env "mekal" None = Raise KeyError /\
  __init__ 1.602176634e-9 example_env "mekal" 0 None true = Raise KeyError.
Proof.
  apply X2_unknown_table_type; discriminate.
Defined.

(** X3: when the data file of a known table type is not at the path looked
    up, [_get_data_file] raises [OSError] with a message that names the file
    and the download URL, and the constructor of the integrator passes that
    error on without opening anything. *)
Theorem X3_missing_data_file (erg_per_keV : Q) (env : Env) (t : string)
  (dir : string) (version : nat) (z : Q) (use_metals : bool) :
  lookup t data_version = Some version ->
  path_exists env (path_join dir (data_file_name t version)) = false ->
  let msg := ("Failed to find emissivity data file "
              ++ data_file_name t version
              ++ "! Please download from http://yt-project.org/data")%string in
  _get_data_file env t (Some dir) = Raise (OSError msg) /\
  __init__ erg_per_keV env t z (Some dir) use_metals = Raise (OSError msg).
Proof.
  intros Hv Hp msg.
  assert (H : _get_data_file env t (Some dir) = Raise (OSError msg)).
  { unfold _get_data_file. rewrite Hv, Hp. reflexivity. }
  split; [exact H|]. unfold __init__. rewrite H. reflexivity.
Qed.

Lemma X3_witness :
  _get_data_file example_env "cloudy" (Some "/data"%string)
  = Raise (OSError "Failed to find emissivity data file cloudy_emissivity_v2.h5! Please download from http://yt-project.org/data").
Proof.
  exact (proj1 (X3_missing_data_file 1.602176634e-9 example_env "cloudy"
                  "/data" 2%nat 0 true eq_refl eq_refl)).
Defined.

(** ** The constructor *)

Lemma init_fields (erg_per_keV : Q) (env : Env) (t : string) (z : Q)
  (d : option string) (use_metals : bool) (path : string) (f : H5File)
  (self : XrayEmissivityIntegrator) :
  _get_data_file env t d = Return path -> h5_open env path = Some f ->
  __init__ erg_per_keV env t z d use_metals = Return self ->
  self = {| log_T := h5_log_T f;
            emissivity_primordial := h5_emissivity_primordial f;
            log_nH := h5_log_nH f;
            emissivity_metals :=
              if use_metals then h5_emissivity_metals f else None;
            ebin := h5_E f;
            dE := diff (h5_E f);
            emid := midpoints erg_per_keV (h5_E f);
            redshift := z |}.
Proof.
  intros Hfile Hopen. unfold __init__. rewrite Hfile. cbn [bind].
  rewrite Hopen. destruct use_metals.
  - destruct (h5_emissivity_metals f); [|discriminate].
    cbn [bind]. intros H. inversion H. reflexivity.
  - cbn [bind]. intros H. inversion H. reflexivity.
Qed.

(** X4: an integrator that [__init__] builds from a well-formed table file
    with [N] energy bins satisfies the table invariants: it holds the file's
    edges and the given redshift, [N] bin widths and [N] midpoints, all of
    them positive, and datasets with [N] entries along the energy axis. *)
Theorem X4_init_invariants (erg_per_keV : Q) (env : Env) (t : string)
  (z : Q) (d : option string) (use_metals : bool) (path : string)
  (f : H5File) (N : nat) (self : XrayEmissivityIntegrator) :
  _get_data_file env t d = Return path -> h5_open env path = Some f ->
  file_ok f N -> 0 < erg_per_keV ->
  __init__ erg_per_keV env t z d use_metals = Return self ->
  table_ok self N /\
  ebin self = h5_E f /\ redshift self = z /\
  length (dE self) = N /\ length (emid self) = N /\
  forall i, (i < N)%nat ->
    0 < nth i (dE self) 0 /\ 0 < nth i (emid self) 0.
Proof.
  intros Hfile Hopen Hok Hk Hinit.
  rewrite (init_fields _ _ _ _ _ _ _ _ _ Hfile Hopen Hinit).
  pose proof (fok_size _ _ Hok) as HE.
  pose proof (fok_increasing _ _ Hok) as Hinc.
  pose proof (fok_nonneg _ _ Hok) as Hpos.
  repeat split; simpl; try apply Hok.
  - intros a Ha. apply (fok_metals _ _ Hok).
    destruct use_metals; [exact Ha|discriminate].
  - rewrite diff_length. lia.
  - rewrite midpoints_length. lia.
  - rewrite diff_nth by lia.
    assert (nth i (h5_E f) 0 < nth (S i) (h5_E f) 0)
      by (apply increasing_nth; [exact Hinc|lia]).
    lra.
  - rewrite midpoints_nth by lia.
    assert (nth 0 (h5_E f) 0 <= nth i (h5_E f) 0)
      by (apply increasing_nth_le; [exact Hinc|lia]).
    assert (nth i (h5_E f) 0 < nth (S i) (h5_E f) 0)
      by (apply increasing_nth; [exact Hinc|lia]).
    apply Qmult_lt_0_compat; [reflexivity|].
    apply Qmult_lt_0_compat; [lra|exact Hk].
Qed.

Lemma X4_witness :
  exists self,
    __init__ 1.602176634e-9 example_env "cloudy" 0 (Some "."%string) true
      = Return self /\
    table_ok self 2 /\ length (emid self) = 2%nat.
Proof.
  eexists. split; [reflexivity|].
  destruct (X4_init_invariants 1.602176634e-9 example_env "cloudy" 0
              (Some "."%string) true "./cloudy_emissivity_v2.h5"
              example_file 2%nat _ eq_refl eq_refl example_file_ok eq_refl
              eq_refl) as (Hok & _ & _ & _ & Hmid & _).
  split; [exact Hok|exact Hmid].
Defined.

(** ** Attribute errors *)

(** X5: [get_interpolator] raises [AttributeError] for a [data_type] that is
    neither "primordial" nor "metals", and for "metals" on an integrator
    that holds no metal table; an integrator built with [use_metals] false
    holds none, so it refuses "metals". *)
Theorem X5_attribute_errors :
  (forall (log10q : Q -> fval) (self : XrayEmissivityIntegrator)
          (data_type : string) (e_min e_max : Q) (energy : bool),
      data_type <> "primordial"%string ->
      data_type <> "metals"%string \/ emissivity_metals self = None ->
      get_interpolator log10q self data_type e_min e_max energy
      = Raise AttributeError)
  /\
  (forall (erg_per_keV : Q) (log10q : Q -> fval) (env : Env) (t : string)
          (z : Q) (d : option string) (self : XrayEmissivityIntegrator)
          (e_min e_max : Q) (energy : bool),
      __init__ erg_per_keV env t z d false = Return self ->
      get_interpolator log10q self "metals" e_min e_max energy
      = Raise AttributeError).
Proof.
  assert (General :
    forall (log10q : Q -> fval) (self : XrayEmissivityIntegrator)
           (data_type : string) (e_min e_max : Q) (energy : bool),
      data_type <> "primordial"%string ->
      data_type <> "metals"%string \/ emissivity_metals self = None ->
      get_interpolator log10q self data_type e_min e_max energy
      = Raise AttributeError).
  { intros log10q self data_type e_min e_max energy Hp Hm.
    apply get_interpolator_raise. unfold interp_data, load_data.
    assert (Hget : getattr_emissivity self data_type = Raise AttributeError).
    { unfold getattr_emissivity.
      destruct (String.eqb_spec data_type "primordial"); [contradiction|].
      destruct (String.eqb_spec data_type "metals"); [|reflexivity].
      destruct Hm as [Hm|Hm]; [contradiction|]. rewrite Hm. reflexivity. }
    rewrite Hget. reflexivity. }
  split; [exact General|].
  intros erg_per_keV log10q env t z d self e_min e_max energy Hinit.
  apply General; [discriminate|]. right.
  unfold __init__ in Hinit.
  destruct (_get_data_file env t d) as [path|]; [|discriminate].
  cbn [bind] in Hinit. destruct (h5_open env path) as [f|]; [|discriminate].
  cbn [bind] in Hinit. inversion Hinit. reflexivity.
Qed.

Lemma X5_witness :
  get_interpolator (fun _ => NaN) example_table "metals" 0.5 5 true
  = Raise AttributeError /\
  get_interpolator (fun _ => NaN) example_table "helium" 0.5 5 true
  = Raise AttributeError /\
  exists self,
    __init__ 1.602176634e-9 example_env "cloudy" 0 (Some "."%string) false
    = Return self /\
    get_interpolator (fun _ => NaN) self "metals" 0.5 5 true
    = Raise AttributeError.
Proof.
  split; [|split].
  - apply (proj1 X5_attribute_errors); [discriminate|right; reflexivity].
  - apply (proj1 X5_attribute_errors); [discriminate|left; discriminate].
  - eexists. split; [reflexivity|].
    apply (proj2 X5_attribute_errors 1.602176634e-9 (fun _ => NaN)
             example_env "cloudy"%string 0 (Some "."%string)).
    reflexivity.
Defined.

(** ** The interpolator that is built *)

Lemma getitem_ends_inv (l : list Q) :
  (forall x, getitem l 0 = Return x -> x = nth 0 l 0) /\
  (forall x, getitem l (-1) = Return x -> x = nth (length l - 1) l 0).
Proof.
  destruct l as [|a l].
  - split; intros x H; discriminate H.
  - destruct (getitem_ends (a :: l)) as [H0 H1]; [discriminate|].
    rewrite H0, H1. split; intros x H; inversion H; reflexivity.
Qed.

Lemma mapM_Forall2 {A B : Type} (f : A -> result B) (l : list A)
  (r : list B) :
  mapM f l = Return r -> Forall2 (fun a b => f a = Return b) l r.
Proof.
  revert r. induction l as [|a l IH]; intros r H; simpl in H.
  - inversion H. constructor.
  - destruct (f a) as [b|e] eqn:Hb; [|discriminate]. cbn [bind] in H.
    destruct (mapM f l) as [r'|e]; [|discriminate]. cbn [bind] in H.
    inversion H. constructor; [exact Hb|]. apply IH. reflexivity.
Qed.

Lemma along_rows_grid (f : list Q -> result (list Q)) (a p : ndarray) :
  along_rows f a = Return p -> same_grid a (sum_last p).
Proof.
  unfold same_grid.
  destruct a as [rows|planes]; simpl; intros H.
  - destruct (mapM f rows) as [r|e] eqn:Hr; [|discriminate].
    cbn [bind] in H. inversion H; subst p. simpl.
    apply mapM_Forall2 in Hr. clear H.
    induction Hr; simpl; constructor; auto.
  - destruct (mapM (mapM f) planes) as [r|e] eqn:Hr; [|discriminate].
    cbn [bind] in H. inversion H; subst p. simpl.
    apply mapM_Forall2 in Hr. clear H.
    induction Hr as [|rows r0 planes' r' Hrow Hr IH]; simpl; constructor;
      [|exact IH].
    apply mapM_Forall2 in Hrow. clear Hr IH.
    induction Hrow; simpl; constructor; auto.
Qed.

(** The next step [m] of [x <- m ;; k] in a run that returns. *)
Ltac bind_inv H :=
  match type of H with
  | bind ?m _ = Return _ =>
      let v := fresh "v" in
      let Hv := fresh "Hv" in
      destruct m as [v|] eqn:Hv; cbn [bind] in H; [|discriminate H]
  end.

Lemma integrate_band_grid (self : XrayEmissivityIntegrator) (data : ndarray)
  (e_min e_max : Q) (surf : surface) :
  integrate_band self data e_min e_max = Return surf -> same_grid data surf.
Proof.
  unfold integrate_band. intros H.
  bind_inv H. bind_inv H.
  match type of H with
  | (if ?c then _ else _) = _ => destruct c; [discriminate H|]
  end.
  bind_inv H. bind_inv H. bind_inv H. bind_inv H. bind_inv H. bind_inv H.
  bind_inv H. inversion H. eapply along_rows_grid. eassumption.
Qed.

Section Built.

Variable log10q : Q -> fval.

(** X6: an interpolator that [get_interpolator] returns is built over the
    band-integrated surface, which has one entry per grid node of the
    dataset: the table is [log10] of the surface, the boundaries are the
    first and last entries of [log_T] (and of [log_nH] over a
    three-dimensional dataset), the fields read are "log_T" (and "log_nH"),
    and [truncate] is on. *)
Theorem X6_interpolator_structure (self : XrayEmissivityIntegrator)
  (data_type : string) (e_min e_max : Q) (energy : bool) (data : ndarray)
  (f : FieldInterpolator) :
  load_data self data_type energy = Return data ->
  get_interpolator log10q self data_type e_min e_max energy = Return f ->
  exists surf,
    interp_data self data_type e_min e_max energy = Return surf /\
    same_grid data surf /\
    built_over log10q self surf f /\
    reads_grid f.
Proof.
  intros Hload Hget. unfold get_interpolator in Hget.
  destruct (interp_data self data_type e_min e_max energy) as [surf|e]
    eqn:Hsurf; [|discriminate Hget].
  cbn [bind] in Hget. exists surf. split; [reflexivity|]. split.
  - unfold interp_data in Hsurf. rewrite Hload in Hsurf.
    cbn [bind] in Hsurf. eapply integrate_band_grid. exact Hsurf.
  - destruct surf as [s|s]; simpl.
    + bind_inv Hget. bind_inv Hget. inversion Hget; subst f.
      apply (proj1 (getitem_ends_inv _)) in Hv.
      apply (proj2 (getitem_ends_inv _)) in Hv0. subst v v0.
      split; [reflexivity|]. split; reflexivity.
    + destruct (log_nH self) as [nh|]; [|discriminate Hget].
      bind_inv Hget. bind_inv Hget. bind_inv Hget. bind_inv Hget.
      inversion Hget; subst f.
      apply (proj1 (getitem_ends_inv _)) in Hv, Hv1.
      apply (proj2 (getitem_ends_inv _)) in Hv0, Hv2. subst v v0 v1 v2.
      split; [exists nh; split; reflexivity|]. repeat split; reflexivity.
Qed.

End Built.

Lemma X6_witness :
  exists surf,
    interp_data example_table "primordial" 0.5 5 true = Return surf /\
    same_grid (emissivity_primordial example_table) surf /\
    built_over (fun _ => NaN) example_table surf
      (UnilinearFieldInterpolator [NaN; NaN; NaN] (6, 8) "log_T" true).
Proof.
  destruct (X6_interpolator_structure (fun _ => NaN) example_table
              "primordial" 0.5 5 true (emissivity_primordial example_table)
              (UnilinearFieldInterpolator [NaN; NaN; NaN] (6, 8) "log_T" true)
              eq_refl eq_refl) as (surf & H1 & H2 & H3 & _).
  exists surf. split; [exact H1|]. split; [exact H2|exact H3].
Defined.

(** ** Equal bands have equal integrals *)

Lemma overlap_comp (a b lo lo' hi hi' : Q) :
  lo == lo' -> hi == hi' -> overlap a b lo hi == overlap a b lo' hi'.
Proof. intros H1 H2. unfold overlap. rewrite H1, H2. reflexivity. Qed.

Lemma band_integral_comp (E row : list Q) (lo lo' hi hi' : Q) :
  lo == lo' -> hi == hi' ->
  band_integral E row lo hi == band_integral E row lo' hi'.
Proof.
  intros H1 H2. revert row. induction E as [|a E IH]; intros row.
  - reflexivity.
  - destruct E as [|b E]; [reflexivity|].
    destruct row as [|v row]; [reflexivity|].
    change (v * overlap a b lo hi + band_integral (b :: E) row lo hi
            == v * overlap a b lo' hi' + band_integral (b :: E) row lo' hi').
    rewrite (IH row), (overlap_comp a b lo lo' hi hi' H1 H2). reflexivity.
Qed.

(** ** Adjacent bands add up *)

Lemma overlap_add (a b x y z : Q) :
  x <= y -> y <= z ->
  overlap a b x z == overlap a b x y + overlap a b y z.
Proof.
  intros Hxy Hyz. unfold overlap.
  destruct (Q.max_spec a x) as [[? E1]|[? E1]];
    destruct (Q.max_spec a y) as [[? E2]|[? E2]];
    destruct (Q.min_spec b y) as [[? E3]|[? E3]];
    destruct (Q.min_spec b z) as [[? E4]|[? E4]];
    rewrite E1, E2, E3, E4; clear E1 E2 E3 E4;
    try (exfalso; lra);
    repeat match goal with
    | |- context [Qmax 0 ?t] =>
        let E := fresh "E" in
        destruct (Q.max_spec 0 t) as [[? E]|[? E]]; rewrite E; clear E
    end; lra.
Qed.

Lemma band_integral_add (E row : list Q) (x y z : Q) :
  x <= y -> y <= z ->
  band_integral E row x z
  == band_integral E row x y + band_integral E row y z.
Proof.
  intros Hxy Hyz. revert row. induction E as [|a E IH]; intros row.
  - reflexivity.
  - destruct E as [|b E]; [reflexivity|].
    destruct row as [|v row]; [reflexivity|].
    change (v * overlap a b x z + band_integral (b :: E) row x z
            == (v * overlap a b x y + band_integral (b :: E) row x y)
               + (v * overlap a b y z + band_integral (b :: E) row y z)).
    rewrite (IH row), (overlap_add a b x y z Hxy Hyz). ring.
Qed.

Lemma Forall2_zip3 {A B : Type} (P1 P2 P3 : A -> B -> Prop)
  (R : B -> B -> Prop) (op : B -> B -> B) (l : list A) (s1 s2 s3 : list B) :
  (forall a x y z, P1 a x -> P2 a y -> P3 a z -> R x (op y z)) ->
  Forall2 P1 l s1 -> Forall2 P2 l s2 -> Forall2 P3 l s3 ->
  Forall2 R s1 (zipWith op s2 s3).
Proof.
  intros H H1. revert s2 s3.
  induction H1 as [|a x l s1 Hax H1 IH]; intros s2 s3 H2 H3;
    inversion H2; subst; inversion H3; subst; simpl; constructor; eauto.
Qed.

Lemma rowwise_add (P1 P2 P3 : list Q -> Q -> Prop) (a : ndarray)
  (s1 s2 s3 : surface) :
  (forall row x y z, P1 row x -> P2 row y -> P3 row z -> x == y + z) ->
  rowwise P1 a s1 -> rowwise P2 a s2 -> rowwise P3 a s3 ->
  surface_eq s1 (surface_add s2 s3).
Proof.
  intros H H1 H2 H3.
  destruct a as [rows|planes], s1 as [s1|s1], s2 as [s2|s2], s3 as [s3|s3];
    simpl in *; try contradiction.
  - apply (Forall2_zip3 P1 P2 P3 Qeq Qplus rows); assumption.
  - apply (Forall2_zip3 (Forall2 P1) (Forall2 P2) (Forall2 P3)
             (Forall2 Qeq) (zipWith Qplus) planes); try assumption.
    intros rows x y z. apply (Forall2_zip3 P1 P2 P3 Qeq Qplus rows).
    exact H.
Qed.

(** X8: on a well-formed table, the surface of a band [a, c] inside the
    table's range is, node by node, the sum of the surfaces of the adjacent
    bands [a, b] and [b, c] for any split point [b] between them. *)
Theorem X8_adjacent_bands_add (self : XrayEmissivityIntegrator) (N : nat)
  (data_type : string) (data : ndarray) (a b c : Q) :
  let E := ebin self in
  let z1 := 1 + redshift self in
  table_ok self N -> getattr_emissivity self data_type = Return data ->
  nth 0 E 0 <= a * z1 -> a * z1 <= b * z1 -> b * z1 <= c * z1 ->
  b * z1 < nth N E 0 -> c * z1 <= nth N E 0 ->
  exists s_ac s_ab s_bc,
    interp_data self data_type a c true = Return s_ac /\
    interp_data self data_type a b true = Return s_ab /\
    interp_data self data_type b c true = Return s_bc /\
    surface_eq s_ac (surface_add s_ab s_bc).
Proof.
  intros E z1 Hok Hdata H0 Hab Hbc HbN HcN.
  destruct (interp_data_exact self N data_type data a c Hok Hdata)
    as (s_ac & Rac & Hac); fold E z1; try lra.
  destruct (interp_data_exact self N data_type data a b Hok Hdata)
    as (s_ab & Rab & Hab'); fold E z1; try lra.
  destruct (interp_data_exact self N data_type data b c Hok Hdata)
    as (s_bc & Rbc & Hbc'); fold E z1; try lra.
  exists s_ac, s_ab, s_bc. repeat split; try assumption.
  revert Hac Hab' Hbc'. apply rowwise_add.
  intros row x y z [_ Hx] [_ Hy] [_ Hz]. rewrite Hx, Hy, Hz.
  apply band_integral_add; assumption.
Qed.

Lemma X8_witness :
  exists s_ac s_ab s_bc,
    interp_data example_table "primordial" 0.5 5 true = Return s_ac /\
    interp_data example_table "primordial" 0.5 2 true = Return s_ab /\
    interp_data example_table "primordial" 2 5 true = Return s_bc /\
    surface_eq s_ac (surface_add s_ab s_bc).
Proof.
  assert (H0 : nth 0 (ebin example_table) 0
               <= 0.5 * (1 + redshift example_table)) by discriminate.
  assert (H1 : 0.5 * (1 + redshift example_table)
               <= 2 * (1 + redshift example_table)) by discriminate.
  assert (H2 : 2 * (1 + redshift example_table)
               <= 5 * (1 + redshift example_table)) by discriminate.
  assert (H3 : 2 * (1 + redshift example_table)
               < nth 2 (ebin example_table) 0) by reflexivity.
  assert (H4 : 5 * (1 + redshift example_table)
               <= nth 2 (ebin example_table) 0) by discriminate.
  exact (X8_adjacent_bands_add example_table 2 "primordial"
           (emissivity_primordial example_table) 0.5 2 5
           example_table_ok eq_refl H0 H1 H2 H3 H4).
Defined.

(** ** Bands given in the wrong order *)

Lemma slice_empty {A : Type} (l : list A) (a b : nat) :
  (b <= a)%nat -> slice l (Z.of_nat a) (Z.of_nat b) = [].
Proof.
  intros H. unfold slice, slice_bound.
  destruct (Z.ltb_spec (Z.of_nat a) 0); [lia|].
  destruct (Z.ltb_spec (Z.of_nat b) 0); [lia|].
  replace (Z.to_nat (Z.min (Z.of_nat b) (Z.of_nat (length l))
                     - Z.min (Z.of_nat a) (Z.of_nat (length l)))) with O
    by lia.
  reflexivity.
Qed.

(** The run of lines 104-119 once the bracketing indices are known. *)
Lemma integrate_band_indices (self : XrayEmissivityIntegrator)
  (data : ndarray) (e_min e_max : Q) (N i_s i_e : nat) :
  let E := ebin self in
  let lo := e_min * (1 + redshift self) in
  let hi := e_max * (1 + redshift self) in
  increasing E -> length E = S N -> dE self = diff E -> rect N data ->
  out_of_bounds (nth 0 E 0) (nth N E 0) lo hi = false ->
  clip (Z.of_nat (count_le lo E) - 1) 0 (Z.of_nat (length E) - 1)
    = Z.of_nat i_s ->
  clip (Z.of_nat (count_le hi E)) 0 (Z.of_nat (length E) - 1)
    = Z.of_nat i_e ->
  (i_s < i_e <= N)%nat ->
  integrate_band self data e_min e_max
  = Return (sum_last
              (map_rows
                 (fun row =>
                    zipWith Qmult (slice row (Z.of_nat i_s) (Z.of_nat i_e))
                      (clipped_widths E i_s i_e lo hi)) data)).
Proof.
  intros E lo hi Hinc HE HdE Hrect Hchk Cs Ce Hi.
  unfold integrate_band. fold E lo hi.
  rewrite (getitem_first E) by lia. cbn [bind].
  rewrite (getitem_last E) by lia. cbn [bind].
  replace (length E - 1)%nat with N by lia.
  unfold out_of_bounds in Hchk. rewrite Hchk.
  rewrite !(digitize_increasing _ E Hinc). cbn [bind].
  rewrite Cs, Ce.
  rewrite (getitem_nat E i_s) by lia. cbn [bind].
  rewrite HdE. fold E.
  assert (Hl0 : length (slice (diff E) (Z.of_nat i_s) (Z.of_nat i_e))
                = (i_e - i_s)%nat).
  { apply slice_length. rewrite diff_length. lia. }
  rewrite isub_first by lia. cbn [bind].
  rewrite (getitem_nat E i_e) by lia. cbn [bind].
  rewrite isub_last by (rewrite set_nth_length; lia). cbn [bind].
  fold (clipped_widths E i_s i_e lo hi).
  rewrite (along_rows_rect _
             (fun row =>
                zipWith Qmult (slice row (Z.of_nat i_s) (Z.of_nat i_e))
                  (clipped_widths E i_s i_e lo hi)) N);
    [reflexivity| |exact Hrect].
  intros row Hrow. apply broadcast_same.
  rewrite (clipped_widths_length E N) by (try exact HE; lia).
  apply slice_length. lia.
Qed.

Section Inverted.

Variable log10q : Q -> fval.

(** X9: [get_interpolator] does not compare [e_min] with [e_max].  On a
    table with increasing edges, a call that passes the bounds test with a
    bin edge between the two energies, [e_max] below it and [e_min] at or
    above it, brackets no bin and ends in an [IndexError]. *)
Theorem X9_inverted_band_across_edge (self : XrayEmissivityIntegrator)
  (data_type : string) (e_min e_max : Q) (energy : bool) (data : ndarray)
  (N k : nat) :
  let E := ebin self in
  let lo := e_min * (1 + redshift self) in
  let hi := e_max * (1 + redshift self) in
  load_data self data_type energy = Return data ->
  increasing E -> length E = S N -> dE self = diff E ->
  out_of_bounds (nth 0 E 0) (nth N E 0) lo hi = false ->
  (k <= N)%nat -> hi < nth k E 0 -> nth k E 0 <= lo ->
  get_interpolator log10q self data_type e_min e_max energy
  = Raise IndexError.
Proof.
  intros E lo hi Hdata Hinc HE HdE Hchk Hk Hhi Hlo.
  destruct (count_le_spec lo E Hinc) as [_ Ulo].
  destruct (count_le_spec hi E Hinc) as [Lhi _].
  pose proof (count_le_bound lo E) as Blo.
  assert (D1 : (k < count_le lo E)%nat).
  { destruct (le_lt_dec (count_le lo E) k) as [H|H]; [exfalso|exact H].
    specialize (Ulo k ltac:(lia)). lra. }
  assert (D2 : (count_le hi E <= k)%nat).
  { destruct (le_lt_dec (count_le hi E) k) as [H|H]; [exact H|exfalso].
    specialize (Lhi k H). lra. }
  apply get_interpolator_raise. unfold interp_data. rewrite Hdata.
  cbn [bind]. unfold integrate_band. fold E lo hi.
  rewrite (getitem_first E) by lia. cbn [bind].
  rewrite (getitem_last E) by lia. cbn [bind].
  replace (length E - 1)%nat with N by lia.
  unfold out_of_bounds in Hchk. rewrite Hchk.
  rewrite !(digitize_increasing _ E Hinc). cbn [bind].
  assert (Cs : clip (Z.of_nat (count_le lo E) - 1) 0 (Z.of_nat (length E) - 1)
               = Z.of_nat (count_le lo E - 1)) by (unfold clip; lia).
  assert (Ce : clip (Z.of_nat (count_le hi E)) 0 (Z.of_nat (length E) - 1)
               = Z.of_nat (count_le hi E)) by (unfold clip; lia).
  rewrite Cs, Ce.
  rewrite (getitem_nat E (count_le lo E - 1)) by lia. cbn [bind].
  rewrite slice_empty by lia.
  rewrite isub_empty. reflexivity.
Qed.

End Inverted.

Lemma X9_witness :
  get_interpolator (fun _ => NaN) example_table "primordial" 5 0.5 true
  = Raise IndexError.
Proof.
  apply (X9_inverted_band_across_edge (fun _ => NaN) example_table
           "primordial" 5 0.5 true (emissivity_primordial example_table)
           2%nat 1%nat); try reflexivity.
  - repeat split; reflexivity.
  - apply Nat.le_succ_diag_r.
  - discriminate.
Defined.

(** X10: an inverted band inside one bin of a well-formed table,
    [E[k] <= e_max < e_min < E[k+1]] at redshift 0, raises nothing: every
    entry of the surface is the tabulated value of the bin times the
    negative width [e_max - e_min], so it is negative where the table is
    positive. *)
Theorem X10_inverted_band_inside_bin (self : XrayEmissivityIntegrator)
  (N k : nat) (data_type : string) (data : ndarray) (e_min e_max : Q) :
  let E := ebin self in
  table_ok self N -> redshift self = 0 -> (k < N)%nat ->
  getattr_emissivity self data_type = Return data ->
  nth k E 0 <= e_max -> e_max < e_min -> e_min < nth (k + 1) E 0 ->
  exists surf,
    interp_data self data_type e_min e_max true = Return surf /\
    rowwise (fun row s =>
               s == nth k row 0 * (e_max - e_min) /\
               (0 < nth k row 0 -> s < 0)) data surf.
Proof.
  intros E Hok Hz Hk Hdata Hhi Hinv Hlo.
  pose proof (ok_increasing _ _ Hok) as Hinc. fold E in Hinc.
  pose proof (ok_size _ _ Hok) as HE. fold E in HE.
  pose proof (ok_nonneg _ _ Hok) as Hpos. fold E in Hpos.
  pose proof (getattr_rect _ _ _ _ Hok Hdata) as Hrect.
  set (lo := e_min * (1 + redshift self)).
  set (hi := e_max * (1 + redshift self)).
  assert (Elo : lo == e_min) by (unfold lo; rewrite Hz; ring).
  assert (Ehi : hi == e_max) by (unfold hi; rewrite Hz; ring).
  assert (H0k : nth 0 E 0 <= nth k E 0)
    by (apply increasing_nth_le; [exact Hinc|lia]).
  assert (HkN : nth (k + 1) E 0 <= nth N E 0)
    by (apply increasing_nth_le; [exact Hinc|lia]).
  destruct (count_le_spec lo E Hinc) as [Llo Ulo].
  destruct (count_le_spec hi E Hinc) as [Lhi Uhi].
  assert (Clo : count_le lo E = S k).
  { destruct (lt_eq_lt_dec (count_le lo E) (S k)) as [[H|H]|H];
      [exfalso|exact H|exfalso].
    - specialize (Ulo k ltac:(lia)). lra.
    - specialize (Llo (k + 1)%nat ltac:(lia)). lra. }
  assert (Chi : count_le hi E = S k).
  { destruct (lt_eq_lt_dec (count_le hi E) (S k)) as [[H|H]|H];
      [exfalso|exact H|exfalso].
    - specialize (Uhi k ltac:(lia)). lra.
    - specialize (Lhi (k + 1)%nat ltac:(lia)). lra. }
  rewrite interp_data_energy, Hdata. cbn [bind].
  rewrite (integrate_band_indices self data e_min e_max N k (S k));
    fold E lo hi; try assumption.
  - eexists. split; [reflexivity|].
    apply (rowwise_sum_last _ _ N); [|exact Hrect].
    intros row Hrow.
    assert (Hval : sum (zipWith Qmult
                          (slice row (Z.of_nat k) (Z.of_nat (S k)))
                          (clipped_widths E k (S k) lo hi))
                   == nth k row 0 * (e_max - e_min)).
    { assert (Hls : length (slice row (Z.of_nat k) (Z.of_nat (S k)))
                    = 1%nat).
      { rewrite slice_length by lia. lia. }
      assert (Hlw : length (clipped_widths E k (S k) lo hi) = 1%nat).
      { rewrite (clipped_widths_length E N) by (try exact HE; lia). lia. }
      rewrite sum_nth, zipWith_length, Hls by congruence.
      cbn [qsum]. rewrite zipWith_nth by (congruence || lia).
      rewrite slice_nth by lia.
      rewrite (clipped_widths_nth E N) by (try exact HE; lia).
      replace (S k - k - 1)%nat with O by lia. cbn [Nat.eqb].
      rewrite !Nat.add_0_r. rewrite Elo, Ehi. ring. }
    split; [exact Hval|]. intros Hv. rewrite Hval.
    assert (Hneg : nth k row 0 * (e_max - e_min) < nth k row 0 * 0)
      by (apply Qmult_lt_l; [exact Hv|lra]).
    lra.
  - exact (ok_dE _ _ Hok).
  - apply in_bounds; right; split; lra.
  - rewrite Clo, HE. unfold clip. lia.
  - rewrite Chi, HE. unfold clip. lia.
  - lia.
Qed.

Lemma X10_witness :
  exists surf,
    interp_data example_table "primordial" 5 2 true = Return surf /\
    rowwise (fun row s =>
               s == nth 1 row 0 * (2 - 5) /\ (0 < nth 1 row 0 -> s < 0))
      (emissivity_primordial example_table) surf.
Proof.
  apply (X10_inverted_band_inside_bin example_table 2%nat 1%nat
           "primordial"%string (emissivity_primordial example_table) 5 2);
    try reflexivity; try apply example_table_ok; try discriminate.
  apply Nat.lt_succ_diag_r.
Defined.

(** ** Tables without a bin *)

Section NoBin.

Variable log10q : Q -> fval.

(** X11: an integrator whose edge array has fewer than two entries, so no
    energy bin, never yields an interpolator: every call whose dataset loads
    raises [IndexError] or [EnergyBoundsException]. *)
Theorem X11_no_bin_no_interpolator (self : XrayEmissivityIntegrator)
  (data_type : string) (e_min e_max : Q) (energy : bool) (data : ndarray) :
  (length (ebin self) <= 1)%nat ->
  load_data self data_type energy = Return data ->
  exists e,
    get_interpolator log10q self data_type e_min e_max energy = Raise e /\
    (e = IndexError \/ is_bounds_exn e = true).
Proof.
  intros Hlen Hdata.
  assert (Hband : exists e,
            integrate_band self data e_min e_max = Raise e /\
            (e = IndexError \/ is_bounds_exn e = true)).
  { unfold integrate_band. destruct (ebin self) as [|a [|b E]] eqn:HE.
    - exists IndexError. split; [reflexivity|left; reflexivity].
    - change (getitem [a] 0) with (Return a).
      change (getitem [a] (-1)) with (Return a). cbn [bind].
      match goal with
      | |- context [if ?c then _ else _] => destruct c
      end.
      + eexists. split; [reflexivity|right; reflexivity].
      + unfold digitize. cbn [nondecreasing bind].
        change (Z.of_nat (length [a]) - 1)%Z with 0%Z.
        assert (Hc : forall x, clip x 0 0 = 0%Z) by (intros x; unfold clip; lia).
        rewrite !Hc.
        assert (Hs : slice (dE self) 0 0 = []).
        { exact (slice_empty (dE self) 0 0 (le_n 0)). }
        rewrite Hs. change (getitem [a] 0) with (Return a). cbn [bind].
        rewrite isub_empty.
        exists IndexError. split; [reflexivity|left; reflexivity].
    - simpl in Hlen. lia. }
  destruct Hband as (e & He & Hwhich). exists e. split; [|exact Hwhich].
  apply get_interpolator_raise. unfold interp_data. rewrite Hdata.
  exact He.
Qed.

End NoBin.

Lemma X11_witness :
  exists e,
    get_interpolator (fun _ => NaN) edge_only_table "primordial" 1 1 true
    = Raise e /\
    (e = IndexError \/ is_bounds_exn e = true).
Proof.
  apply (X11_no_bin_no_interpolator (fun _ => NaN) edge_only_table
           "primordial" 1 1 true (emissivity_primordial edge_only_table)).
  - apply le_n.
  - reflexivity.
Defined.

(** ** Failures of the emissivity field *)

Lemma field_missing (data : Catalog) (name : string) :
  ~ In name (names data) -> field data name = Raise ValueError.
Proof.
  intros H. unfold field.
  destruct (existsb (String.eqb name) (names data)) eqn:Hex; [|reflexivity].
  exfalso. apply H. apply existsb_exists in Hex.
  destruct Hex as (n & Hin & Heq). apply String.eqb_eq in Heq. subst n.
  exact Hin.
Qed.

Lemma field_raise (data : Catalog) (name : string) (e : exn) :
  field data name = Raise e -> e = ValueError.
Proof.
  unfold field. destruct (existsb _ _); intros H; inversion H; reflexivity.
Qed.

Section FieldFailures.

Variable fl : Q -> fval.
Variable erg_per_keV : Q.
Variable log10q : Q -> fval.
Variable pow10q : Q -> fval.
Variable unilinear_at : list fval -> Q * Q -> bool -> fval -> fval.
Variable bilinear_at :
  list (list fval) -> Q * Q * Q * Q -> bool -> fval -> fval -> fval.

Local Abbreviation calculate :=
  (calculate_xray_emissivity fl erg_per_keV log10q pow10q unilinear_at
     bilinear_at) (only parsing).

(** X12: for the Cloudy table type, a catalog that lacks the field "lognH",
    the temperature field or "gas_metallicity_host" makes
    [calculate_xray_emissivity] raise [ValueError], on any machine (no file
    is looked for before the fields are read) and also when
    [use_metallicity] is off, where the metallicity is read and not used. *)
Theorem X12_missing_catalog_field (env : Env) (data : Catalog)
  (temperature_model : string) (e_min e_max : Q) (use_metallicity : bool)
  (z : Q) (data_dir : option string) :
  ~ In "lognH"%string (names data) \/
  ~ In temperature_model (names data) \/
  ~ In "gas_metallicity_host"%string (names data) ->
  calculate env data temperature_model e_min e_max use_metallicity z
    "cloudy" data_dir = Raise ValueError.
Proof.
  intros H. unfold calculate_xray_emissivity.
  change (String.eqb "cloudy" "cloudy") with true. cbn [negb].
  destruct (field data "lognH") as [v1|e1] eqn:H1; cbn [bind];
    [|rewrite (field_raise _ _ _ H1); reflexivity].
  destruct (field data temperature_model) as [v2|e2] eqn:H2; cbn [bind];
    [|rewrite (field_raise _ _ _ H2); reflexivity].
  destruct (field data "gas_metallicity_host") as [v3|e3] eqn:H3; cbn [bind];
    [|rewrite (field_raise _ _ _ H3); reflexivity].
  exfalso. destruct H as [H|[H|H]]; apply field_missing in H; congruence.
Qed.

(** X13: with the catalog fields present, whatever the constructor raises
    reaches the caller of [calculate_xray_emissivity]; and since the
    integrator is always built with [use_metals] on, a table file without
    the dataset "emissivity_metals" gives a [KeyError] even when
    [use_metallicity] is off. *)
Theorem X13_constructor_errors_reach_caller (env : Env) (data : Catalog)
  (temperature_model : string) (e_min e_max : Q) (use_metallicity : bool)
  (z : Q) (data_dir : option string) :
  In "lognH"%string (names data) ->
  In temperature_model (names data) ->
  In "gas_metallicity_host"%string (names data) ->
  (forall e,
      __init__ erg_per_keV env "cloudy" z data_dir true = Raise e ->
      calculate env data temperature_model e_min e_max use_metallicity z
        "cloudy" data_dir = Raise e) /\
  (forall path f,
      _get_data_file env "cloudy" data_dir = Return path ->
      h5_open env path = Some f -> h5_emissivity_metals f = None ->
      calculate env data temperature_model e_min e_max use_metallicity z
        "cloudy" data_dir = Raise KeyError).
Proof.
  intros Hn HT HZ.
  assert (Hprop : forall e,
            __init__ erg_per_keV env "cloudy" z data_dir true = Raise e ->
            calculate env data temperature_model e_min e_max use_metallicity
              z "cloudy" data_dir = Raise e).
  { intros e Hinit. unfold calculate_xray_emissivity.
    change (String.eqb "cloudy" "cloudy") with true. cbn [negb].
    rewrite (field_In data "lognH" Hn). cbn [bind].
    rewrite (field_In data temperature_model HT). cbn [bind].
    rewrite (field_In data "gas_metallicity_host" HZ). cbn [bind].
    rewrite Hinit. reflexivity. }
  split; [exact Hprop|].
  intros path f Hfile Hopen Hmet. apply Hprop.
  unfold __init__. rewrite Hfile. cbn [bind]. rewrite Hopen, Hmet.
  reflexivity.
Qed.


Lemma field_agree (name n : string) (d1 d2 : Catalog) :
  agree_except name d1 d2 -> n <> name -> field d1 n = field d2 n.
Proof.
  intros [Hnames Hcells] Hne. unfold field. rewrite Hnames.
  destruct (existsb (String.eqb n) (names d2)); [|reflexivity].
  f_equal. induction Hcells as [|c1 c2 l1 l2 Hc Hcells IH]; simpl.
  - reflexivity.
  - rewrite (Hc n Hne), IH. reflexivity.
Qed.

(** X15: with [use_metallicity] off, the result of
    [calculate_xray_emissivity], a value or an exception, does not depend
    on the values of the field "gas_metallicity_host": two catalogs with the
    same fields whose cells differ in that field only give the same
    result. *)
Theorem X15_metallicity_unused_when_off (env : Env) (d1 d2 : Catalog)
  (temperature_model : string) (e_min e_max z : Q) (table_type : string)
  (data_dir : option string) :
  agree_except "gas_metallicity_host" d1 d2 ->
  temperature_model <> "gas_metallicity_host"%string ->
  calculate env d1 temperature_model e_min e_max false z table_type data_dir
  = calculate env d2 temperature_model e_min e_max false z table_type
      data_dir.
Proof.
  intros Hagree HT. unfold calculate_xray_emissivity.
  destruct (negb (String.eqb table_type "cloudy")); [reflexivity|].
  rewrite (field_agree _ "lognH" d1 d2 Hagree) by discriminate.
  rewrite (field_agree _ temperature_model d1 d2 Hagree HT).
  destruct (field d2 "lognH") as [v1|e1]; cbn [bind]; [|reflexivity].
  destruct (field d2 temperature_model) as [v2|e2]; cbn [bind];
    [|reflexivity].
  unfold field at 1 2. rewrite (proj1 Hagree).
  destruct (existsb (String.eqb "gas_metallicity_host") (names d2));
    cbn [bind]; reflexivity.
Qed.

End FieldFailures.

Lemma X12_witness :
  calculate_xray_emissivity Num 1.602176634e-9 (fun _ => NaN) (fun _ => NaN)
    (fun _ _ _ v => v) (fun _ _ _ _ v => v) example_env
    no_metallicity_catalog "Tvir" 0.5 2 false 0 "cloudy" (Some "."%string)
  = Raise ValueError.
Proof.
  apply X12_missing_catalog_field. right. right.
  intros [H|[H|[]]]; discriminate H.
Defined.

Lemma X13_witness :
  calculate_xray_emissivity Num 1.602176634e-9 (fun _ => NaN) (fun _ => NaN)
    (fun _ _ _ v => v) (fun _ _ _ _ v => v) no_metals_env example_catalog
    "Tvir" 0.5 2 false 0 "cloudy" (Some "."%string)
  = Raise KeyError.
Proof.
  refine (proj2 (X13_constructor_errors_reach_caller Num 1.602176634e-9
                   (fun _ => NaN) (fun _ => NaN) (fun _ _ _ v => v)
                   (fun _ _ _ _ v => v) no_metals_env example_catalog "Tvir"
                   0.5 2 false 0 (Some "."%string) _ _ _)
            "./cloudy_emissivity_v2.h5"%string no_metals_file
            eq_refl eq_refl eq_refl); simpl; auto.
Defined.


Lemma X15_witness :
  calculate_xray_emissivity Num 1.602176634e-9 (fun _ => NaN) (fun _ => NaN)
    (fun _ _ _ v => v) (fun _ _ _ _ v => v) example_env example_catalog
    "Tvir" 0.5 2 false 0 "cloudy" (Some "."%string)
  = calculate_xray_emissivity Num 1.602176634e-9 (fun _ => NaN) (fun _ => NaN)
      (fun _ _ _ v => v) (fun _ _ _ _ v => v) example_env metal_rich_catalog
      "Tvir" 0.5 2 false 0 "cloudy" (Some "."%string).
Proof.
  apply X15_metallicity_unused_when_off; [|discriminate].
  split; [reflexivity|].
  repeat constructor; intros n Hn; simpl;
    (destruct (String.eqb_spec n "lognH"); [reflexivity|]);
    (destruct (String.eqb_spec n "gas_metallicity_host");
     [contradiction|reflexivity]).
Defined.

(** ** Bands that end on bin edges *)

(** X16: at redshift 0 on a well-formed table, a band from the edge [E[k]]
    to the edge [E[k+m]], [m >= 1], is integrated without clipping: every
    entry of the surface is the sum over the [m] bins of the tabulated value
    times the bin's full width in [dE]. *)
Theorem X16_whole_bins (self : XrayEmissivityIntegrator) (N k m : nat)
  (data_type : string) (data : ndarray) :
  let E := ebin self in
  table_ok self N -> redshift self = 0 -> (1 <= m)%nat -> (k + m <= N)%nat ->
  getattr_emissivity self data_type = Return data ->
  exists surf,
    interp_data self data_type (nth k E 0) (nth (k + m) E 0) true
      = Return surf /\
    rowwise (fun row s =>
               s == qsum (fun j => nth (k + j) row 0
                                   * nth (k + j) (dE self) 0) m) data surf.
Proof.
  intros E Hok Hz Hm Hkm Hdata.
  pose proof (ok_increasing _ _ Hok) as Hinc. fold E in Hinc.
  pose proof (ok_size _ _ Hok) as HE. fold E in HE.
  pose proof (ok_dE _ _ Hok) as HdE. fold E in HdE.
  assert (H0k : nth 0 E 0 <= nth k E 0)
    by (apply increasing_nth_le; [exact Hinc|lia]).
  assert (Hkm' : nth k E 0 < nth (k + m) E 0)
    by (apply increasing_nth; [exact Hinc|lia]).
  assert (HkN : nth (k + m) E 0 <= nth N E 0)
    by (apply increasing_nth_le; [exact Hinc|lia]).
  destruct (interp_data_exact self N data_type data
              (nth k E 0) (nth (k + m) E 0) Hok Hdata)
    as (surf & Hrun & Hrows); fold E; rewrite ?Hz; try lra.
  exists surf. split; [exact Hrun|].
  revert Hrows.
  apply (rowwise_impl _ _ N); [|exact (getattr_rect _ _ _ _ Hok Hdata)].
  intros row s Hrow [_ Hs]. rewrite Hs, Hz. fold E.
  rewrite (band_integral_window E row N k m) by (try assumption; lra).
  apply qsum_ext. intros j Hj.
  assert (Ha : nth k E 0 <= nth (k + j) E 0)
    by (apply increasing_nth_le; [exact Hinc|lia]).
  assert (Hb : nth (S (k + j)) E 0 <= nth (k + m) E 0)
    by (apply increasing_nth_le; [exact Hinc|lia]).
  assert (Hab : nth (k + j) E 0 < nth (S (k + j)) E 0)
    by (apply increasing_nth; [exact Hinc|lia]).
  rewrite HdE, diff_nth by lia.
  rewrite (overlap_val _ _ _ _ (nth (k + j) E 0) (nth (S (k + j)) E 0));
    [reflexivity|apply Q.max_l; lra|apply Q.min_l; lra|lra].
Qed.

Lemma X16_witness :
  exists surf,
    interp_data example_table "primordial"
      (nth 0 (ebin example_table) 0) (nth (0 + 2) (ebin example_table) 0)
      true = Return surf /\
    rowwise (fun row s =>
               s == qsum (fun j => nth (0 + j) row 0
                                   * nth (0 + j) (dE example_table) 0) 2)
      (emissivity_primordial example_table) surf.
Proof.
  apply (X16_whole_bins example_table 2%nat 0%nat 2%nat "primordial"%string
           (emissivity_primordial example_table));
    try reflexivity; try apply example_table_ok.
  apply Nat.le_succ_diag_r.
Defined.

(** ** The redshift only moves the band *)

Lemma init_table_ok (erg_per_keV : Q) (env : Env) (t : string) (z : Q)
  (d : option string) (use_metals : bool) (path : string) (f : H5File)
  (N : nat) (self : XrayEmissivityIntegrator) :
  _get_data_file env t d = Return path -> h5_open env path = Some f ->
  file_ok f N ->
  __init__ erg_per_keV env t z d use_metals = Return self ->
  table_ok self N.
Proof.
  intros Hfile Hopen Hok Hinit.
  rewrite (init_fields _ _ _ _ _ _ _ _ _ Hfile Hopen Hinit).
  constructor; simpl; try apply Hok.
  - reflexivity.
  - intros a Ha. apply (fok_metals _ _ Hok).
    destruct use_metals; [exact Ha|discriminate].
Qed.

Lemma Forall2_zip2 {A B : Type} (P1 P2 : A -> B -> Prop)
  (R : B -> B -> Prop) (l : list A) (s1 s2 : list B) :
  (forall a x y, P1 a x -> P2 a y -> R x y) ->
  Forall2 P1 l s1 -> Forall2 P2 l s2 -> Forall2 R s1 s2.
Proof.
  intros H H1. revert s2.
  induction H1 as [|a x l s1 Hax H1 IH]; intros s2 H2;
    inversion H2; subst; constructor; eauto.
Qed.

Lemma rowwise_eq (P1 P2 : list Q -> Q -> Prop) (a : ndarray)
  (s1 s2 : surface) :
  (forall row x y, P1 row x -> P2 row y -> x == y) ->
  rowwise P1 a s1 -> rowwise P2 a s2 -> surface_eq s1 s2.
Proof.
  intros H H1 H2.
  destruct a as [rows|planes], s1 as [s1|s1], s2 as [s2|s2];
    simpl in *; try contradiction.
  - apply (Forall2_zip2 P1 P2 Qeq rows); assumption.
  - apply (Forall2_zip2 (Forall2 P1) (Forall2 P2) (Forall2 Qeq) planes);
      try assumption.
    intros rows x y. apply (Forall2_zip2 P1 P2 Qeq rows). exact H.
Qed.

(** X17: the redshift enters the band integration only by moving the band.
    For two integrators built from the same well-formed file, one at
    redshift [z] and one at redshift 0, the band [e_min, e_max] on the first
    and the band [e_min*(1+z), e_max*(1+z)] on the second give surfaces
    with equal entries, when the moved band lies in the table's range. *)
Theorem X17_redshift_moves_band (erg_per_keV : Q) (env : Env) (t : string)
  (z : Q) (d : option string) (use_metals : bool) (path : string)
  (f : H5File) (N : nat) (self_z self_0 : XrayEmissivityIntegrator)
  (data_type : string) (data : ndarray) (e_min e_max : Q) :
  let E := h5_E f in
  let lo := e_min * (1 + z) in
  let hi := e_max * (1 + z) in
  _get_data_file env t d = Return path -> h5_open env path = Some f ->
  file_ok f N ->
  __init__ erg_per_keV env t z d use_metals = Return self_z ->
  __init__ erg_per_keV env t 0 d use_metals = Return self_0 ->
  getattr_emissivity self_z data_type = Return data ->
  nth 0 E 0 <= lo -> lo < nth N E 0 -> lo <= hi -> hi <= nth N E 0 ->
  exists s_z s_0,
    interp_data self_z data_type e_min e_max true = Return s_z /\
    interp_data self_0 data_type lo hi true = Return s_0 /\
    surface_eq s_z s_0.
Proof.
  intros E lo hi Hfile Hopen Hok Hz H0 Hdata Hl0 HlN Hlh HhN.
  pose proof (init_table_ok _ _ _ _ _ _ _ _ _ _ Hfile Hopen Hok Hz) as Tz.
  pose proof (init_table_ok _ _ _ _ _ _ _ _ _ _ Hfile Hopen Hok H0) as T0.
  pose proof (init_fields _ _ _ _ _ _ _ _ _ Hfile Hopen Hz) as Fz.
  pose proof (init_fields _ _ _ _ _ _ _ _ _ Hfile Hopen H0) as F0.
  assert (Ez : ebin self_z = E) by (rewrite Fz; reflexivity).
  assert (E0 : ebin self_0 = E) by (rewrite F0; reflexivity).
  assert (Rz : redshift self_z = z) by (rewrite Fz; reflexivity).
  assert (R0 : redshift self_0 = 0) by (rewrite F0; reflexivity).
  assert (Hdata0 : getattr_emissivity self_0 data_type = Return data).
  { rewrite <- Hdata. rewrite Fz, F0. reflexivity. }
  destruct (interp_data_exact self_z N data_type data e_min e_max Tz Hdata)
    as (s_z & Runz & Hrz); rewrite ?Ez, ?Rz; fold lo hi; try assumption.
  destruct (interp_data_exact self_0 N data_type data lo hi T0 Hdata0)
    as (s_0 & Run0 & Hr0); rewrite ?E0, ?R0; try lra.
  exists s_z, s_0. split; [exact Runz|]. split; [exact Run0|].
  revert Hrz Hr0. apply rowwise_eq.
  intros row x y [_ Hx] [_ Hy]. rewrite Hx, Hy, Ez, E0, Rz, R0.
  apply band_integral_comp; unfold lo, hi; ring.
Qed.

Lemma X17_witness :
  exists s_z s_0,
    interp_data
      {| log_T := h5_log_T example_file;
         emissivity_primordial := h5_emissivity_primordial example_file;
         log_nH := h5_log_nH example_file;
         emissivity_metals := h5_emissivity_metals example_file;
         ebin := h5_E example_file;
         dE := diff (h5_E example_file);
         emid := midpoints 1.602176634e-9 (h5_E example_file);
         redshift := 1 |} "primordial" 0.5 2 true = Return s_z /\
    interp_data
      {| log_T := h5_log_T example_file;
         emissivity_primordial := h5_emissivity_primordial example_file;
         log_nH := h5_log_nH example_file;
         emissivity_metals := h5_emissivity_metals example_file;
         ebin := h5_E example_file;
         dE := diff (h5_E example_file);
         emid := midpoints 1.602176634e-9 (h5_E example_file);
         redshift := 0 |} "primordial" (0.5 * (1 + 1)) (2 * (1 + 1)) true
      = Return s_0 /\
    surface_eq s_z s_0.
Proof.
  assert (H0 : nth 0 (h5_E example_file) 0 <= 0.5 * (1 + 1)) by discriminate.
  assert (H1 : 0.5 * (1 + 1) < nth 2 (h5_E example_file) 0) by reflexivity.
  assert (H2 : 0.5 * (1 + 1) <= 2 * (1 + 1)) by discriminate.
  assert (H3 : 2 * (1 + 1) <= nth 2 (h5_E example_file) 0) by discriminate.
  exact (X17_redshift_moves_band 1.602176634e-9 example_env "cloudy" 1
           (Some "."%string) true "./cloudy_emissivity_v2.h5" example_file
           2%nat _ _ "primordial" (h5_emissivity_primordial example_file)
           0.5 2 eq_refl eq_refl example_file_ok eq_refl eq_refl eq_refl
           H0 H1 H2 H3).
Defined.

(** ** The photon tables are built and not used *)

Lemma get_interpolator_energy_emid (log10q : Q -> fval) (lT : list Q)
  (ep : ndarray) (lnH : option (list Q)) (em : option ndarray)
  (E w m1 m2 : list Q) (z : Q) (data_type : string) (e_min e_max : Q) :
  get_interpolator log10q
    {| log_T := lT; emissivity_primordial := ep; log_nH := lnH;
       emissivity_metals := em; ebin := E; dE := w; emid := m1;
       redshift := z |} data_type e_min e_max true
  = get_interpolator log10q
      {| log_T := lT; emissivity_primordial := ep; log_nH := lnH;
         emissivity_metals := em; ebin := E; dE := w; emid := m2;
         redshift := z |} data_type e_min e_max true.
Proof. reflexivity. Qed.

Section PhotonUnused.

Variable fl : Q -> fval.
Variable log10q : Q -> fval.
Variable pow10q : Q -> fval.
Variable unilinear_at : list fval -> Q * Q -> bool -> fval -> fval.
Variable bilinear_at :
  list (list fval) -> Q * Q * Q * Q -> bool -> fval -> fval -> fval.

(** X18: the photon-mode interpolators that [calculate_xray_emissivity]
    builds (lines 212 and 218) do not reach its result: two runs that differ
    only in the keV-to-erg factor of the bin midpoints, which only the
    photon mode reads, return the same value whenever both return. *)
Theorem X18_photon_tables_unused (erg1 erg2 : Q) (env : Env)
  (data : Catalog) (temperature_model : string) (e_min e_max : Q)
  (use_metallicity : bool) (z : Q) (table_type : string)
  (data_dir : option string) (r1 r2 : option YTArray) :
  calculate_xray_emissivity fl erg1 log10q pow10q unilinear_at bilinear_at env
    data temperature_model e_min e_max use_metallicity z table_type data_dir
  = Return r1 ->
  calculate_xray_emissivity fl erg2 log10q pow10q unilinear_at bilinear_at env
    data temperature_model e_min e_max use_metallicity z table_type data_dir
  = Return r2 ->
  r1 = r2.
Proof.
  unfold calculate_xray_emissivity. intros H1 H2.
  destruct (negb (String.eqb table_type "cloudy")); [congruence|].
  destruct (field data "lognH") as [lognH|]; [|discriminate H1].
  cbn [bind] in H1, H2.
  destruct (field data temperature_model) as [T|]; [|discriminate H1].
  cbn [bind] in H1, H2.
  destruct (field data "gas_metallicity_host") as [Zs|]; [|discriminate H1].
  cbn [bind] in H1, H2.
  unfold __init__ in H1, H2.
  destruct (_get_data_file env table_type data_dir) as [path|];
    [|discriminate H1].
  cbn [bind] in H1, H2.
  destruct (h5_open env path) as [f|]; [|discriminate H1].
  destruct (h5_emissivity_metals f) as [am|]; [|discriminate H1].
  cbn [bind] in H1, H2.
  rewrite (get_interpolator_energy_emid log10q _ _ _ _ _ _
             (midpoints erg1 (h5_E f)) (midpoints erg2 (h5_E f))) in H1.
  match type of H1 with
  | bind ?m _ = _ => destruct m as [em_0|]; [|discriminate H1]
  end.
  cbn [bind] in H1, H2.
  match type of H1 with
  | bind ?m _ = _ => destruct m as [emp_1|]; [|discriminate H1]
  end.
  match type of H2 with
  | bind ?m _ = _ => destruct m as [emp_2|]; [|discriminate H2]
  end.
  cbn [bind] in H1, H2.
  destruct use_metallicity.
  - rewrite (get_interpolator_energy_emid log10q _ _ _ _ _ _
               (midpoints erg1 (h5_E f)) (midpoints erg2 (h5_E f))) in H1.
    match type of H1 with
    | bind (bind ?m _) _ = _ => destruct m as [em_Z|]; [|discriminate H1]
    end.
    cbn [bind] in H1, H2.
    match type of H1 with
    | bind (bind ?m _) _ = _ => destruct m as [empZ_1|]; [|discriminate H1]
    end.
    match type of H2 with
    | bind (bind ?m _) _ = _ => destruct m as [empZ_2|]; [|discriminate H2]
    end.
    cbn [bind] in H1, H2. congruence.
  - cbn [bind] in H1, H2. congruence.
Qed.

End PhotonUnused.

Lemma X18_witness :
  calculate_xray_emissivity Num 1.602176634e-9 (fun _ => NaN) (fun _ => NaN)
    (fun _ _ _ v => v) (fun _ _ _ _ v => v) example_env example_catalog
    "Tvir" 0.5 2 true 0 "cloudy" (Some "."%string)
  = calculate_xray_emissivity Num 1 (fun _ => NaN) (fun _ => NaN)
      (fun _ _ _ v => v) (fun _ _ _ _ v => v) example_env example_catalog
      "Tvir" 0.5 2 true 0 "cloudy" (Some "."%string).
Proof.
  assert (H1 : exists r1,
            calculate_xray_emissivity Num 1.602176634e-9 (fun _ => NaN)
              (fun _ => NaN) (fun _ _ _ v => v) (fun _ _ _ _ v => v)
              example_env example_catalog "Tvir" 0.5 2 true 0 "cloudy"
              (Some "."%string) = Return r1)
    by (vm_compute; eexists; reflexivity).
  assert (H2 : exists r2,
            calculate_xray_emissivity Num 1 (fun _ => NaN)
              (fun _ => NaN) (fun _ _ _ v => v) (fun _ _ _ _ v => v)
              example_env example_catalog "Tvir" 0.5 2 true 0 "cloudy"
              (Some "."%string) = Return r2)
    by (vm_compute; eexists; reflexivity).
  destruct H1 as [r1 H1]. destruct H2 as [r2 H2]. rewrite H1, H2. f_equal.
  exact (X18_photon_tables_unused Num (fun _ => NaN) (fun _ => NaN)
           (fun _ _ _ v => v) (fun _ _ _ _ v => v) 1.602176634e-9 1
           example_env example_catalog "Tvir" 0.5 2 true 0 "cloudy"
           (Some "."%string) r1 r2 H1 H2).
Defined.

(** ** A density grid that was never loaded *)

Lemma no_grid_table_ok : table_ok no_grid_table 2.
Proof.
  constructor; simpl.
  - repeat split; reflexivity.
  - reflexivity.
  - discriminate.
  - reflexivity.
  - repeat constructor.
  - discriminate.
Qed.

Section NoGrid.

Variable log10q : Q -> fval.

(** X19: [__init__] sets [log_nH] only when the file has it.  On a
    well-formed integrator without it, a call on a three-dimensional dataset
    with the band inside the table's range completes the band integration
    and then raises [AttributeError] at the read of [self.log_nH]. *)
Theorem X19_missing_log_nH (self : XrayEmissivityIntegrator) (N : nat)
  (data_type : string) (planes : list (list (list Q))) (e_min e_max : Q)
  (energy : bool) :
  let E := ebin self in
  let lo := e_min * (1 + redshift self) in
  let hi := e_max * (1 + redshift self) in
  table_ok self N -> length (emid self) = N ->
  getattr_emissivity self data_type = Return (Arr3 planes) ->
  log_nH self = None ->
  nth 0 E 0 <= lo -> lo <= hi -> hi < nth N E 0 ->
  (exists surf, interp_data self data_type e_min e_max energy = Return surf)
  /\
  get_interpolator log10q self data_type e_min e_max energy
  = Raise AttributeError.
Proof.
  intros E lo hi Hok Hmid Hdata HnH H0 Hlh HN.
  pose proof (getattr_rect _ _ _ _ Hok Hdata) as Hrect.
  pose proof (ok_nonneg _ _ Hok) as Hpos. fold E in Hpos.
  set (per_photon := fun row : list Q => zipWith Qdiv row (emid self)).
  set (data' := if energy then Arr3 planes
                else map_rows per_photon (Arr3 planes)).
  assert (Hload : load_data self data_type energy = Return data').
  { unfold load_data. rewrite Hdata. cbn [bind]. unfold data'.
    destruct energy; [reflexivity|].
    apply (along_rows_rect _ per_photon N); [|exact Hrect].
    intros row Hrow. apply broadcast_same. congruence. }
  assert (Hrect' : rect N data').
  { unfold data'. destruct energy; [exact Hrect|].
    apply (map_rows_rect per_photon N N); [|exact Hrect].
    intros row Hrow. unfold per_photon. rewrite zipWith_length; congruence. }
  assert (Hdim : exists p, data' = Arr3 p).
  { unfold data'. destruct energy; eexists; reflexivity. }
  destruct (integrate_band_exact self data' e_min e_max N)
    as (surf & Hrun & Hrows); try assumption; fold E lo hi; try lra.
  - exact (ok_increasing _ _ Hok).
  - exact (ok_size _ _ Hok).
  - exact (ok_dE _ _ Hok).
  - apply in_bounds; right; split; lra.
  - assert (Hsurf : interp_data self data_type e_min e_max energy
                    = Return surf).
    { unfold interp_data. rewrite Hload. exact Hrun. }
    split; [exists surf; exact Hsurf|].
    unfold get_interpolator. rewrite Hsurf. cbn [bind].
    destruct Hdim as [p Hp]. rewrite Hp in Hrows.
    destruct surf as [s|s]; simpl in Hrows; [contradiction|].
    rewrite HnH. reflexivity.
Qed.

End NoGrid.

Lemma X19_witness :
  get_interpolator (fun _ => NaN) no_grid_table "primordial" 0.5 2 true
  = Raise AttributeError.
Proof.
  assert (H0 : nth 0 (ebin no_grid_table) 0
               <= 0.5 * (1 + redshift no_grid_table)) by discriminate.
  assert (H1 : 0.5 * (1 + redshift no_grid_table)
               <= 2 * (1 + redshift no_grid_table)) by discriminate.
  assert (H2 : 2 * (1 + redshift no_grid_table)
               < nth 2 (ebin no_grid_table) 0) by reflexivity.
  exact (proj2 (X19_missing_log_nH (fun _ => NaN) no_grid_table 2
                  "primordial" _ 0.5 2 true no_grid_table_ok eq_refl
                  eq_refl eq_refl H0 H1 H2)).
Defined.

(** * The round trip through the logarithm (C6) *)

Lemma nth_map_in {A B : Type} (g : A -> B) (l : list A) (i : nat)
  (d : A) (d' : B) :
  (i < length l)%nat -> nth i (map g l) d' = g (nth i l d).
Proof.
  intros Hi. rewrite (nth_indep (map g l) d' (g d)) by (rewrite length_map; lia).
  apply map_nth.
Qed.

Lemma same_grid_map_rows (g : list Q -> list Q) (a : ndarray)
  (s : surface) :
  same_grid (map_rows g a) s -> same_grid a s.
Proof.
  unfold same_grid. intros H. apply rowwise_map_rows in H. exact H.
Qed.

Section RoundTrip.

Variable log10q : Q -> fval.
Variable pow10q : Q -> fval.
Variable unilinear_at : list fval -> Q * Q -> bool -> fval -> fval.
Variable bilinear_at :
  list (list fval) -> Q * Q * Q * Q -> bool -> fval -> fval -> fval.
Variable tol : Q.
Variable grid : Q * Q -> nat -> nat -> Q.

(** The surface and the interpolator of a call on a well-formed table with
    the band inside its range. *)
Lemma get_interpolator_surface (self : XrayEmissivityIntegrator) (N : nat)
  (data_type : string) (data : ndarray) (e_min e_max : Q) (energy : bool) :
  let E := ebin self in
  let lo := e_min * (1 + redshift self) in
  let hi := e_max * (1 + redshift self) in
  table_ok self N -> length (emid self) = N ->
  getattr_emissivity self data_type = Return data ->
  log_T self <> [] ->
  (ndim data = 3%nat -> exists nh, log_nH self = Some nh /\ nh <> []) ->
  nth 0 E 0 <= lo -> lo <= hi -> hi < nth N E 0 ->
  exists surf f,
    interp_data self data_type e_min e_max energy = Return surf /\
    get_interpolator log10q self data_type e_min e_max energy = Return f /\
    same_grid data surf /\
    built_over log10q self surf f.
Proof.
  intros E lo hi Hok Hmid Hdata HT HnH H0 Hlh HN.
  pose proof (getattr_rect _ _ _ _ Hok Hdata) as Hrect.
  pose proof (ok_nonneg _ _ Hok) as Hpos. fold E in Hpos.
  set (per_photon := fun row : list Q => zipWith Qdiv row (emid self)).
  set (data' := if energy then data else map_rows per_photon data).
  assert (Hload : load_data self data_type energy = Return data').
  { unfold load_data. rewrite Hdata. cbn [bind]. unfold data'.
    destruct energy; [reflexivity|].
    apply (along_rows_rect _ per_photon N); [|exact Hrect].
    intros row Hrow. apply broadcast_same. congruence. }
  assert (Hrect' : rect N data').
  { unfold data'. destruct energy; [exact Hrect|].
    apply (map_rows_rect per_photon N N); [|exact Hrect].
    intros row Hrow. unfold per_photon. rewrite zipWith_length; congruence. }
  destruct (integrate_band_exact self data' e_min e_max N)
    as (surf & Hrun & Hrows); try assumption; fold E lo hi; try lra.
  - exact (ok_increasing _ _ Hok).
  - exact (ok_size _ _ Hok).
  - exact (ok_dE _ _ Hok).
  - apply in_bounds; right; split; lra.
  - assert (Hsurf : interp_data self data_type e_min e_max energy
                    = Return surf).
    { unfold interp_data. rewrite Hload. exact Hrun. }
    assert (Hgrid : same_grid data surf).
    { apply integrate_band_grid in Hrun. unfold data' in Hrun.
      destruct energy; [exact Hrun|].
      apply (same_grid_map_rows per_photon). exact Hrun. }
    exists surf. unfold get_interpolator. rewrite Hsurf. cbn [bind].
    destruct (getitem_ends _ HT) as [HT0 HT1].
    destruct data as [rows|planes], surf as [s|s];
      unfold same_grid in Hgrid; simpl in Hgrid; try contradiction.
    + rewrite HT0, HT1. cbn [bind]. eexists.
      split; [reflexivity|]. split; [reflexivity|].
      split; [exact Hgrid|]. reflexivity.
    + destruct HnH as (nh & Hnh & Hne); [reflexivity|].
      rewrite Hnh. destruct (getitem_ends _ Hne) as [Hn0 Hn1].
      rewrite Hn0, Hn1, HT0, HT1. cbn [bind]. eexists.
      split; [reflexivity|]. split; [reflexivity|].
      split; [exact Hgrid|]. simpl. exists nh. rewrite Hnh.
      split; reflexivity.
Qed.

Hypothesis round_trip : log_round_trip log10q pow10q tol.
Hypothesis nodes1 : unilinear_nodes unilinear_at grid.
Hypothesis nodes2 : bilinear_nodes bilinear_at grid.

Lemma round_trip_value (v : fval) (x : Q) :
  0 < x -> v = log10q x ->
  v = log10q x /\
  exists r, pow10 pow10q v = Num r /\ Qabs (r - x) <= tol * x.
Proof.
  intros Hx Hv. split; [exact Hv|].
  destruct (round_trip x Hx) as (l & r & Hl & Hr & Hclose).
  exists r. rewrite Hv, Hl. simpl. split; [exact Hr|exact Hclose].
Qed.

Lemma log10_finite (s : list Q) :
  Forall (fun x => 0 < x) s -> Forall finite (map log10q s).
Proof.
  intros H. rewrite Forall_map. revert H. apply Forall_impl.
  intros x Hx. destruct (round_trip x Hx) as (l & _ & Hl & _).
  exists l. exact Hl.
Qed.


End RoundTrip.

Lemma stand_in_round_trip : log_round_trip Num Num 0.
Proof.
  intros q Hq. exists q, q. split; [reflexivity|]. split; [reflexivity|].
  assert (E : q - q == 0) by ring. rewrite E. simpl. lra.
Qed.

Lemma stand_in_nodes1 : unilinear_nodes floor_lookup1 index_grid.
Proof.
  intros table b i _ _ Hi. unfold floor_lookup1, index_grid.
  rewrite Qfloor_Z, Nat2Z.id. reflexivity.
Qed.

Lemma stand_in_nodes2 : bilinear_nodes floor_lookup2 index_grid.
Proof.
  intros table x0 x1 y0 y1 m i j _ _ _ _ Hi Hj.
  unfold floor_lookup2, index_grid.
  rewrite !Qfloor_Z, !Nat2Z.id. reflexivity.
Qed.

